(** * PCI device records and their claim / allocate / free / remove engine

    A shallow embedding of [nova/objects/pci_device.py]: the state engine
    ([claim], [allocate], [remove], [free]), [update_device],
    [obj_make_compatible], the accessors over [extra_info], the comparison
    of devices, [create] and the back-fill of the uuid column.

    Python objects are mutable and shared: a VF holds a pointer to its PF
    record and the PF holds the list of its VF records.  The embedding keeps
    that sharing: device records live in a [store] addressed by references
    (object identities), [parent_device] and [child_devices] hold references,
    and every method is a computation over the store that may raise.  A
    mutation made before a [raise] stays in the store, as in Python.

    The file has the model first (definitions translated from the source,
    then their functional reading and the data of the examples) and the
    properties after it. *)

From stdpp Require Import base option list strings gmap pretty.
From Stdlib Require Import ZArith Ascii.

(** ** Enumerations of [nova.objects.fields] *)

Inductive PciDeviceType : Type := STANDARD | SRIOV_PF | SRIOV_VF | VDPA.

Inductive PciDeviceStatus : Type :=
  | AVAILABLE | CLAIMED | ALLOCATED | REMOVED | DELETED
  | UNAVAILABLE | UNCLAIMABLE.

#[global] Instance PciDeviceType_eq_dec : EqDecision PciDeviceType.
Proof. solve_decision. Defined.

#[global] Instance PciDeviceStatus_eq_dec : EqDecision PciDeviceStatus.
Proof. solve_decision. Defined.

(** ** Exceptions and outcomes *)

Inductive exn : Type :=
  | PciDeviceInvalidStatus
  | PciDeviceVFInvalidStatus
  | PciDevicePFInvalidStatus
  | PciDeviceInvalidOwner
  | ObjectActionError
  | NotImplementedError
  | StopIteration
  | KeyError
  | ValueError
  | AttributeError
  | TypeError.

#[global] Instance exn_eq_dec : EqDecision exn.
Proof. solve_decision. Defined.

Inductive result (A : Type) : Type :=
  | Ok (a : A)
  | Raise (e : exn).
Arguments Ok {A} a.
Arguments Raise {A} e.

(** An object attribute is either not set on the object at all, or set to a
    value (which for a nullable field may be [None]).  [name in self] tests
    the former; reading an attribute that is not set raises. *)
Inductive attr (A : Type) : Type :=
  | Unset
  | Val (a : A).
Arguments Unset {A}.
Arguments Val {A} a.

#[global] Instance attr_eq_dec {A : Type} `{EqDecision A} : EqDecision (attr A).
Proof. solve_decision. Defined.

(** ** The device record *)

Definition ref : Type := nat.

(** The fields of [PciDevice.fields], then the two links of the in-memory
    device tree that [__init__] adds.  [status], [dev_type] and the
    descriptive fields are set.  Two attributes keep the distinction between
    "not set" and "set": [id], which storage assigns (an object made by
    [create] has none until it is saved, and [free] reads it), and
    [instance_uuid], where [remove] tests the difference between "not set"
    and "set to None".  [request_id], which is only ever written, is [None]
    in both cases, and [extra_info] is a dict (it defaults to the empty one
    when read). *)
Record PciDevice : Type := {
  id : attr Z;
  uuid : string;
  compute_node_id : option Z;
  address : string;
  vendor_id : string;
  product_id : string;
  dev_type : PciDeviceType;
  status : PciDeviceStatus;
  dev_id : option string;
  label : option string;
  instance_uuid : attr (option string);
  request_id : option string;
  extra_info : gmap string string;
  numa_node : option Z;
  parent_addr : option string;
  parent_device : option ref;
  child_devices : list ref
}.

(** Attribute assignment [self.f = v]: one setter per object field.  The two
    tree links are assigned by the tree builder only, never by the methods
    of this module. *)
Definition set_id (v : attr Z) (d : PciDevice) : PciDevice :=
  {| id := v; uuid := uuid d; compute_node_id := compute_node_id d;
     address := address d; vendor_id := vendor_id d;
     product_id := product_id d; dev_type := dev_type d; status := status d;
     dev_id := dev_id d; label := label d; instance_uuid := instance_uuid d;
     request_id := request_id d; extra_info := extra_info d;
     numa_node := numa_node d; parent_addr := parent_addr d;
     parent_device := parent_device d; child_devices := child_devices d |}.

Definition set_uuid (v : string) (d : PciDevice) : PciDevice :=
  {| id := id d; uuid := v; compute_node_id := compute_node_id d;
     address := address d; vendor_id := vendor_id d;
     product_id := product_id d; dev_type := dev_type d; status := status d;
     dev_id := dev_id d; label := label d; instance_uuid := instance_uuid d;
     request_id := request_id d; extra_info := extra_info d;
     numa_node := numa_node d; parent_addr := parent_addr d;
     parent_device := parent_device d; child_devices := child_devices d |}.

Definition set_compute_node_id (v : option Z) (d : PciDevice) : PciDevice :=
  {| id := id d; uuid := uuid d; compute_node_id := v; address := address d;
     vendor_id := vendor_id d; product_id := product_id d;
     dev_type := dev_type d; status := status d; dev_id := dev_id d;
     label := label d; instance_uuid := instance_uuid d;
     request_id := request_id d; extra_info := extra_info d;
     numa_node := numa_node d; parent_addr := parent_addr d;
     parent_device := parent_device d; child_devices := child_devices d |}.

Definition set_address (v : string) (d : PciDevice) : PciDevice :=
  {| id := id d; uuid := uuid d; compute_node_id := compute_node_id d;
     address := v; vendor_id := vendor_id d; product_id := product_id d;
     dev_type := dev_type d; status := status d; dev_id := dev_id d;
     label := label d; instance_uuid := instance_uuid d;
     request_id := request_id d; extra_info := extra_info d;
     numa_node := numa_node d; parent_addr := parent_addr d;
     parent_device := parent_device d; child_devices := child_devices d |}.

Definition set_vendor_id (v : string) (d : PciDevice) : PciDevice :=
  {| id := id d; uuid := uuid d; compute_node_id := compute_node_id d;
     address := address d; vendor_id := v; product_id := product_id d;
     dev_type := dev_type d; status := status d; dev_id := dev_id d;
     label := label d; instance_uuid := instance_uuid d;
     request_id := request_id d; extra_info := extra_info d;
     numa_node := numa_node d; parent_addr := parent_addr d;
     parent_device := parent_device d; child_devices := child_devices d |}.

Definition set_product_id (v : string) (d : PciDevice) : PciDevice :=
  {| id := id d; uuid := uuid d; compute_node_id := compute_node_id d;
     address := address d; vendor_id := vendor_id d; product_id := v;
     dev_type := dev_type d; status := status d; dev_id := dev_id d;
     label := label d; instance_uuid := instance_uuid d;
     request_id := request_id d; extra_info := extra_info d;
     numa_node := numa_node d; parent_addr := parent_addr d;
     parent_device := parent_device d; child_devices := child_devices d |}.

Definition set_dev_type (v : PciDeviceType) (d : PciDevice) : PciDevice :=
  {| id := id d; uuid := uuid d; compute_node_id := compute_node_id d;
     address := address d; vendor_id := vendor_id d;
     product_id := product_id d; dev_type := v; status := status d;
     dev_id := dev_id d; label := label d; instance_uuid := instance_uuid d;
     request_id := request_id d; extra_info := extra_info d;
     numa_node := numa_node d; parent_addr := parent_addr d;
     parent_device := parent_device d; child_devices := child_devices d |}.

Definition set_status (v : PciDeviceStatus) (d : PciDevice) : PciDevice :=
  {| id := id d; uuid := uuid d; compute_node_id := compute_node_id d;
     address := address d; vendor_id := vendor_id d;
     product_id := product_id d; dev_type := dev_type d; status := v;
     dev_id := dev_id d; label := label d; instance_uuid := instance_uuid d;
     request_id := request_id d; extra_info := extra_info d;
     numa_node := numa_node d; parent_addr := parent_addr d;
     parent_device := parent_device d; child_devices := child_devices d |}.

Definition set_dev_id (v : option string) (d : PciDevice) : PciDevice :=
  {| id := id d; uuid := uuid d; compute_node_id := compute_node_id d;
     address := address d; vendor_id := vendor_id d;
     product_id := product_id d; dev_type := dev_type d; status := status d;
     dev_id := v; label := label d; instance_uuid := instance_uuid d;
     request_id := request_id d; extra_info := extra_info d;
     numa_node := numa_node d; parent_addr := parent_addr d;
     parent_device := parent_device d; child_devices := child_devices d |}.

Definition set_label (v : option string) (d : PciDevice) : PciDevice :=
  {| id := id d; uuid := uuid d; compute_node_id := compute_node_id d;
     address := address d; vendor_id := vendor_id d;
     product_id := product_id d; dev_type := dev_type d; status := status d;
     dev_id := dev_id d; label := v; instance_uuid := instance_uuid d;
     request_id := request_id d; extra_info := extra_info d;
     numa_node := numa_node d; parent_addr := parent_addr d;
     parent_device := parent_device d; child_devices := child_devices d |}.

Definition set_instance_uuid (v : attr (option string)) (d : PciDevice) : PciDevice :=
  {| id := id d; uuid := uuid d; compute_node_id := compute_node_id d;
     address := address d; vendor_id := vendor_id d;
     product_id := product_id d; dev_type := dev_type d; status := status d;
     dev_id := dev_id d; label := label d; instance_uuid := v;
     request_id := request_id d; extra_info := extra_info d;
     numa_node := numa_node d; parent_addr := parent_addr d;
     parent_device := parent_device d; child_devices := child_devices d |}.

Definition set_request_id (v : option string) (d : PciDevice) : PciDevice :=
  {| id := id d; uuid := uuid d; compute_node_id := compute_node_id d;
     address := address d; vendor_id := vendor_id d;
     product_id := product_id d; dev_type := dev_type d; status := status d;
     dev_id := dev_id d; label := label d; instance_uuid := instance_uuid d;
     request_id := v; extra_info := extra_info d; numa_node := numa_node d;
     parent_addr := parent_addr d; parent_device := parent_device d;
     child_devices := child_devices d |}.

Definition set_extra_info (v : gmap string string) (d : PciDevice) : PciDevice :=
  {| id := id d; uuid := uuid d; compute_node_id := compute_node_id d;
     address := address d; vendor_id := vendor_id d;
     product_id := product_id d; dev_type := dev_type d; status := status d;
     dev_id := dev_id d; label := label d; instance_uuid := instance_uuid d;
     request_id := request_id d; extra_info := v; numa_node := numa_node d;
     parent_addr := parent_addr d; parent_device := parent_device d;
     child_devices := child_devices d |}.

Definition set_numa_node (v : option Z) (d : PciDevice) : PciDevice :=
  {| id := id d; uuid := uuid d; compute_node_id := compute_node_id d;
     address := address d; vendor_id := vendor_id d;
     product_id := product_id d; dev_type := dev_type d; status := status d;
     dev_id := dev_id d; label := label d; instance_uuid := instance_uuid d;
     request_id := request_id d; extra_info := extra_info d; numa_node := v;
     parent_addr := parent_addr d; parent_device := parent_device d;
     child_devices := child_devices d |}.

Definition set_parent_addr (v : option string) (d : PciDevice) : PciDevice :=
  {| id := id d; uuid := uuid d; compute_node_id := compute_node_id d;
     address := address d; vendor_id := vendor_id d;
     product_id := product_id d; dev_type := dev_type d; status := status d;
     dev_id := dev_id d; label := label d; instance_uuid := instance_uuid d;
     request_id := request_id d; extra_info := extra_info d;
     numa_node := numa_node d; parent_addr := v;
     parent_device := parent_device d; child_devices := child_devices d |}.

(** The owner a device reports: [None] both when [instance_uuid] is not set
    and when it is set to [None]. *)
Definition owner (d : PciDevice) : option string :=
  match instance_uuid d with
  | Unset => None
  | Val o => o
  end.

(** ** The store of device objects and computations over it *)

Definition store : Type := ref → PciDevice.

Definition upd (r : ref) (d : PciDevice) (h : store) : store :=
  λ r', if decide (r' = r) then d else h r'.

Definition M (A : Type) : Type := store → store * result A.

#[global] Instance M_ret : MRet M := λ A a h, (h, Ok a).

#[global] Instance M_bind : MBind M := λ A B f m h,
  match m h with
  | (h', Ok a) => f a h'
  | (h', Raise e) => (h', Raise e)
  end.

Definition raise {A : Type} (e : exn) : M A := λ h, (h, Raise e).

Definition load (r : ref) : M PciDevice := λ h, (h, Ok (h r)).

Definition snapshot : M store := λ h, (h, Ok h).

Definition modify (r : ref) (f : PciDevice → PciDevice) : M unit :=
  λ h, (upd r (f (h r)) h, Ok tt).

(** Reading [self.instance_uuid]: the object base raises when asked to load
    an attribute that was never set. *)
Definition getattr_instance_uuid (d : PciDevice) : M (option string) :=
  match instance_uuid d with
  | Unset => raise NotImplementedError
  | Val v => mret v
  end.

(** Reading [dev.id]: the same for an object that was given no id. *)
Definition getattr_id (d : PciDevice) : M Z :=
  match id d with
  | Unset => raise NotImplementedError
  | Val v => mret v
  end.

(** ** The instance argument of [allocate] and [free]

    An instance is used through [instance['uuid']] and
    [instance['pci_devices']]; for the dict form the second key may be absent.
    The collection holds copies of device records. *)
Record Instance : Type := {
  inst_uuid : string;
  inst_pci_devices : option (list PciDevice)
}.

(** ** Status helpers *)

Definition is_available (d : PciDevice) : bool :=
  bool_decide (status d = AVAILABLE).

Fixpoint _bulk_update_status (dev_list : list ref) (st : PciDeviceStatus)
  : M unit :=
  match dev_list with
  | [] => mret tt
  | dev :: rest =>
      modify dev (set_status st);; _bulk_update_status rest st
  end.

(** ** claim *)

Definition claim (self : ref) (instance_uuid : string) : M unit :=
  dev ← load self;
  if bool_decide (status dev ≠ AVAILABLE) then raise PciDeviceInvalidStatus
  else
    match dev_type dev with
    | SRIOV_PF =>
        let vfs_list := child_devices dev in
        h ← snapshot;
        let non_free_dependants :=
          List.filter (λ vf, negb (is_available (h vf))) vfs_list in
        match non_free_dependants with
        | [] => mret tt
        | _ =>
            let actual_statuses :=
              (λ child, status (h child)) <$> non_free_dependants in
            let allowed_non_free_statues := [UNCLAIMABLE; UNAVAILABLE] in
            match list_difference actual_statuses allowed_non_free_statues with
            | [] => mret tt (* LOG.warning, and the claim goes on *)
            | _ => raise PciDeviceVFInvalidStatus
            end
        end;;
        _bulk_update_status vfs_list UNCLAIMABLE
    | SRIOV_VF | VDPA =>
        let parent_ok_statuses := [AVAILABLE; UNCLAIMABLE; UNAVAILABLE] in
        match parent_device dev with
        | Some parent =>
            p ← load parent;
            if bool_decide (status p ∉ parent_ok_statuses)
            then raise PciDevicePFInvalidStatus
            else if bool_decide (status p = AVAILABLE)
            then modify parent (set_status UNCLAIMABLE)
            else mret tt
        | None => mret tt (* LOG.debug *)
        end
    | STANDARD => mret tt
    end;;
    modify self (set_status CLAIMED);;
    modify self (set_instance_uuid (Val (Some instance_uuid))).

(** ** allocate *)

Definition allocate (self : ref) (instance : Instance) : M Instance :=
  let ok_statuses := [AVAILABLE; CLAIMED] in
  let parent_ok_statuses := [AVAILABLE; UNCLAIMABLE; UNAVAILABLE] in
  let dependants_ok_statuses := [AVAILABLE; UNCLAIMABLE] in
  dev ← load self;
  if bool_decide (status dev ∉ ok_statuses) then raise PciDeviceInvalidStatus
  else
    (if bool_decide (status dev = CLAIMED) then
       o ← getattr_instance_uuid dev;
       if bool_decide (o ≠ Some (inst_uuid instance))
       then raise PciDeviceInvalidOwner
       else mret tt
     else mret tt);;
    match dev_type dev with
    | SRIOV_PF =>
        let vfs_list := child_devices dev in
        h ← snapshot;
        if negb (forallb
                   (λ vf, bool_decide (status (h vf) ∈ dependants_ok_statuses))
                   vfs_list)
        then raise PciDeviceVFInvalidStatus
        else _bulk_update_status vfs_list UNAVAILABLE
    | SRIOV_VF | VDPA =>
        match parent_device dev with
        | Some parent =>
            p ← load parent;
            if bool_decide (status p ∉ parent_ok_statuses)
            then raise PciDevicePFInvalidStatus
            else modify parent (set_status UNAVAILABLE)
        | None => mret tt (* LOG.debug *)
        end
    | STANDARD => mret tt
    end;;
    modify self (set_status ALLOCATED);;
    modify self (set_instance_uuid (Val (Some (inst_uuid instance))));;
    copy ← load self;
    mret {| inst_uuid := inst_uuid instance;
            inst_pci_devices :=
              Some (default [] (inst_pci_devices instance) ++ [copy]) |}.

(** ** remove *)

Definition remove (self : ref) : M unit :=
  let expected_states := [AVAILABLE; UNAVAILABLE; UNCLAIMABLE] in
  dev ← load self;
  if bool_decide (status dev ∉ expected_states)
  then raise PciDeviceInvalidStatus
  else
    match instance_uuid dev with
    | Val (Some _) => raise PciDeviceInvalidOwner
    | _ =>
        modify self (set_status REMOVED);;
        modify self (set_instance_uuid (Val None));;
        modify self (set_request_id None)
    end.

(** ** free *)

(** [[vf.is_available() for vf in vfs_list if vf.id != self.id]]: the two
    ids are read for each entry of the list, in this order. *)
Fixpoint other_vfs_is_available (self : ref) (vfs_list : list ref)
  : M (list bool) :=
  match vfs_list with
  | [] => mret []
  | vf :: rest =>
      v ← load vf;
      vf_id ← getattr_id v;
      dev ← load self;
      self_id ← getattr_id dev;
      if bool_decide (vf_id ≠ self_id) then
        flags ← other_vfs_is_available self rest;
        mret (is_available v :: flags)
      else other_vfs_is_available self rest
  end.

(** [next((dev for dev in devs if dev.id == self.id))]: the first entry with
    the id of the device, [StopIteration] when there is none.  The two ids
    are read for each entry the search comes to. *)
Fixpoint next_with_id (self : ref) (devs : list PciDevice) : M PciDevice :=
  match devs with
  | [] => raise StopIteration
  | dev :: rest =>
      dev_id ← getattr_id dev;
      cur ← load self;
      self_id ← getattr_id cur;
      if bool_decide (dev_id = self_id) then mret dev
      else next_with_id self rest
  end.

(** [devs.remove(existed)] for the entry found by [next_with_id]: no earlier
    entry has its id, hence none compares equal to it, and the entry removed
    is the first one with the id (this is proved below). *)
Fixpoint remove_existed (existed : PciDevice) (devs : list PciDevice)
  : list PciDevice :=
  match devs with
  | [] => []
  | dev :: rest =>
      if bool_decide (id dev = id existed) then rest
      else dev :: remove_existed existed rest
  end.

Definition free (self : ref) (instance : option Instance)
  : M (list ref * option Instance) :=
  let ok_statuses := [ALLOCATED; CLAIMED] in
  let free_devs : list ref := [] in
  dev ← load self;
  if bool_decide (status dev ∉ ok_statuses) then raise PciDeviceInvalidStatus
  else
    match instance with
    | Some inst =>
        o ← getattr_instance_uuid dev;
        if bool_decide (o ≠ Some (inst_uuid inst))
        then raise PciDeviceInvalidOwner
        else mret tt
    | None => mret tt
    end;;
    free_devs ←
      (if bool_decide (dev_type dev = SRIOV_PF) then
         let vfs_list := child_devices dev in
         _bulk_update_status vfs_list AVAILABLE;;
         mret (free_devs ++ vfs_list)
       else mret free_devs);
    free_devs ←
      (if bool_decide (dev_type dev ∈ [SRIOV_VF; VDPA]) then
         match parent_device dev with
         | None => mret free_devs (* LOG.debug *)
         | Some parent =>
             h ← snapshot;
             let vfs_list := child_devices (h parent) in
             flags ← other_vfs_is_available self vfs_list;
             if forallb (λ flag, flag) flags
             then
               modify parent (set_status AVAILABLE);;
               mret (free_devs ++ [parent])
             else mret free_devs
         end
       else mret free_devs);
    cur ← load self;
    let old_status := status cur in
    modify self (set_status AVAILABLE);;
    let free_devs := free_devs ++ [self] in
    modify self (set_instance_uuid (Val None));;
    modify self (set_request_id None);;
    match instance with
    | Some inst =>
        if bool_decide (old_status = ALLOCATED) then
          match inst_pci_devices inst with
          | None => raise KeyError
          | Some devs =>
              existed ← next_with_id self devs;
              mret (free_devs,
                    Some {| inst_uuid := inst_uuid inst;
                            inst_pci_devices :=
                              Some (remove_existed existed devs) |})
          end
        else mret (free_devs, instance)
    | None => mret (free_devs, instance)
    end.


(** * Python values, dicts and the library functions the module calls *)

(** The values found in a discovered-device dict, in an object primitive and
    in decoded JSON: [None], booleans, integers, strings, lists and dicts
    with string keys.  A dict keeps its insertion order. *)
#[warnings="-register-all"]
Inductive pyval : Type :=
  | PyNone
  | PyBool (b : bool)
  | PyInt (z : Z)
  | PyStr (s : string)
  | PyList (l : list pyval)
  | PyDict (d : list (string * pyval)).

Definition dict (V : Type) : Type := list (string * V).

Section dict_ops.
Context {V : Type}.

(** [d.get(k)] *)
Fixpoint dict_get (k : string) (d : dict V) : option V :=
  match d with
  | [] => None
  | (k', v) :: rest => if String.eqb k' k then Some v else dict_get k rest
  end.

(** [k in d] *)
Definition dict_has (k : string) (d : dict V) : bool :=
  match dict_get k d with Some _ => true | None => false end.

(** [d.pop(k, None)] and [del d[k]] for a key that is present *)
Fixpoint dict_del (k : string) (d : dict V) : dict V :=
  match d with
  | [] => []
  | (k', v) :: rest =>
      if String.eqb k' k then dict_del k rest else (k', v) :: dict_del k rest
  end.

(** [d[k] = v]: an existing key keeps its place, a new key goes last *)
Fixpoint dict_set (k : string) (v : V) (d : dict V) : dict V :=
  match d with
  | [] => [(k, v)]
  | (k', v') :: rest =>
      if String.eqb k' k then (k', v) :: rest
      else (k', v') :: dict_set k v rest
  end.

(** [d.setdefault(k, v)] *)
Definition dict_setdefault (k : string) (v : V) (d : dict V) : dict V :=
  if dict_has k d then d else d ++ [(k, v)].
End dict_ops.

(** The functions of oslo.serialization and oslo.utils and the Python
    built-in the module relies on.  The development is parametric in them;
    the one law used is that the JSON text of the empty object decodes to the
    empty dict. *)
Class Oslo : Type := {
  (** [jsonutils.loads]: the decoded value, or [ValueError] *)
  loads : string → result pyval;
  (** [jsonutils.dumps] *)
  dumps : pyval → string;
  (** [int(s)] for a string [s] *)
  int_of_str : string → result Z;
  (** [versionutils.convert_version_to_tuple] *)
  convert_version_to_tuple : string → result (list nat);
  (** whether a value is accepted by one of the bookkeeping fields
      ([created_at], [updated_at], [deleted_at], [deleted]) *)
  coerce_persistent : string → pyval → result unit;
  loads_empty_object : loads "{}" = Ok (PyDict [])
}.

#[global] Instance result_ret : MRet result := λ A a, Ok a.

#[global] Instance result_bind : MBind result := λ A B f m,
  match m with
  | Ok a => f a
  | Raise e => Raise e
  end.

(** * Fields and attribute assignment *)

(** Modelled from the spec: the enumeration [PciDeviceType] is declared in
    [nova/objects/fields.py], which is not part of the excerpt; section 3
    names its members, and each string is the value the member stands
    for. *)
Definition PciDeviceType_values : dict PciDeviceType :=
  [("type-PCI", STANDARD); ("type-PF", SRIOV_PF); ("type-VF", SRIOV_VF);
   ("vdpa", VDPA)].

(** Modelled from the spec: the enumeration [PciDeviceStatus], declared in
    the same absent file; section 3 names its members. *)
Definition PciDeviceStatus_values : dict PciDeviceStatus :=
  [("available", AVAILABLE); ("claimed", CLAIMED); ("allocated", ALLOCATED);
   ("removed", REMOVED); ("deleted", DELETED); ("unavailable", UNAVAILABLE);
   ("unclaimable", UNCLAIMABLE)].

(** The keys of [PciDevice.fields]. *)
Inductive field : Type :=
  | f_id | f_uuid | f_compute_node_id | f_address | f_vendor_id
  | f_product_id | f_dev_type | f_status | f_dev_id | f_label
  | f_instance_uuid | f_request_id | f_extra_info | f_numa_node
  | f_parent_addr.

Definition fields : dict field :=
  [("id", f_id); ("uuid", f_uuid); ("compute_node_id", f_compute_node_id);
   ("address", f_address); ("vendor_id", f_vendor_id);
   ("product_id", f_product_id); ("dev_type", f_dev_type);
   ("status", f_status); ("dev_id", f_dev_id); ("label", f_label);
   ("instance_uuid", f_instance_uuid); ("request_id", f_request_id);
   ("extra_info", f_extra_info); ("numa_node", f_numa_node);
   ("parent_addr", f_parent_addr)].

(** The keys [fields] inherits from [NovaPersistentObject] (the
    [pci_ignore_fields] of [compare_pci_device_attributes]).  The record above
    does not carry these four attributes: assigning one can raise, and
    changes nothing that is modelled. *)
Definition persistent_fields : list string :=
  ["created_at"; "updated_at"; "deleted_at"; "deleted"].

Section coercion.
Context `{Oslo}.

(** Modelled from the spec: the field classes that coerce a value on
    assignment are not part of the excerpt; section 3 gives each attribute's
    type and whether it is nullable.  An integer field takes what [int]
    takes. *)
Definition coerce_integer (v : pyval) : result (option Z) :=
  match v with
  | PyInt z => Ok (Some z)
  | PyBool b => Ok (Some (if b then 1 else 0)%Z)
  | PyStr s => z ← int_of_str s; Ok (Some z)
  | PyNone => Ok None
  | PyList _ | PyDict _ => Raise TypeError
  end.

(** Modelled from the spec: a string field (absent field classes, as above)
    takes a string, or a number, which it writes out. *)
Definition coerce_string (v : pyval) : result (option string) :=
  match v with
  | PyStr s => Ok (Some s)
  | PyInt z => Ok (Some (pretty z))
  | PyBool b => Ok (Some (if b then "True" else "False"))
  | PyNone => Ok None
  | PyList _ | PyDict _ => Raise ValueError
  end.

(** Modelled from the spec: a field that is not nullable (section 3) refuses
    [None]. *)
Definition not_null {A : Type} (o : result (option A)) : result A :=
  o ← o; match o with Some a => Ok a | None => Raise ValueError end.

(** Modelled from the spec: an enum field (absent field classes) takes the
    strings of its enumeration and nothing else. *)
Definition coerce_enum {A : Type} (values : dict A) (v : pyval) : result A :=
  match v with
  | PyStr s =>
      match dict_get s values with
      | Some a => Ok a
      | None => Raise ValueError
      end
  | _ => Raise ValueError
  end.

(** Modelled from the spec: [extra_info] is a mapping from strings to
    strings (section 3); each value is coerced as a string that is not
    nullable. *)
Fixpoint coerce_dict_of_strings (d : dict pyval)
  : result (gmap string string) :=
  match d with
  | [] => Ok ∅
  | (k, v) :: rest =>
      s ← not_null (coerce_string v);
      m ← coerce_dict_of_strings rest;
      Ok (<[k := s]> m)
  end.

(** [setattr(self, name, value)] for a name of [fields]. *)
Definition setattr (f : field) (v : pyval) (self : PciDevice)
  : result PciDevice :=
  match f with
  | f_id => z ← not_null (coerce_integer v); Ok (set_id (Val z) self)
  | f_uuid => s ← not_null (coerce_string v); Ok (set_uuid s self)
  | f_compute_node_id =>
      z ← coerce_integer v; Ok (set_compute_node_id z self)
  | f_address => s ← not_null (coerce_string v); Ok (set_address s self)
  | f_vendor_id => s ← not_null (coerce_string v); Ok (set_vendor_id s self)
  | f_product_id =>
      s ← not_null (coerce_string v); Ok (set_product_id s self)
  | f_dev_type =>
      t ← coerce_enum PciDeviceType_values v; Ok (set_dev_type t self)
  | f_status =>
      s ← coerce_enum PciDeviceStatus_values v; Ok (set_status s self)
  | f_dev_id => s ← coerce_string v; Ok (set_dev_id s self)
  | f_label => s ← coerce_string v; Ok (set_label s self)
  | f_instance_uuid =>
      s ← coerce_string v; Ok (set_instance_uuid (Val s) self)
  | f_request_id => s ← coerce_string v; Ok (set_request_id s self)
  | f_extra_info =>
      match v with
      | PyDict d =>
          m ← coerce_dict_of_strings d; Ok (set_extra_info m self)
      | _ => Raise ValueError
      end
  | f_numa_node => z ← coerce_integer v; Ok (set_numa_node z self)
  | f_parent_addr => s ← coerce_string v; Ok (set_parent_addr s self)
  end.

(** ** update_device *)

(** The loop over [dev_dict.items()]: a key of [fields] is assigned, any
    other key goes to [extra_info], as it is when it is a string and as
    JSON text otherwise.  The loop stops at the first assignment that
    raises; what was assigned before stays. *)
Fixpoint update_device_items (items : dict pyval) (self : PciDevice)
  : PciDevice * result unit :=
  match items with
  | [] => (self, Ok tt)
  | (k, v) :: rest =>
      match dict_get k fields with
      | Some f =>
          match setattr f v self with
          | Ok self' => update_device_items rest self'
          | Raise e => (self, Raise e)
          end
      | None =>
          if bool_decide (k ∈ persistent_fields) then
            match coerce_persistent k v with
            | Ok _ => update_device_items rest self
            | Raise e => (self, Raise e)
            end
          else
          let extra_info := extra_info self in
          let data := match v with PyStr s => s | _ => dumps v end in
          let extra_info := <[k := data]> extra_info in
          update_device_items rest (set_extra_info extra_info self)
      end
  end.

(** The loop over [tags_to_clean]. *)
Definition clean_tags (tags_to_clean : list string) (dev_dict : dict pyval)
    (self : PciDevice) : PciDevice :=
  foldl
    (λ self tag,
       if negb (dict_has tag dev_dict)
          && bool_decide (is_Some (extra_info self !! tag))
       then set_extra_info (delete tag (extra_info self)) self
       else self)
    self tags_to_clean.

(** [update_device] changes the object and the caller's dict; both are
    returned, with the outcome. *)
Definition update_device (self : PciDevice) (dev_dict : dict pyval)
  : PciDevice * dict pyval * result unit :=
  let no_changes := ["status"; "instance_uuid"; "id"; "extra_info"] in
  let dev_dict := foldl (λ d key, dict_del key d) dev_dict no_changes in
  let dev_dict := dict_setdefault "parent_addr" PyNone dev_dict in
  match update_device_items dev_dict self with
  | (self, Raise e) => (self, dev_dict, Raise e)
  | (self, Ok _) =>
      (clean_tags ["managed"; "live_migratable"] dev_dict self, dev_dict,
       Ok tt)
  end.
End coercion.

(** * obj_make_compatible *)

(** Comparison of version tuples, as Python compares tuples. *)
Fixpoint version_lt (a b : list nat) : bool :=
  match a, b with
  | _, [] => false
  | [], _ :: _ => true
  | x :: a', y :: b' =>
      if bool_decide (x < y) then true
      else if bool_decide (x = y) then version_lt a' b'
      else false
  end.

(** Modelled from the spec: [raise_on_too_new_values] lives in
    [nova/objects/base.py], which is not part of the excerpt.  Section 6: an
    enum value unknown to the target version must not be emitted; emitting
    it is an error.  It raises when the primitive carries one of the values
    under the field, and does nothing otherwise. *)
Definition raise_on_too_new_values (version : list nat)
    (primitive : dict pyval) (field : string) (new_values : list string)
  : result unit :=
  match dict_get field primitive with
  | Some (PyStr value) =>
      if bool_decide (value ∈ new_values) then Raise ObjectActionError
      else Ok tt
  | _ => Ok tt
  end.

Section compat.
Context `{Oslo}.

(** The primitive is changed in place; it is returned as it stands when
    the method returns or raises. *)
Definition obj_make_compatible (primitive : dict pyval)
    (target_version : string) : dict pyval * result unit :=
  match convert_version_to_tuple target_version with
  | Raise e => (primitive, Raise e)
  | Ok target_version =>
      let primitive :=
        if version_lt target_version [1; 2]
           && dict_has "request_id" primitive
        then dict_del "request_id" primitive
        else primitive in
      let step :=
        if version_lt target_version [1; 4]
           && dict_has "parent_addr" primitive
        then
          match dict_get "parent_addr" primitive with
          | Some PyNone | None => Ok (dict_del "parent_addr" primitive)
          | Some parent_addr =>
              (* extra_info = primitive.get('extra_info', {}) *)
              match dict_get "extra_info" primitive with
              | None => Ok (dict_del "parent_addr" primitive)
              | Some (PyDict extra_info) =>
                  let extra_info :=
                    dict_set "phys_function" parent_addr extra_info in
                  Ok (dict_del "parent_addr"
                        (dict_set "extra_info" (PyDict extra_info)
                           primitive))
              | Some _ => Raise TypeError
              end
          end
        else Ok primitive in
      match step with
      | Raise e => (primitive, Raise e)
      | Ok primitive =>
          let added_statuses := ["unclaimable"; "unavailable"] in
          match
            (if version_lt target_version [1; 5]
                && dict_has "parent_addr" primitive
             then raise_on_too_new_values target_version primitive
                    "status" added_statuses
             else Ok tt)
          with
          | Raise e => (primitive, Raise e)
          | Ok _ =>
              let primitive :=
                if version_lt target_version [1; 6]
                   && dict_has "uuid" primitive
                then dict_del "uuid" primitive
                else primitive in
              if version_lt target_version [1; 7]
                 && dict_has "dev_type" primitive
              then (primitive,
                    raise_on_too_new_values target_version primitive
                      "dev_type" ["vdpa"])
              else (primitive, Ok tt)
          end
      end
  end.

(** * Accessors over extra_info *)

(** [value.get(key, default)]: only a dict has [get]. *)
Definition py_get (key : string) (dflt : pyval) (value : pyval)
  : result pyval :=
  match value with
  | PyDict d => Ok (default dflt (dict_get key d))
  | _ => Raise AttributeError
  end.

Definition card_serial_number (self : PciDevice) : result pyval :=
  let caps_json := default "{}" (extra_info self !! "capabilities") in
  caps ← loads caps_json;
  vpd ← py_get "vpd" (PyDict []) caps;
  py_get "card_serial_number" PyNone vpd.

Definition sriov_cap (self : PciDevice) : result pyval :=
  let caps_json := default "{}" (extra_info self !! "capabilities") in
  caps ← loads caps_json;
  py_get "sriov" (PyDict []) caps.

Definition mac_address (self : PciDevice) : option string :=
  extra_info self !! "mac_address".

Definition network_caps (self : PciDevice) : result pyval :=
  let caps_json := default "{}" (extra_info self !! "capabilities") in
  caps ← loads caps_json;
  py_get "network" (PyList []) caps.
End compat.

(** * Comparison of devices *)

(** What [__eq__] can be handed: a device, or any other object. *)
Inductive object : Type :=
  | a_PciDevice (dev : PciDevice)
  | another_object.

(** [obj.obj_fields]: the names of [fields], the inherited ones last. *)
Definition obj_fields : list string := fields.*1 ++ persistent_fields.

(** [obj.obj_attr_is_set(name)]: of the record's fields, [id] and
    [instance_uuid] are the ones that can be not set. *)
Definition obj_attr_is_set (f : field) (obj : PciDevice) : bool :=
  match f with
  | f_id => match id obj with Unset => false | Val _ => true end
  | f_instance_uuid =>
      match instance_uuid obj with Unset => false | Val _ => true end
  | _ => true
  end.

(** [getattr(obj_a, name) != getattr(obj_b, name)], for an attribute that is
    set on both ([owner] is what reading [instance_uuid] gives then, and
    two ids that are set differ when their values do). *)
Definition getattr_differs (f : field) (obj_a obj_b : PciDevice) : bool :=
  match f with
  | f_id => bool_decide (id obj_a ≠ id obj_b)
  | f_uuid => bool_decide (uuid obj_a ≠ uuid obj_b)
  | f_compute_node_id =>
      bool_decide (compute_node_id obj_a ≠ compute_node_id obj_b)
  | f_address => bool_decide (address obj_a ≠ address obj_b)
  | f_vendor_id => bool_decide (vendor_id obj_a ≠ vendor_id obj_b)
  | f_product_id => bool_decide (product_id obj_a ≠ product_id obj_b)
  | f_dev_type => bool_decide (dev_type obj_a ≠ dev_type obj_b)
  | f_status => bool_decide (status obj_a ≠ status obj_b)
  | f_dev_id => bool_decide (dev_id obj_a ≠ dev_id obj_b)
  | f_label => bool_decide (label obj_a ≠ label obj_b)
  | f_instance_uuid => bool_decide (owner obj_a ≠ owner obj_b)
  | f_request_id => bool_decide (request_id obj_a ≠ request_id obj_b)
  | f_extra_info => bool_decide (extra_info obj_a ≠ extra_info obj_b)
  | f_numa_node => bool_decide (numa_node obj_a ≠ numa_node obj_b)
  | f_parent_addr => bool_decide (parent_addr obj_a ≠ parent_addr obj_b)
  end.

Definition compare_pci_device_attributes (obj_a : PciDevice)
    (obj_b : object) : bool :=
  match obj_b with
  | another_object => false
  | a_PciDevice obj_b =>
      let pci_ignore_fields := persistent_fields in
      forallb
        (λ name,
           if bool_decide (name ∈ pci_ignore_fields) then true
           else
             match dict_get name fields with
             | Some f =>
                 let is_set_a := obj_attr_is_set f obj_a in
                 let is_set_b := obj_attr_is_set f obj_b in
                 if negb (Bool.eqb is_set_a is_set_b) then false
                 else if is_set_a && getattr_differs f obj_a obj_b then false
                 else true
             | None => true
             end)
        obj_fields
  end.

Definition __eq__ (self : PciDevice) (other : object) : bool :=
  compare_pci_device_attributes self other.

Definition __ne__ (self : PciDevice) (other : object) : bool :=
  negb (__eq__ self other).

(** [devs.remove(value)] on a list of devices: the first entry that compares
    equal to [value] is dropped, [ValueError] when there is none. *)
Fixpoint list_remove (value : PciDevice) (devs : list PciDevice)
  : result (list PciDevice) :=
  match devs with
  | [] => Raise ValueError
  | dev :: rest =>
      if __eq__ dev (a_PciDevice value) then Ok rest
      else rest' ← list_remove value rest; Ok (dev :: rest')
  end.

(** * Creation of a device *)

(** [PciDevice()]: the object [__init__] leaves, with no field set and no
    link into a device tree: [id] and [instance_uuid] are not set.  For the
    fields that have no "not set" state in the record the value below is a
    placeholder: nothing stated about a created device reads a field that
    the creation has not assigned. *)
Definition __init__ : PciDevice :=
  {| id := Unset; uuid := ""; compute_node_id := None; address := "";
     vendor_id := ""; product_id := ""; dev_type := STANDARD;
     status := AVAILABLE; dev_id := None; label := None;
     instance_uuid := Unset; request_id := None; extra_info := ∅;
     numa_node := None; parent_addr := None;
     parent_device := None; child_devices := [] |}.

Section create.
Context `{Oslo}.

(** [create(context, dev_dict)]; [generated_uuid] is what
    [uuidutils.generate_uuid()] returns.  The caller's dict is changed by
    [update_device] and is returned with the outcome. *)
Definition create (generated_uuid : string) (dev_dict : dict pyval)
  : dict pyval * result PciDevice :=
  let pci_device := __init__ in
  (* obj_set_defaults('extra_info') *)
  let pci_device := set_extra_info ∅ pci_device in
  match update_device pci_device dev_dict with
  | (_, dev_dict, Raise e) => (dev_dict, Raise e)
  | (pci_device, dev_dict, Ok _) =>
      let pci_device := set_status AVAILABLE pci_device in
      let pci_device := set_uuid generated_uuid pci_device in
      (dev_dict, Ok pci_device)
  end.
End create.

(** * Back-fill of the uuid column *)

(** Modelled from the spec: the devices table lives in the storage layer,
    which is not part of the excerpt.  Sections 4.3 and 6: a row is found by
    its id, and the back-fill is a compare-and-match update of its uuid with
    null as the expected previous value.  The table is kept as far as the
    back-fill reads and writes it: the uuid column, by primary key. *)
Abbreviation pci_devices_table := (gmap Z (option string)).

Inductive db_error : Type :=
  | NoRowsMatched
  | NoResultFound.

Inductive db_result (A : Type) : Type :=
  | Done (a : A)
  | Failed (e : db_error).
Arguments Done {A} a.
Arguments Failed {A} e.

(** Modelled from the spec: [query.update_on_match(compare, 'id', values)]
    for the rows with the given id, [compare] being a row of that id with a
    null uuid (section 4.3): the uuid is written when the row is there with
    a null uuid, and [NoRowsMatched] is raised otherwise. *)
Definition update_on_match (dev_id : Z) (uuid : string)
    (table : pci_devices_table) : pci_devices_table * db_result unit :=
  match table !! dev_id with
  | Some None => (<[dev_id := Some uuid]> table, Done tt)
  | _ => (table, Failed NoRowsMatched)
  end.

(** Modelled from the spec: [query.one()] for the rows with the given id,
    the re-read of section 4.3; a missing row is an error that propagates
    (section 7). *)
Definition query_one (dev_id : Z) (table : pci_devices_table)
  : db_result (option string) :=
  match table !! dev_id with
  | Some row_uuid => Done row_uuid
  | None => Failed NoResultFound
  end.

(** [_create_uuid(context, dev_id)]; [generated_uuid] is what
    [uuidutils.generate_uuid()] returns.  The retry decorator repeats the
    call on a deadlock, which a table with one writer does not have. *)
Definition _create_uuid (generated_uuid : string) (dev_id : Z)
    (table : pci_devices_table)
  : pci_devices_table * db_result (option string) :=
  let uuid := Some generated_uuid in
  match update_on_match dev_id generated_uuid table with
  | (table, Done _) => (table, Done uuid)
  | (table, Failed NoRowsMatched) =>
      match query_one dev_id table with
      | Done result_uuid => (table, Done result_uuid)
      | Failed e => (table, Failed e)
      end
  | (table, Failed e) => (table, Failed e)
  end.

(** [get_devs_no_uuid]: the ids of at most [max_count] rows whose uuid is
    null. *)
Definition get_devs_no_uuid (max_count : nat) (table : pci_devices_table)
  : list Z :=
  take max_count (map_to_list (filter (λ row, row.2 = None) table)).*1.

(** The loop of [populate_dev_uuids]; [generate_uuid n] is what the [n]-th
    call of [uuidutils.generate_uuid()] returns. *)
Fixpoint populate_loop (generate_uuid : nat → string) (db_devs : list Z)
    (done : nat) (table : pci_devices_table)
  : pci_devices_table * db_result nat :=
  match db_devs with
  | [] => (table, Done done)
  | db_dev :: rest =>
      match _create_uuid (generate_uuid done) db_dev table with
      | (table, Done _) => populate_loop generate_uuid rest (S done) table
      | (table, Failed e) => (table, Failed e)
      end
  end.

Definition populate_dev_uuids (generate_uuid : nat → string)
    (max_count : nat) (table : pci_devices_table)
  : pci_devices_table * db_result (nat * nat) :=
  let db_devs := get_devs_no_uuid max_count table in
  match populate_loop generate_uuid db_devs 0 table with
  | (table, Done done) => (table, Done (done, done))
  | (table, Failed e) => (table, Failed e)
  end.


(** * A reference runtime

    Executable stand-ins for the library functions of [Oslo], used to
    evaluate the module on concrete inputs.  The decoder reads JSON with
    integer numbers and the simple escapes; on anything else (fractions,
    exponents, [\u] escapes) it raises, so examples stay inside what it
    reads.  Nothing proved for every [Oslo] depends on it. *)

Definition quote_char : ascii := "034"%char.
Definition backslash_char : ascii := "092"%char.

Definition is_space (c : ascii) : bool :=
  bool_decide (c ∈ [" "; "009"; "010"; "013"]%char).

Fixpoint skip_spaces (s : list ascii) : list ascii :=
  match s with
  | c :: rest => if is_space c then skip_spaces rest else s
  | [] => []
  end.

Definition digit_of (c : ascii) : option Z :=
  let n := Z.of_nat (nat_of_ascii c) in
  if bool_decide (48 ≤ n ≤ 57)%Z then Some (n - 48)%Z else None.

Fixpoint read_digits (s : list ascii) (acc : Z) : Z * list ascii :=
  match s with
  | c :: rest =>
      match digit_of c with
      | Some d => read_digits rest (10 * acc + d)%Z
      | None => (acc, s)
      end
  | [] => (acc, [])
  end.

(** One or more digits, no leading zero before another digit. *)
Definition read_natural (s : list ascii) : option (Z * list ascii) :=
  match s with
  | c :: rest =>
      match digit_of c with
      | Some d =>
          match rest with
          | c' :: _ =>
              if bool_decide (d = 0%Z) && bool_decide (is_Some (digit_of c'))
              then None
              else Some (read_digits s 0)
          | [] => Some (d, [])
          end
      | None => None
      end
  | [] => None
  end.

Definition read_integer (s : list ascii) : option (Z * list ascii) :=
  match s with
  | "-"%char :: rest =>
      '(z, rest') ← read_natural rest; Some ((- z)%Z, rest')
  | _ => read_natural s
  end.

(** [prefix] stripped from the front of [s]. *)
Fixpoint strip_prefix (prefix s : list ascii) : option (list ascii) :=
  match prefix, s with
  | [], _ => Some s
  | p :: prefix', c :: rest =>
      if Ascii.eqb p c then strip_prefix prefix' rest else None
  | _ :: _, [] => None
  end.

Definition unescape (c : ascii) : option ascii :=
  if Ascii.eqb c quote_char then Some quote_char
  else if Ascii.eqb c backslash_char then Some backslash_char
  else if Ascii.eqb c "/" then Some "/"%char
  else if Ascii.eqb c "n" then Some "010"%char
  else if Ascii.eqb c "r" then Some "013"%char
  else if Ascii.eqb c "t" then Some "009"%char
  else if Ascii.eqb c "b" then Some "008"%char
  else if Ascii.eqb c "f" then Some "012"%char
  else None.

(** The text after an opening quote, up to the closing one. *)
Fixpoint read_string (s : list ascii) (acc : list ascii)
  : option (string * list ascii) :=
  match s with
  | [] => None
  | c :: rest =>
      if Ascii.eqb c quote_char
      then Some (String.string_of_list_ascii (rev acc), rest)
      else if Ascii.eqb c backslash_char then
        match rest with
        | e :: rest' =>
            match unescape e with
            | Some c' => read_string rest' (c' :: acc)
            | None => None
            end
        | [] => None
        end
      else if bool_decide (nat_of_ascii c < 32) then None
      else read_string rest (c :: acc)
  end.

Fixpoint read_value (fuel : nat) (s : list ascii)
  : option (pyval * list ascii) :=
  match fuel with
  | 0 => None
  | S fuel =>
      match skip_spaces s with
      | [] => None
      | c :: rest =>
          if Ascii.eqb c quote_char then
            '(str, rest') ← read_string rest []; Some (PyStr str, rest')
          else if Ascii.eqb c "[" then
            match skip_spaces rest with
            | "]"%char :: rest' => Some (PyList [], rest')
            | _ => read_elements fuel rest []
            end
          else if Ascii.eqb c "{" then
            match skip_spaces rest with
            | "}"%char :: rest' => Some (PyDict [], rest')
            | _ => read_members fuel rest []
            end
          else if Ascii.eqb c "n" then
            rest' ← strip_prefix (String.list_ascii_of_string "ull") rest;
            Some (PyNone, rest')
          else if Ascii.eqb c "t" then
            rest' ← strip_prefix (String.list_ascii_of_string "rue") rest;
            Some (PyBool true, rest')
          else if Ascii.eqb c "f" then
            rest' ← strip_prefix (String.list_ascii_of_string "alse") rest;
            Some (PyBool false, rest')
          else
            '(z, rest') ← read_integer (c :: rest);
            match rest' with
            | c' :: _ =>
                if bool_decide (c' ∈ ["."; "e"; "E"]%char) then None
                else Some (PyInt z, rest')
            | [] => Some (PyInt z, rest')
            end
      end
  end
with read_elements (fuel : nat) (s : list ascii) (acc : list pyval)
  : option (pyval * list ascii) :=
  match fuel with
  | 0 => None
  | S fuel =>
      '(v, rest) ← read_value fuel s;
      match skip_spaces rest with
      | c :: rest' =>
          if Ascii.eqb c "," then read_elements fuel rest' (acc ++ [v])
          else if Ascii.eqb c "]" then Some (PyList (acc ++ [v]), rest')
          else None
      | [] => None
      end
  end
with read_members (fuel : nat) (s : list ascii) (acc : dict pyval)
  : option (pyval * list ascii) :=
  match fuel with
  | 0 => None
  | S fuel =>
      match skip_spaces s with
      | c :: rest =>
          if Ascii.eqb c quote_char then
            '(key, rest) ← read_string rest [];
            match skip_spaces rest with
            | ":"%char :: rest =>
                '(v, rest) ← read_value fuel rest;
                match skip_spaces rest with
                | c :: rest' =>
                    if Ascii.eqb c ","
                    then read_members fuel rest' (dict_set key v acc)
                    else if Ascii.eqb c "}"
                    then Some (PyDict (dict_set key v acc), rest')
                    else None
                | [] => None
                end
            | _ => None
            end
          else None
      | [] => None
      end
  end.

Definition reference_loads (s : string) : result pyval :=
  let text := String.list_ascii_of_string s in
  match read_value (2 * length text + 2) text with
  | Some (v, rest) =>
      match skip_spaces rest with
      | [] => Ok v
      | _ :: _ => Raise ValueError
      end
  | None => Raise ValueError
  end.

Definition escape (c : ascii) : string :=
  if Ascii.eqb c quote_char then String backslash_char (String quote_char "")
  else if Ascii.eqb c backslash_char
  then String backslash_char (String backslash_char "")
  else if Ascii.eqb c "010" then "\n"
  else if Ascii.eqb c "013" then "\r"
  else if Ascii.eqb c "009" then "\t"
  else String c "".

Definition quoted (s : string) : string :=
  String quote_char
    (String.concat "" (escape <$> String.list_ascii_of_string s)
       +:+ String quote_char "").

Fixpoint reference_dumps (v : pyval) : string :=
  match v with
  | PyNone => "null"
  | PyBool b => if b then "true" else "false"
  | PyInt z => pretty z
  | PyStr s => quoted s
  | PyList l =>
      "[" +:+ String.concat ", " (List.map reference_dumps l) +:+ "]"
  | PyDict d =>
      "{"
      +:+ String.concat ", "
            (List.map (λ kv, quoted kv.1 +:+ ": " +:+ reference_dumps kv.2) d)
      +:+ "}"
  end.

Definition trim (s : list ascii) : list ascii :=
  rev (skip_spaces (rev (skip_spaces s))).

(** [int(s)] on an optional sign and decimal digits, spaces around. *)
Definition reference_int (s : string) : result Z :=
  let text := trim (String.list_ascii_of_string s) in
  let '(sign, digits) :=
    match text with
    | "-"%char :: rest => ((-1)%Z, rest)
    | "+"%char :: rest => (1%Z, rest)
    | _ => (1%Z, text)
    end in
  match digits with
  | [] => Raise ValueError
  | _ :: _ =>
      match read_digits digits 0 with
      | (z, []) => Ok (sign * z)%Z
      | (_, _ :: _) => Raise ValueError
      end
  end.

Fixpoint split_dots (s : list ascii) (part : list ascii)
  : list (list ascii) :=
  match s with
  | [] => [part]
  | c :: rest =>
      if Ascii.eqb c "." then part :: split_dots rest []
      else split_dots rest (part ++ [c])
  end.

Definition reference_version (s : string) : result (list nat) :=
  foldr
    (λ part acc,
       acc ← acc;
       match part with
       | [] => Raise ValueError
       | _ :: _ =>
           match read_digits part 0 with
           | (z, []) => Ok (Z.to_nat z :: acc)
           | (_, _ :: _) => Raise ValueError
           end
       end)
    (Ok []) (split_dots (String.list_ascii_of_string s) []).

(** The time stamps take [None] or a string, [deleted] takes anything. *)
Definition reference_coerce_persistent (k : string) (v : pyval)
  : result unit :=
  if String.eqb k "deleted" then Ok tt
  else match v with
       | PyNone | PyStr _ => Ok tt
       | _ => Raise ValueError
       end.

Definition reference_oslo : Oslo :=
  {| loads := reference_loads;
     dumps := reference_dumps;
     int_of_str := reference_int;
     convert_version_to_tuple := reference_version;
     coerce_persistent := reference_coerce_persistent;
     loads_empty_object := eq_refl |}.

(** * Functional reading of the engine

    For each method: which exception it raises before touching the store (if
    any), and the store it leaves otherwise, as plain functions of the store
    at entry.  The [_run] lemmas below prove that the methods compute exactly
    these. *)

(** The statuses a PF's claim accepts on its children: available, or one of
    the two tolerated inconsistent ones. *)
Definition claim_tolerates (h : store) (vfs_list : list ref) : bool :=
  forallb
    (λ vf, bool_decide (status (h vf) ∈ [AVAILABLE; UNCLAIMABLE; UNAVAILABLE]))
    vfs_list.

Definition claim_error (h : store) (self : ref) : option exn :=
  if bool_decide (status (h self) ≠ AVAILABLE) then Some PciDeviceInvalidStatus
  else
    match dev_type (h self) with
    | SRIOV_PF =>
        if claim_tolerates h (child_devices (h self)) then None
        else Some PciDeviceVFInvalidStatus
    | SRIOV_VF | VDPA =>
        match parent_device (h self) with
        | Some parent =>
            if bool_decide
                 (status (h parent) ∈ [AVAILABLE; UNCLAIMABLE; UNAVAILABLE])
            then None
            else Some PciDevicePFInvalidStatus
        | None => None
        end
    | STANDARD => None
    end.

Definition claim_post (h : store) (self : ref) (u : string) : store := λ r,
  if decide (r = self)
  then set_instance_uuid (Val (Some u)) (set_status CLAIMED (h self))
  else
    match dev_type (h self) with
    | SRIOV_PF =>
        if bool_decide (r ∈ child_devices (h self))
        then set_status UNCLAIMABLE (h r)
        else h r
    | SRIOV_VF | VDPA =>
        if bool_decide
             (parent_device (h self) = Some r ∧ status (h r) = AVAILABLE)
        then set_status UNCLAIMABLE (h r)
        else h r
    | STANDARD => h r
    end.

Definition allocate_error (h : store) (self : ref) (instance : Instance)
  : option exn :=
  let dev := h self in
  if bool_decide (status dev ∉ [AVAILABLE; CLAIMED])
  then Some PciDeviceInvalidStatus
  else if bool_decide (status dev = CLAIMED ∧ instance_uuid dev = Unset)
  then Some NotImplementedError
  else if bool_decide
            (status dev = CLAIMED ∧ owner dev ≠ Some (inst_uuid instance))
  then Some PciDeviceInvalidOwner
  else
    match dev_type dev with
    | SRIOV_PF =>
        if forallb
             (λ vf, bool_decide (status (h vf) ∈ [AVAILABLE; UNCLAIMABLE]))
             (child_devices dev)
        then None
        else Some PciDeviceVFInvalidStatus
    | SRIOV_VF | VDPA =>
        match parent_device dev with
        | Some parent =>
            if bool_decide
                 (status (h parent) ∈ [AVAILABLE; UNCLAIMABLE; UNAVAILABLE])
            then None
            else Some PciDevicePFInvalidStatus
        | None => None
        end
    | STANDARD => None
    end.

Definition allocate_post (h : store) (self : ref) (instance : Instance)
  : store := λ r,
  if decide (r = self)
  then set_instance_uuid (Val (Some (inst_uuid instance)))
         (set_status ALLOCATED (h self))
  else
    match dev_type (h self) with
    | SRIOV_PF =>
        if bool_decide (r ∈ child_devices (h self))
        then set_status UNAVAILABLE (h r)
        else h r
    | SRIOV_VF | VDPA =>
        if bool_decide (parent_device (h self) = Some r)
        then set_status UNAVAILABLE (h r)
        else h r
    | STANDARD => h r
    end.

Definition remove_error (h : store) (self : ref) : option exn :=
  if bool_decide (status (h self) ∉ [AVAILABLE; UNAVAILABLE; UNCLAIMABLE])
  then Some PciDeviceInvalidStatus
  else if bool_decide (owner (h self) ≠ None)
  then Some PciDeviceInvalidOwner
  else None.

Definition remove_post (h : store) (self : ref) : store := λ r,
  if decide (r = self)
  then set_request_id None
         (set_instance_uuid (Val None) (set_status REMOVED (h self)))
  else h r.

(** The exception of the two guards of [free]. *)
Definition free_guard_error (h : store) (self : ref)
    (instance : option Instance) : option exn :=
  let dev := h self in
  if bool_decide (status dev ∉ [ALLOCATED; CLAIMED])
  then Some PciDeviceInvalidStatus
  else
    match instance with
    | Some inst =>
        if bool_decide (instance_uuid dev = Unset)
        then Some NotImplementedError
        else if bool_decide (owner dev ≠ Some (inst_uuid inst))
        then Some PciDeviceInvalidOwner
        else None
    | None => None
    end.

Definition attr_is_set {A : Type} (a : attr A) : bool :=
  match a with Unset => false | Val _ => true end.

(** Whether every id that [free] reads while it goes through the children
    of the parent is set: for each entry of the list, the entry's id and the
    device's. *)
Definition ids_readable (h : store) (self parent : ref) : bool :=
  match child_devices (h parent) with
  | [] => true
  | vfs_list =>
      attr_is_set (id (h self))
      && forallb (λ vf, attr_is_set (id (h vf))) vfs_list
  end.

(** The exception [free] raises before it writes: that of a guard, or the
    one of reading an id that is not set on the way through the children of
    the parent. *)
Definition free_error (h : store) (self : ref) (instance : option Instance)
  : option exn :=
  match free_guard_error h self instance with
  | Some e => Some e
  | None =>
      match dev_type (h self) with
      | SRIOV_VF | VDPA =>
          match parent_device (h self) with
          | Some parent =>
              if ids_readable h self parent then None
              else Some NotImplementedError
          | None => None
          end
      | SRIOV_PF | STANDARD => None
      end
  end.

(** The test [free] makes on the children of the parent: every entry whose
    id differs from the freed device's id is available. *)
Definition siblings_available (h : store) (self parent : ref) : bool :=
  forallb (λ vf, is_available (h vf))
    (List.filter (λ vf, bool_decide (id (h vf) ≠ id (h self)))
       (child_devices (h parent))).

(** The store after the cascade of [free], before the device itself is
    reset. *)
Definition free_cascade (h : store) (self : ref) : store := λ r,
  match dev_type (h self) with
  | SRIOV_PF =>
      if bool_decide (r ∈ child_devices (h self))
      then set_status AVAILABLE (h r)
      else h r
  | SRIOV_VF | VDPA =>
      if bool_decide
           (parent_device (h self) = Some r ∧ siblings_available h self r)
      then set_status AVAILABLE (h r)
      else h r
  | STANDARD => h r
  end.

Definition free_post (h : store) (self : ref) : store := λ r,
  if decide (r = self)
  then set_request_id None
         (set_instance_uuid (Val None) (set_status AVAILABLE (h self)))
  else free_cascade h self r.

Definition free_devs_of (h : store) (self : ref) : list ref :=
  match dev_type (h self) with
  | SRIOV_PF => child_devices (h self) ++ [self]
  | SRIOV_VF | VDPA =>
      match parent_device (h self) with
      | Some parent =>
          if siblings_available h self parent then [parent; self] else [self]
      | None => [self]
      end
  | STANDARD => [self]
  end.

(** The search of [free] in the instance's collection, for a device whose
    [id] attribute is [self_id]. *)
Fixpoint first_with_id (self_id : attr Z) (devs : list PciDevice)
  : result PciDevice :=
  match devs with
  | [] => Raise StopIteration
  | dev :: rest =>
      match id dev, self_id with
      | Val dev_id, Val self_id' =>
          if bool_decide (dev_id = self_id') then Ok dev
          else first_with_id self_id rest
      | _, _ => Raise NotImplementedError
      end
  end.

Definition free_result (h : store) (self : ref) (instance : option Instance)
  : result (list ref * option Instance) :=
  match instance with
  | Some inst =>
      if bool_decide (status (free_cascade h self self) = ALLOCATED) then
        match inst_pci_devices inst with
        | None => Raise KeyError
        | Some devs =>
            existed ← first_with_id (id (h self)) devs;
            Ok (free_devs_of h self,
                Some {| inst_uuid := inst_uuid inst;
                        inst_pci_devices :=
                          Some (remove_existed existed devs) |})
        end
      else Ok (free_devs_of h self, instance)
  | None => Ok (free_devs_of h self, None)
  end.

(** * More readings and predicates used in the statements *)

(** [b] is [a] with, at most, another status. *)
Definition differ_in_status_only (a b : PciDevice) : Prop :=
  b = set_status (status b) a.

(** [b] is [a] with, at most, another allocation state: status, owner and
    request. *)
Definition differ_in_allocation_only (a b : PciDevice) : Prop :=
  b = set_request_id (request_id b)
        (set_instance_uuid (instance_uuid b) (set_status (status b) a)).

(** The 15 attributes that are object fields agree. *)
Definition same_fields (a b : PciDevice) : Prop :=
  id a = id b ∧ uuid a = uuid b ∧ compute_node_id a = compute_node_id b
  ∧ address a = address b ∧ vendor_id a = vendor_id b
  ∧ product_id a = product_id b ∧ dev_type a = dev_type b
  ∧ status a = status b ∧ dev_id a = dev_id b ∧ label a = label b
  ∧ instance_uuid a = instance_uuid b ∧ request_id a = request_id b
  ∧ extra_info a = extra_info b ∧ numa_node a = numa_node b
  ∧ parent_addr a = parent_addr b.

(** Two devices hold the same value (or both none) under one field. *)
Definition field_agrees (f : field) (a b : PciDevice) : Prop :=
  match f with
  | f_id => id a = id b
  | f_uuid => uuid a = uuid b
  | f_compute_node_id => compute_node_id a = compute_node_id b
  | f_address => address a = address b
  | f_vendor_id => vendor_id a = vendor_id b
  | f_product_id => product_id a = product_id b
  | f_dev_type => dev_type a = dev_type b
  | f_status => status a = status b
  | f_dev_id => dev_id a = dev_id b
  | f_label => label a = label b
  | f_instance_uuid => instance_uuid a = instance_uuid b
  | f_request_id => request_id a = request_id b
  | f_extra_info => extra_info a = extra_info b
  | f_numa_node => numa_node a = numa_node b
  | f_parent_addr => parent_addr a = parent_addr b
  end.

(** What [update_device] stores under a key that is no field: a string as
    it is, anything else as JSON text. *)
Definition extra_info_data `{Oslo} (v : pyval) : string :=
  match v with PyStr s => s | _ => dumps v end.

(** Functional reading of [obj_make_compatible]: the primitive it returns
    with when it does not raise, for a target version [v]. *)
Definition backlevel (v : list nat) (primitive : dict pyval) : dict pyval :=
  let primitive :=
    if version_lt v [1; 2] then dict_del "request_id" primitive
    else primitive in
  let primitive :=
    if version_lt v [1; 4] then
      dict_del "parent_addr"
        match dict_get "parent_addr" primitive,
              dict_get "extra_info" primitive with
        | Some PyNone, _ | None, _ => primitive
        | Some parent_addr, Some (PyDict extra_info) =>
            dict_set "extra_info"
              (PyDict (dict_set "phys_function" parent_addr extra_info))
              primitive
        | Some _, _ => primitive
        end
    else primitive in
  if version_lt v [1; 6] then dict_del "uuid" primitive else primitive.

(** The rows that still wait for a uuid. *)
Definition rows_without_uuid (table : pci_devices_table) : nat :=
  size (filter (λ row : Z * option string, row.2 = None) table).

(** * Predicates used in the statements *)

(** The conditions under which [free] gets past its two guards: the status
    is ALLOCATED or CLAIMED, and a supplied instance is the owner. *)
Definition free_precondition (h : store) (self : ref)
    (instance : option Instance) : Prop :=
  status (h self) ∈ [ALLOCATED; CLAIMED]
  ∧ ∀ inst, instance = Some inst →
            instance_uuid (h self) = Val (Some (inst_uuid inst)).

(** The supplied instance holds the device in its collection whenever [free]
    will look for it there (the device is ALLOCATED): the device has an id,
    an entry of the collection carries it, and every entry before that one
    has an id (the search reads it). *)
Definition instance_holds (h : store) (self : ref)
    (instance : option Instance) : Prop :=
  ∀ inst, instance = Some inst → status (h self) = ALLOCATED →
    ∃ devs pre dev post n,
      inst_pci_devices inst = Some devs ∧ devs = pre ++ dev :: post
      ∧ id (h self) = Val n ∧ id dev = Val n
      ∧ ∀ e, e ∈ pre → id e ≠ Unset.

(** Every sibling of the freed device, that is every entry of the parent's
    child list whose id differs from the device's, is AVAILABLE. *)
Definition other_vfs_available (h : store) (self parent : ref) : Prop :=
  ∀ c, c ∈ child_devices (h parent) → id (h c) ≠ id (h self) →
       status (h c) = AVAILABLE.

(** The device and the children of the parent have their ids (they were
    read from storage or saved; an object made by [create] has none). *)
Definition ids_set (h : store) (self parent : ref) : Prop :=
  id (h self) ≠ Unset
  ∧ ∀ c, c ∈ child_devices (h parent) → id (h c) ≠ Unset.

(** * Sequences of calls on a device tree *)

Inductive call : Type :=
  | call_claim (self : ref) (instance_uuid : string)
  | call_allocate (self : ref) (instance : Instance)
  | call_free (self : ref) (instance : option Instance)
  | call_remove (self : ref)
  | call_update_device (self : ref) (dev_dict : dict pyval).

Section calls.
Context `{Oslo}.

(** One call on the store; the values a call returns are dropped. *)
Definition run_call (c : call) (h : store) : store * result unit :=
  match c with
  | call_claim self u => claim self u h
  | call_allocate self instance =>
      let '(h', r) := allocate self instance h in (h', _ ← r; Ok tt)
  | call_free self instance =>
      let '(h', r) := free self instance h in (h', _ ← r; Ok tt)
  | call_remove self => remove self h
  | call_update_device self dev_dict =>
      let '(dev, _, r) := update_device (h self) dev_dict in
      (upd self dev h, r)
  end.

(** The store after a sequence of calls, when each of them completes
    without raising. *)
Fixpoint run_calls (cs : list call) (h : store) : option store :=
  match cs with
  | [] => Some h
  | c :: rest =>
      match run_call c h with
      | (h', Ok _) => run_calls rest h'
      | (_, Raise _) => None
      end
  end.

(** No [update_device] call of the sequence changes the [dev_type] of its
    device. *)
Fixpoint keeps_dev_type (cs : list call) (h : store) : Prop :=
  match cs with
  | [] => True
  | c :: rest =>
      match c with
      | call_update_device self dev_dict =>
          dev_type (update_device (h self) dev_dict).1.1
          = dev_type (h self)
      | _ => True
      end
      ∧ keeps_dev_type rest (run_call c h).1
  end.
End calls.

(** A device holds an allocation state: it is CLAIMED or ALLOCATED. *)
Definition owned (d : PciDevice) : Prop :=
  status d = CLAIMED ∨ status d = ALLOCATED.

(** Every device is as the discovery scan creates it: AVAILABLE, no owner. *)
Definition fresh (h : store) : Prop :=
  ∀ r, status (h r) = AVAILABLE ∧ owner (h r) = None.

(** The tree links are those of section 3: the children of a PF are VF or
    vDPA records that point back to it, and the parent of a VF or vDPA
    record is a PF that lists it. *)
Definition tree_linked (h : store) : Prop :=
  (∀ p c, dev_type (h p) = SRIOV_PF → c ∈ child_devices (h p) →
          dev_type (h c) ∈ [SRIOV_VF; VDPA] ∧ parent_device (h c) = Some p)
  ∧ (∀ c p, dev_type (h c) ∈ [SRIOV_VF; VDPA] →
            parent_device (h c) = Some p →
            dev_type (h p) = SRIOV_PF ∧ c ∈ child_devices (h p)).

(** The invariant of the engine on a linked tree: an owner is recorded
    exactly on the owned devices, and a VF and its PF are never owned
    together. *)
Record consistent (h : store) : Prop := {
  cons_owner : ∀ r, owner (h r) ≠ None ↔ owned (h r);
  cons_exclusive :
    ∀ c p, dev_type (h c) ∈ [SRIOV_VF; VDPA] →
           parent_device (h c) = Some p →
           ¬ (owned (h c) ∧ owned (h p));
  cons_tree : tree_linked h
}.

(** [r] is tied to [self] by the tree: a child of the PF [self], or the
    parent of the VF or vDPA device [self]. *)
Definition linked (h : store) (self r : ref) : Prop :=
  (dev_type (h self) = SRIOV_PF ∧ r ∈ child_devices (h self))
  ∨ (dev_type (h self) ∈ [SRIOV_VF; VDPA] ∧ parent_device (h self) = Some r).

(** Two stores with the same tree: types and links agree everywhere. *)
Definition same_tree (h h' : store) : Prop :=
  ∀ r, dev_type (h' r) = dev_type (h r)
       ∧ parent_device (h' r) = parent_device (h r)
       ∧ child_devices (h' r) = child_devices (h r).

(** * Concrete device trees used by the examples below *)

Definition example_device (pk : Z) (addr : string) (ty : PciDeviceType)
    (st : PciDeviceStatus) (o : attr (option string))
    (parent : option ref) (children : list ref) : PciDevice :=
  {| id := Val pk; uuid := ""; compute_node_id := Some 1%Z; address := addr;
     vendor_id := "8086"; product_id := "1515"; dev_type := ty; status := st;
     dev_id := None; label := None; instance_uuid := o; request_id := None;
     extra_info := ∅; numa_node := None;
     parent_addr := None; parent_device := parent; child_devices := children |}.

(** The scenario of the specification: PF [0000:01:00.0] (reference 0) with
    the VFs [0000:01:00.1] and [0000:01:00.2] (references 1 and 2), all
    freshly discovered; every other reference is an unrelated standard
    device. *)
Definition pf_two_vfs : store := λ r,
  match r with
  | 0 => example_device 10 "0000:01:00.0" SRIOV_PF AVAILABLE Unset None [1; 2]
  | 1 => example_device 11 "0000:01:00.1" SRIOV_VF AVAILABLE Unset (Some 0) []
  | 2 => example_device 12 "0000:01:00.2" SRIOV_VF AVAILABLE Unset (Some 0) []
  | _ => example_device 99 "0000:02:00.0" STANDARD AVAILABLE Unset None []
  end.

(** The same tree with the second VF found UNAVAILABLE while the PF is
    AVAILABLE: the inconsistency [claim] tolerates with a warning. *)
Definition pf_inconsistent_vf : store := λ r,
  match r with
  | 0 => example_device 10 "0000:01:00.0" SRIOV_PF AVAILABLE Unset None [1; 2]
  | 1 => example_device 11 "0000:01:00.1" SRIOV_VF AVAILABLE Unset (Some 0) []
  | 2 => example_device 12 "0000:01:00.2" SRIOV_VF UNAVAILABLE Unset (Some 0) []
  | _ => example_device 99 "0000:02:00.0" STANDARD AVAILABLE Unset None []
  end.

(** A device whose status says it is unused while an owner is still
    recorded: the case the owner check of [remove] is there for. *)
Definition stale_owner : store := λ r,
  example_device 20 "0000:03:00.0" STANDARD AVAILABLE (Val (Some "inst-a"))
    None [].

Definition instance_a : Instance :=
  {| inst_uuid := "inst-a"; inst_pci_devices := None |}.

(** An instance record that names the owner but whose device collection is
    empty, as a caller holds after re-reading the instance. *)
Definition instance_a_reloaded : Instance :=
  {| inst_uuid := "inst-a"; inst_pci_devices := Some [] |}.

(** The PF of [pf_two_vfs] allocated to [instance_a] (both VFs UNAVAILABLE),
    and its first VF allocated to [instance_a] (the PF UNAVAILABLE). *)
Definition pf_allocated : store := (allocate 0 instance_a pf_two_vfs).1.

Definition vf_allocated : store := (allocate 1 instance_a pf_two_vfs).1.

(** The first VF of [pf_two_vfs] claimed for "inst-a" (the PF UNCLAIMABLE). *)
Definition vf_claimed : store := (claim 1 "inst-a" pf_two_vfs).1.

(** The scenario of the specification as a sequence of calls: claim the first
    VF, then allocate it to the same instance. *)
Definition scenario_calls : list call :=
  [call_claim 1 "inst-a"; call_allocate 1 instance_a].

(** A sequence in which discovery reports the PF and its first VF as plain
    PCI devices while they get claimed, and the PF as a PF again before it
    is freed. *)
Definition retyping_calls : list call :=
  [call_update_device 0 [("dev_type", PyStr "type-PCI")];
   call_claim 0 "inst-a";
   call_update_device 1 [("dev_type", PyStr "type-PCI")];
   call_claim 1 "inst-b";
   call_update_device 0 [("dev_type", PyStr "type-PF")];
   call_free 0 None].

(** The primitive of a VF whose PF is claimed: status [unclaimable], with
    and without the [parent_addr] key. *)
Definition unclaimable_primitive : dict pyval :=
  [("address", PyStr "0000:01:00.1"); ("dev_type", PyStr "type-VF");
   ("status", PyStr "unclaimable"); ("request_id", PyNone);
   ("extra_info", PyDict []); ("parent_addr", PyStr "0000:01:00.0");
   ("uuid", PyStr "6f1b8f5e-0c5b-4d8e-9a53-2d3c8a1f0b11")].

Definition unclaimable_primitive_no_parent : dict pyval :=
  [("address", PyStr "0000:01:00.1"); ("dev_type", PyStr "type-VF");
   ("status", PyStr "unclaimable"); ("extra_info", PyDict [])].

(** Devices whose [capabilities] entry is missing, is not JSON, is JSON but
    not an object, and is a JSON object. *)
Definition with_extra_info (extra : gmap string string) : PciDevice :=
  set_extra_info extra
    (example_device 30 "0000:04:00.0" SRIOV_PF AVAILABLE Unset None []).

Definition caps_missing : PciDevice := with_extra_info ∅.

Definition caps_not_json : PciDevice :=
  with_extra_info {[ "capabilities" := "not json" ]}.

Definition caps_json_list : PciDevice :=
  with_extra_info {[ "capabilities" := "[]" ]}.

Definition caps_network_text : string :=
  "{" +:+ quoted "network" +:+ ": [" +:+ quoted "rx" +:+ ", "
  +:+ quoted "tx" +:+ "]}".

Definition caps_network : PciDevice :=
  with_extra_info {[ "capabilities" := caps_network_text ]}.

(** Devices whose [capabilities] entry is a JSON object with a [vpd] key:
    holding an object with the serial number, and holding [null]. *)
Definition caps_vpd_text : string :=
  "{" +:+ quoted "vpd" +:+ ": {" +:+ quoted "card_serial_number" +:+ ": "
  +:+ quoted "MT2113X00000" +:+ "}}".

Definition caps_vpd : PciDevice :=
  with_extra_info {[ "capabilities" := caps_vpd_text ]}.

Definition caps_vpd_null_text : string :=
  "{" +:+ quoted "vpd" +:+ ": null}".

Definition caps_vpd_null : PciDevice :=
  with_extra_info {[ "capabilities" := caps_vpd_null_text ]}.

(** A discovered-device dict as the hypervisor reports it, with the keys
    [update_device] must not apply. *)
Definition discovered : dict pyval :=
  [("address", PyStr "0000:01:00.1"); ("status", PyStr "claimed");
   ("instance_uuid", PyStr "inst-z"); ("id", PyInt 7);
   ("dev_type", PyStr "type-VF"); ("numa_node", PyInt 1);
   ("capabilities", PyDict [("network", PyList [PyStr "rx"])]);
   ("managed", PyStr "true")].

(** The primitive of a vDPA device, as the current version writes it. *)
Definition vdpa_primitive : dict pyval :=
  [("address", PyStr "0000:01:00.1"); ("dev_type", PyStr "vdpa");
   ("status", PyStr "available"); ("request_id", PyNone);
   ("extra_info", PyDict []); ("parent_addr", PyStr "0000:01:00.0");
   ("uuid", PyStr "6f1b8f5e-0c5b-4d8e-9a53-2d3c8a1f0b11")].

(** The device [create] makes of the dict [discovered]. *)
Definition created_device : PciDevice :=
  match (create (H := reference_oslo)
           "6f1b8f5e-0c5b-4d8e-9a53-2d3c8a1f0b11" discovered).2 with
  | Ok pci_device => pci_device
  | Raise _ => __init__
  end.

(** A table with two legacy rows that wait for a uuid and one row that has
    one, and a generator of uuids. *)
Definition legacy_table : pci_devices_table :=
  {[ 1%Z := None; 2%Z := Some "0b6d4ab0-5a1c-4c3e-8a55-1c6a3f2f9d10";
     3%Z := None ]}.

Definition example_uuids (n : nat) : string := "uuid-" +:+ pretty n.

(** The tree of [pf_two_vfs] before its devices are saved: as on the
    objects [create] returns, no [id] is set. *)
Definition unsaved_tree : store := λ r, set_id Unset (pf_two_vfs r).
(** * Properties *)

(* stdpp's solvers clear hypotheses that are already gone. *)
#[local] Set Warnings "-clear-no-such-hyp".

(** ** The store *)

Lemma upd_eq (r : ref) (d : PciDevice) (h : store) : upd r d h r = d.
Proof. unfold upd. by rewrite decide_True. Qed.

Lemma upd_ne (r r' : ref) (d : PciDevice) (h : store) :
  r' ≠ r → upd r d h r' = h r'.
Proof. intros Hne. unfold upd. by rewrite decide_False. Qed.

(** Unfolding of the monad's plumbing; method bodies stay folded. *)
Ltac mstep :=
  unfold getattr_instance_uuid, getattr_id, mbind, mret, M_bind, M_ret, load,
    snapshot, modify, raise in *;
  cbn beta iota in *.

(** [_bulk_update_status] never raises, gives every listed device the new
    status and leaves every other field and every other device alone. *)
Lemma bulk_update_status_spec (l : list ref) (st : PciDeviceStatus)
    (h : store) :
  ∃ h', _bulk_update_status l st h = (h', Ok tt) ∧
        ∀ r, h' r = if bool_decide (r ∈ l) then set_status st (h r) else h r.
Proof.
  revert h. induction l as [|dev rest IH]; intros h.
  - exists h. split; [done|]. intros r. by rewrite bool_decide_false by set_solver.
  - destruct (IH (upd dev (set_status st (h dev)) h)) as (h' & Hrun & Hh').
    exists h'. split.
    + cbn [_bulk_update_status]. mstep. exact Hrun.
    + intros r. rewrite Hh'.
      destruct (decide (r = dev)) as [->|Hne].
      * rewrite upd_eq. rewrite (bool_decide_true (dev ∈ dev :: rest)) by set_solver.
        by case_bool_decide.
      * rewrite upd_ne by done.
        destruct (decide (r ∈ rest)) as [Hin|Hnin].
        -- rewrite !bool_decide_true; [done| set_solver | done].
        -- rewrite !bool_decide_false; [done| set_solver | done].
Qed.

(** ** The methods compute their functional reading *)

Ltac eval_closed :=
  repeat match goal with
  | |- context [bool_decide ?P] =>
      let b := eval vm_compute in (bool_decide P) in
      match b with
      | true => change (bool_decide P) with true
      | false => change (bool_decide P) with false
      end
  end.

Ltac bd_solve := solve [done | naive_solver | set_solver].

Ltac simpl_bd :=
  repeat match goal with
  | |- context [bool_decide ?P] =>
      first [ rewrite (bool_decide_true P) by bd_solve
            | rewrite (bool_decide_false P) by bd_solve ]
  end.

Ltac at_ref r self :=
  destruct (decide (r = self)) as [->|?];
  rewrite ?upd_eq, ?upd_ne by done.

Lemma list_difference_nil_forallb {A B : Type} `{EqDecision B}
    (f : A → B) (l : list A) (k : list B) :
  match list_difference (f <$> l) k with [] => true | _ :: _ => false end
  = forallb (λ x, bool_decide (f x ∈ k)) l.
Proof.
  induction l as [|x l IH]; [done|].
  cbn [fmap list_fmap list_difference forallb].
  destruct (decide_rel elem_of (f x) k) as [Hx|Hx].
  - rewrite bool_decide_true by done. exact IH.
  - by rewrite bool_decide_false by done.
Qed.

Lemma claim_children_check (h : store) (vfs_list : list ref) :
  match List.filter (λ vf, negb (is_available (h vf))) vfs_list with
  | [] => true
  | _ :: _ =>
      match list_difference
              ((λ child, status (h child)) <$>
                 List.filter (λ vf, negb (is_available (h vf))) vfs_list)
              [UNCLAIMABLE; UNAVAILABLE] with
      | [] => true
      | _ :: _ => false
      end
  end = claim_tolerates h vfs_list.
Proof.
  transitivity (forallb (λ vf, bool_decide (status (h vf) ∈ [UNCLAIMABLE; UNAVAILABLE]))
                  (List.filter (λ vf, negb (is_available (h vf))) vfs_list)).
  - rewrite <- list_difference_nil_forallb.
    by destruct (List.filter _ vfs_list).
  - unfold claim_tolerates.
    induction vfs_list as [|vf rest IH]; [done|].
    cbn [List.filter forallb]. unfold is_available at 1.
    destruct (status (h vf)) eqn:Hst; eval_closed; cbn; rewrite ?IH, ?Hst; eval_closed; done.
Qed.


Lemma claim_check_run (h h0 : store) (l : list ref) :
  match List.filter (λ vf, negb (is_available (h vf))) l with
  | [] => mret tt
  | _ :: _ =>
      match list_difference
              ((λ child, status (h child)) <$>
                 List.filter (λ vf, negb (is_available (h vf))) l)
              [UNCLAIMABLE; UNAVAILABLE] with
      | [] => mret tt
      | _ :: _ => raise PciDeviceVFInvalidStatus
      end
  end h0 = (h0, if claim_tolerates h l then Ok tt
                else Raise PciDeviceVFInvalidStatus).
Proof.
  rewrite <- claim_children_check.
  destruct (List.filter _ l); [done|].
  by destruct (list_difference _ _).
Qed.


Lemma claim_run (h : store) (self : ref) (u : string) :
  match claim_error h self with
  | Some e => claim self u h = (h, Raise e)
  | None =>
      ∃ h', claim self u h = (h', Ok tt) ∧ ∀ r, h' r = claim_post h self u r
  end.
Proof.
  unfold claim_error, claim. mstep.
  destruct (decide (status (h self) = AVAILABLE)) as [Hst|Hst]; simpl_bd;
    [|done].
  destruct (dev_type (h self)) eqn:Hty.
  - eexists. split; [reflexivity|]. intros r. unfold claim_post. rewrite Hty.
    by at_ref r self.
  - rewrite claim_check_run.
    destruct (claim_tolerates h (child_devices (h self))); [|done].
    destruct (bulk_update_status_spec (child_devices (h self)) UNCLAIMABLE h)
      as (h1 & -> & Hh1).
    eexists. split; [reflexivity|]. intros r. unfold claim_post. rewrite Hty.
    at_ref r self; rewrite Hh1; [by case_bool_decide | done].
  - destruct (parent_device (h self)) as [parent|] eqn:Hp.
    + destruct (decide (status (h parent)
                          ∈ [AVAILABLE; UNCLAIMABLE; UNAVAILABLE]));
        simpl_bd; [|done].
      destruct (decide (status (h parent) = AVAILABLE)); simpl_bd.
      all: eexists; (split; [reflexivity|]); intros r.
      all: unfold claim_post; rewrite Hty, Hp.
      all: at_ref r self; try at_ref r parent; try at_ref self parent.
      all: simpl_bd; done.
    + eexists. split; [reflexivity|]. intros r. unfold claim_post.
      rewrite Hty, Hp. at_ref r self; simpl_bd; done.
  - destruct (parent_device (h self)) as [parent|] eqn:Hp.
    + destruct (decide (status (h parent)
                          ∈ [AVAILABLE; UNCLAIMABLE; UNAVAILABLE]));
        simpl_bd; [|done].
      destruct (decide (status (h parent) = AVAILABLE)); simpl_bd.
      all: eexists; (split; [reflexivity|]); intros r.
      all: unfold claim_post; rewrite Hty, Hp.
      all: at_ref r self; try at_ref r parent; try at_ref self parent.
      all: simpl_bd; done.
    + eexists. split; [reflexivity|]. intros r. unfold claim_post.
      rewrite Hty, Hp. at_ref r self; simpl_bd; done.
Qed.

Lemma allocate_run (h : store) (self : ref) (instance : Instance) :
  match allocate_error h self instance with
  | Some e => allocate self instance h = (h, Raise e)
  | None =>
      ∃ h',
        allocate self instance h
        = (h', Ok {| inst_uuid := inst_uuid instance;
                     inst_pci_devices :=
                       Some (default [] (inst_pci_devices instance)
                               ++ [h' self]) |})
        ∧ ∀ r, h' r = allocate_post h self instance r
  end.
Proof.
  unfold allocate_error, allocate, owner. mstep.
  destruct (decide (status (h self) ∈ [AVAILABLE; CLAIMED])) as [Hst|Hst];
    simpl_bd; [|done].
  destruct (decide (status (h self) = CLAIMED)) as [Hc|Hc]; simpl_bd;
    [ destruct (instance_uuid (h self)) as [|o] eqn:Ho; cbn beta iota;
      simpl_bd; [done|];
      destruct (decide (o = Some (inst_uuid instance))) as [->|Hne];
      simpl_bd; [|done] | ].
  all: destruct (dev_type (h self)) eqn:Hty.
  all: try match goal with
       | |- context [forallb ?f ?l] =>
           destruct (forallb f l); cbn [negb]; [|done];
           destruct (bulk_update_status_spec l UNAVAILABLE h)
             as (h1 & -> & Hh1)
       | |- context [parent_device ?d] =>
           destruct (parent_device d) as [parent|] eqn:Hp;
           [ destruct (decide (status (h parent)
                                 ∈ [AVAILABLE; UNCLAIMABLE; UNAVAILABLE]));
             simpl_bd; [|done] | ]
       end.
  all: eexists; (split; [rewrite ?upd_eq; reflexivity|]); intros r.
  all: unfold allocate_post; rewrite ?Hty, ?Hp.
  all: at_ref r self; rewrite ?Hh1; try at_ref r parent;
       try at_ref self parent; simpl_bd; try done.
  all: by case_bool_decide.
Qed.

Lemma remove_run (h : store) (self : ref) :
  match remove_error h self with
  | Some e => remove self h = (h, Raise e)
  | None => ∃ h', remove self h = (h', Ok tt) ∧ ∀ r, h' r = remove_post h self r
  end.
Proof.
  unfold remove_error, remove, owner. mstep.
  destruct (decide (status (h self) ∈ [AVAILABLE; UNAVAILABLE; UNCLAIMABLE]));
    simpl_bd; [|done].
  destruct (instance_uuid (h self)) as [|[o|]] eqn:Ho; cbn beta iota;
    simpl_bd; try done.
  all: eexists; (split; [reflexivity|]); intros r; unfold remove_post.
  all: by at_ref r self.
Qed.

Lemma free_cascade_frame (h : store) (self r : ref) :
  free_cascade h self r = h r
  ∨ free_cascade h self r = set_status AVAILABLE (h r).
Proof.
  unfold free_cascade.
  destruct (dev_type (h self)); try case_bool_decide; auto.
Qed.

Lemma forallb_flags {A : Type} (f : A → bool) (l : list A) :
  forallb (λ flag, flag) (f <$> l) = forallb f l.
Proof. induction l as [|x l IH]; [done|]. cbn. by rewrite IH. Qed.

(** The list comprehension of [free] reads ids and writes nothing: it raises
    when one of the ids it reads is not set, and gives the availability of
    the entries whose id differs from the device's otherwise. *)
Lemma other_vfs_is_available_spec (h : store) (self parent : ref) :
  other_vfs_is_available self (child_devices (h parent)) h
  = if ids_readable h self parent
    then (h, Ok ((λ vf, is_available (h vf))
                   <$> List.filter
                         (λ vf, bool_decide (id (h vf) ≠ id (h self)))
                         (child_devices (h parent))))
    else (h, Raise NotImplementedError).
Proof.
  unfold ids_readable.
  generalize (child_devices (h parent)) as vfs_list.
  intros [|vf0 rest0]; [done|].
  destruct (id (h self)) as [|n] eqn:Hself.
  { cbn [other_vfs_is_available attr_is_set andb]. mstep.
    destruct (id (h vf0)); [done|]. by rewrite Hself. }
  cbn [attr_is_set andb].
  generalize (vf0 :: rest0) as vfs_list.
  induction vfs_list as [|vf rest IH]; [done|].
  cbn [other_vfs_is_available forallb List.filter]. mstep.
  destruct (id (h vf)) as [|m] eqn:Hvf; cbn [attr_is_set andb]; [done|].
  rewrite Hself. cbn beta iota.
  destruct (decide (m = n)) as [->|Hne].
  - rewrite !bool_decide_false by naive_solver. exact IH.
  - rewrite !bool_decide_true by naive_solver.
    rewrite IH.
    by destruct (forallb _ rest).
Qed.

(** The search in the instance's collection writes nothing either. *)
Lemma next_with_id_spec (h : store) (self : ref) (devs : list PciDevice) :
  next_with_id self devs h
  = (h, first_with_id (id (h self)) devs).
Proof.
  induction devs as [|dev rest IH]; [done|].
  cbn [next_with_id first_with_id]. mstep.
  destruct (id dev) as [|m]; [done|].
  destruct (id (h self)) as [|n] eqn:Hself; [done|]. cbn beta iota.
  case_bool_decide; [done|]. rewrite IH. by rewrite ?Hself.
Qed.

Lemma free_run (h : store) (self : ref) (instance : option Instance) :
  match free_error h self instance with
  | Some e => free self instance h = (h, Raise e)
  | None =>
      ∃ h', free self instance h = (h', free_result h self instance)
            ∧ ∀ r, h' r = free_post h self r
  end.
Proof.
  unfold free_error, free_guard_error, free, owner. mstep.
  destruct (decide (status (h self) ∈ [ALLOCATED; CLAIMED])) as [Hst|Hst];
    simpl_bd; [|done].
  destruct instance as [inst|];
    [ destruct (instance_uuid (h self)) as [|o] eqn:Ho; cbn beta iota;
      simpl_bd; [done|];
      destruct (decide (o = Some (inst_uuid inst))) as [->|Hne];
      simpl_bd; [|done] | ].
  all: destruct (dev_type (h self)) eqn:Hty; eval_closed; cbn beta iota.
  all: try match goal with
       | |- context [_bulk_update_status ?l ?s ?h] =>
           destruct (bulk_update_status_spec l s h) as (h1 & -> & Hh1)
       | |- context [parent_device ?d] =>
           destruct (parent_device d) as [parent|] eqn:Hp;
           [ rewrite other_vfs_is_available_spec;
             destruct (ids_readable h self parent) eqn:Hids; [|done];
             rewrite forallb_flags;
             change (forallb _ (List.filter _ (child_devices (h parent))))
               with (siblings_available h self parent);
             destruct (siblings_available h self parent) eqn:Hsa | ]
       end.
  all: unfold free_result, free_devs_of; rewrite ?Hty, ?Hp, ?Hsa.
  all: cbn beta iota.
  all: match goal with
       | |- context [set_instance_uuid (Val None) (upd ?s (set_status AVAILABLE (?hc ?s)) ?hc ?s)] =>
           assert (Hcs : ∀ r, hc r = free_cascade h self r);
           [ intros r; unfold free_cascade; rewrite ?Hty, ?Hp, ?Hh1;
             try at_ref r parent; rewrite ?Hsa; simpl_bd; try done
           | try rewrite <- (Hcs self);
             assert (Hid : id (hc self) = id (h self))
               by (rewrite Hcs;
                   destruct (free_cascade_frame h self self) as [-> | ->];
                   done);
             assert (Hfin : ∀ r,
               upd self
                 (set_request_id None
                    (set_instance_uuid (Val None)
                       (set_status AVAILABLE (hc self))))
                 (upd self
                    (set_instance_uuid (Val None)
                       (set_status AVAILABLE (hc self)))
                    (upd self (set_status AVAILABLE (hc self)) hc)) r
               = free_post h self r)
               by (intros r; unfold free_post; at_ref r self;
                   [ rewrite Hcs;
                     destruct (free_cascade_frame h self self) as [-> | ->];
                     done
                   | apply Hcs ]) ]
       end.
  all: rewrite ?upd_eq.
  all: try case_bool_decide.
  all: try destruct (inst_pci_devices inst) as [devs|].
  all: rewrite ?next_with_id_spec, ?upd_eq;
       cbn [id set_request_id set_instance_uuid set_status]; rewrite ?Hid.
  all: try destruct (first_with_id _ devs).
  all: eexists; (split; [reflexivity|]); exact Hfin.
Qed.

Lemma free_error_guard (h : store) (self : ref)
    (instance : option Instance) :
  free_error h self instance = None →
  free_guard_error h self instance = None.
Proof. unfold free_error. by destruct (free_guard_error h self instance). Qed.


(** Inversion forms of the [_run] lemmas. *)

Lemma claim_ok (h h' : store) (self : ref) (u : string) :
  claim self u h = (h', Ok tt) →
  claim_error h self = None ∧ ∀ r, h' r = claim_post h self u r.
Proof.
  intros Hok. pose proof (claim_run h self u) as Hrun.
  destruct (claim_error h self) as [e|].
  - rewrite Hrun in Hok. discriminate Hok.
  - destruct Hrun as (h'' & Hr & Hpost). rewrite Hr in Hok.
    by injection Hok as <-.
Qed.

Lemma claim_raises (h : store) (self : ref) (u : string) (e : exn) :
  (claim self u h).2 = Raise e ↔ claim_error h self = Some e.
Proof.
  pose proof (claim_run h self u) as Hrun.
  destruct (claim_error h self) as [e'|].
  - rewrite Hrun. cbn. naive_solver.
  - destruct Hrun as (h' & -> & _). cbn. naive_solver.
Qed.

Lemma allocate_ok (h h' : store) (self : ref) (instance instance' : Instance) :
  allocate self instance h = (h', Ok instance') →
  allocate_error h self instance = None
  ∧ (∀ r, h' r = allocate_post h self instance r)
  ∧ instance' = {| inst_uuid := inst_uuid instance;
                   inst_pci_devices :=
                     Some (default [] (inst_pci_devices instance)
                             ++ [h' self]) |}.
Proof.
  intros Hok. pose proof (allocate_run h self instance) as Hrun.
  destruct (allocate_error h self instance) as [e|].
  - rewrite Hrun in Hok. discriminate Hok.
  - destruct Hrun as (h'' & Hr & Hpost). rewrite Hr in Hok.
    by injection Hok as <- <-.
Qed.

Lemma allocate_raises (h : store) (self : ref) (instance : Instance)
    (e : exn) :
  (allocate self instance h).2 = Raise e
  ↔ allocate_error h self instance = Some e.
Proof.
  pose proof (allocate_run h self instance) as Hrun.
  destruct (allocate_error h self instance) as [e'|].
  - rewrite Hrun. cbn. naive_solver.
  - destruct Hrun as (h' & -> & _). cbn. naive_solver.
Qed.

Lemma remove_ok (h h' : store) (self : ref) :
  remove self h = (h', Ok tt) →
  remove_error h self = None ∧ ∀ r, h' r = remove_post h self r.
Proof.
  intros Hok. pose proof (remove_run h self) as Hrun.
  destruct (remove_error h self) as [e|].
  - rewrite Hrun in Hok. discriminate Hok.
  - destruct Hrun as (h'' & Hr & Hpost). rewrite Hr in Hok.
    by injection Hok as <-.
Qed.

Lemma free_ok (h h' : store) (self : ref) (instance : option Instance)
    (res : list ref * option Instance) :
  free self instance h = (h', Ok res) →
  free_error h self instance = None
  ∧ free_result h self instance = Ok res
  ∧ ∀ r, h' r = free_post h self r.
Proof.
  intros Hok. pose proof (free_run h self instance) as Hrun.
  destruct (free_error h self instance) as [e|].
  - rewrite Hrun in Hok. discriminate Hok.
  - destruct Hrun as (h'' & Hr & Hpost). rewrite Hr in Hok.
    by injection Hok as <- <-.
Qed.

(** ** Dicts *)

Section dict_facts.
Context {V : Type}.
Implicit Types (d : dict V) (k : string).

Lemma dict_get_del k k' d :
  dict_get k (dict_del k' d) = if decide (k = k') then None else dict_get k d.
Proof.
  induction d as [|[k0 v] rest IH]; cbn; [by case_decide|].
  destruct (String.eqb_spec k0 k') as [->|Hne0]; [|cbn].
  - rewrite IH. case_decide as Hk; [done|].
    by rewrite (proj2 (String.eqb_neq k' k)) by done.
  - destruct (String.eqb_spec k0 k) as [->|Hne1]; [|done].
    by rewrite decide_False.
Qed.

Lemma dict_get_app k d1 d2 :
  dict_get k (d1 ++ d2)
  = match dict_get k d1 with Some v => Some v | None => dict_get k d2 end.
Proof.
  induction d1 as [|[k0 v] rest IH]; cbn; [done|].
  by destruct (String.eqb k0 k).
Qed.

Lemma dict_get_setdefault k k' v d :
  dict_get k (dict_setdefault k' v d)
  = match dict_get k d with
    | Some w => Some w
    | None => if decide (k = k') then Some v else None
    end.
Proof.
  unfold dict_setdefault, dict_has.
  destruct (dict_get k' d) as [w|] eqn:Hk'.
  - destruct (dict_get k d) eqn:Hk; [done|].
    case_decide; [congruence|done].
  - rewrite dict_get_app. destruct (dict_get k d); [done|]. cbn.
    destruct (String.eqb_spec k' k) as [->|Hne].
    + by rewrite decide_True.
    + by rewrite decide_False.
Qed.

Lemma dict_get_None_keys k d :
  dict_get k d = None → Forall (λ kv, kv.1 ≠ k) d.
Proof.
  induction d as [|[k0 v] rest IH]; cbn; [done|].
  destruct (String.eqb_spec k0 k); [done|]. intros Hget.
  constructor; [done|by apply IH].
Qed.
Lemma dict_has_del k k' d :
  dict_has k (dict_del k' d) = if decide (k = k') then false else dict_has k d.
Proof. unfold dict_has. rewrite dict_get_del. by case_decide. Qed.

Lemma dict_get_set k k' v d :
  dict_get k (dict_set k' v d)
  = if decide (k = k') then Some v else dict_get k d.
Proof.
  induction d as [|[k0 v0] rest IH]; cbn.
  - destruct (String.eqb_spec k' k) as [->|Hne].
    + by rewrite decide_True.
    + by rewrite decide_False.
  - destruct (String.eqb_spec k0 k') as [->|Hne0]; cbn.
    + destruct (String.eqb_spec k' k) as [->|Hne].
      * by rewrite decide_True.
      * by rewrite decide_False.
    + destruct (String.eqb_spec k0 k) as [->|Hne1]; [|done].
      by rewrite decide_False.
Qed.
End dict_facts.

(** ** update_device *)

Section update_device_facts.
Context `{Oslo}.

Lemma setattr_frame (f : field) (v : pyval) (self self' : PciDevice) :
  setattr f v self = Ok self' →
  (f ≠ f_status → status self' = status self)
  ∧ (f ≠ f_instance_uuid → instance_uuid self' = instance_uuid self)
  ∧ (f ≠ f_dev_type → dev_type self' = dev_type self)
  ∧ parent_device self' = parent_device self
  ∧ child_devices self' = child_devices self.
Proof.
  destruct f; cbn [setattr]; unfold mbind, result_bind.
  all: repeat case_match; intros [= <-]; done.
Qed.

Lemma fields_key (k : string) (f : field) :
  dict_get k fields = Some f →
  (f = f_status → k = "status")
  ∧ (f = f_instance_uuid → k = "instance_uuid")
  ∧ (f = f_dev_type → k = "dev_type").
Proof.
  unfold fields. cbn [dict_get].
  repeat match goal with
         | |- context [String.eqb ?a k] =>
             destruct (String.eqb_spec a k) as [<-|?];
             [intros [= <-]; done|]
         end.
  intros [=].
Qed.

Lemma update_device_items_frame (items : dict pyval) (self : PciDevice) :
  Forall (λ kv, kv.1 ≠ "status") items →
  Forall (λ kv, kv.1 ≠ "instance_uuid") items →
  status (update_device_items items self).1 = status self
  ∧ instance_uuid (update_device_items items self).1 = instance_uuid self
  ∧ parent_device (update_device_items items self).1 = parent_device self
  ∧ child_devices (update_device_items items self).1 = child_devices self
  ∧ (Forall (λ kv, kv.1 ≠ "dev_type") items →
     dev_type (update_device_items items self).1 = dev_type self).
Proof.
  revert self. induction items as [|[k v] rest IH]; intros self Hs Hi;
    [done|].
  apply Forall_cons in Hs as [Hs1 Hs]. apply Forall_cons in Hi as [Hi1 Hi].
  cbn [update_device_items].
  destruct (dict_get k fields) as [f|] eqn:Hf.
  - destruct (setattr f v self) as [self'|e] eqn:Hset; [|done].
    apply setattr_frame in Hset as (Hst & Hiu & Hty & Hp & Hc).
    apply fields_key in Hf as (Hfs & Hfi & Hft).
    destruct (IH self' Hs Hi) as (-> & -> & -> & -> & IHty).
    rewrite Hst, Hiu by naive_solver. repeat (split; [done|]).
    intros [Hd1 Hd]%Forall_cons. rewrite IHty by done.
    apply Hty. naive_solver.
  - case_bool_decide.
    + destruct (coerce_persistent k v); [|done].
      destruct (IH self Hs Hi) as (-> & -> & -> & -> & IHty).
      repeat (split; [done|]). intros [_ Hd]%Forall_cons. by apply IHty.
    + destruct (IH (set_extra_info
                      (<[k:=match v with PyStr s => s | _ => dumps v end]>
                         (extra_info self)) self) Hs Hi)
        as (-> & -> & -> & -> & IHty).
      repeat (split; [done|]). intros [_ Hd]%Forall_cons. by rewrite IHty.
Qed.

Lemma clean_tags_frame (tags : list string) (dev_dict : dict pyval)
    (self : PciDevice) :
  status (clean_tags tags dev_dict self) = status self
  ∧ instance_uuid (clean_tags tags dev_dict self) = instance_uuid self
  ∧ dev_type (clean_tags tags dev_dict self) = dev_type self
  ∧ parent_device (clean_tags tags dev_dict self) = parent_device self
  ∧ child_devices (clean_tags tags dev_dict self) = child_devices self.
Proof.
  unfold clean_tags. revert self.
  induction tags as [|tag rest IH]; intros self; [done|].
  cbn [foldl]. destruct (negb _ && _).
  - by destruct (IH (set_extra_info (delete tag (extra_info self)) self))
      as (-> & -> & -> & -> & ->).
  - apply IH.
Qed.

(** The dict [update_device] leaves to its caller. *)
Lemma update_device_dict (self : PciDevice) (dev_dict : dict pyval) :
  (update_device self dev_dict).1.2
  = dict_setdefault "parent_addr" PyNone
      (dict_del "extra_info"
         (dict_del "id"
            (dict_del "instance_uuid" (dict_del "status" dev_dict)))).
Proof.
  unfold update_device. cbn [foldl].
  by destruct (update_device_items _ self) as [self' [[]|e]].
Qed.

Lemma update_device_frame (self : PciDevice) (dev_dict : dict pyval) :
  status (update_device self dev_dict).1.1 = status self
  ∧ instance_uuid (update_device self dev_dict).1.1 = instance_uuid self
  ∧ parent_device (update_device self dev_dict).1.1 = parent_device self
  ∧ child_devices (update_device self dev_dict).1.1 = child_devices self
  ∧ (dict_get "dev_type" dev_dict = None →
     dev_type (update_device self dev_dict).1.1 = dev_type self).
Proof.
  unfold update_device. cbn [foldl].
  set (dd := dict_setdefault _ _ _).
  assert (Hs : Forall (λ kv, kv.1 ≠ "status") dd).
  { apply dict_get_None_keys. unfold dd.
    rewrite dict_get_setdefault, !dict_get_del. by repeat case_decide. }
  assert (Hi : Forall (λ kv, kv.1 ≠ "instance_uuid") dd).
  { apply dict_get_None_keys. unfold dd.
    rewrite dict_get_setdefault, !dict_get_del. by repeat case_decide. }
  destruct (update_device_items_frame dd self Hs Hi)
    as (Hst & Hiu & Hp & Hc & Hty).
  destruct (update_device_items dd self) as [self' [[]|e]];
    cbn [fst snd] in *.
  - destruct (clean_tags_frame ["managed"; "live_migratable"] dd self')
      as (-> & -> & -> & -> & ->).
    repeat (split; [done|]). intros Hd. apply Hty.
    apply dict_get_None_keys. unfold dd.
    rewrite dict_get_setdefault, !dict_get_del. rewrite Hd.
    by repeat case_decide.
  - repeat (split; [done|]). intros Hd. apply Hty.
    apply dict_get_None_keys. unfold dd.
    rewrite dict_get_setdefault, !dict_get_del. rewrite Hd.
    by repeat case_decide.
Qed.

(** C10.  [update_device] changes the dict it is given: afterwards the keys
    [status], [instance_uuid], [id] and [extra_info] are gone,
    [parent_addr] is present (with [None] when it was absent) and every
    other key is as before; and whether it returns or raises, the device's
    own [status] and [instance_uuid] are what they were. *)
Theorem update_device_side_effects (self : PciDevice)
    (dev_dict : dict pyval) :
  let '(self', dev_dict', _) := update_device self dev_dict in
  (∀ k, k ∈ ["status"; "instance_uuid"; "id"; "extra_info"] →
        dict_get k dev_dict' = None)
  ∧ dict_get "parent_addr" dev_dict'
    = Some (default PyNone (dict_get "parent_addr" dev_dict))
  ∧ (∀ k, k ∉ ["status"; "instance_uuid"; "id"; "extra_info";
               "parent_addr"] →
          dict_get k dev_dict' = dict_get k dev_dict)
  ∧ status self' = status self
  ∧ instance_uuid self' = instance_uuid self.
Proof.
  pose proof (update_device_dict self dev_dict) as Hd.
  pose proof (update_device_frame self dev_dict) as (Hst & Hiu & _).
  destruct (update_device self dev_dict) as [[self' dev_dict'] r].
  cbn in Hd, Hst, Hiu. subst dev_dict'.
  split; [|split; [|split]]; [| | |done].
  - intros k Hk. rewrite dict_get_setdefault, !dict_get_del.
    repeat case_decide; set_solver.
  - rewrite dict_get_setdefault, !dict_get_del.
    repeat (rewrite decide_False by done). rewrite decide_True by done.
    by destruct (dict_get "parent_addr" dev_dict).
  - intros k Hk. rewrite dict_get_setdefault, !dict_get_del.
    repeat (rewrite decide_False by set_solver).
    by destruct (dict_get k dev_dict).
Qed.
End update_device_facts.

(** [update_device] on a discovered dict: the four protected keys are
    dropped from the dict and not applied, [parent_addr] is defaulted, fields
    are assigned and the remaining keys land in [extra_info], a non-string
    value as JSON text that [network_caps] reads back. *)
Example update_device_discovered :
  let '(dev, dev_dict, r) :=
    update_device (H := reference_oslo) (pf_two_vfs 1) discovered in
  r = Ok tt
  ∧ dev_dict
    = [("address", PyStr "0000:01:00.1"); ("dev_type", PyStr "type-VF");
       ("numa_node", PyInt 1);
       ("capabilities", PyDict [("network", PyList [PyStr "rx"])]);
       ("managed", PyStr "true"); ("parent_addr", PyNone)]
  ∧ status dev = AVAILABLE
  ∧ instance_uuid dev = Unset
  ∧ id dev = Val 11%Z
  ∧ numa_node dev = Some 1%Z
  ∧ extra_info dev !! "managed" = Some "true"
  ∧ network_caps (H := reference_oslo) dev = Ok (PyList [PyStr "rx"]).
Proof. by vm_compute. Qed.

(** ** claim *)

(** C2.  [claim] raises [PciDeviceInvalidStatus] exactly when the device is
    not AVAILABLE at entry, and whenever it returns normally the device is
    CLAIMED with [instance_uuid] equal to the argument. *)
Theorem claim_status_contract (h : store) (self : ref) (u : string) :
  ((claim self u h).2 = Raise PciDeviceInvalidStatus
     ↔ status (h self) ≠ AVAILABLE)
  ∧ (∀ h', claim self u h = (h', Ok tt) →
       status (h' self) = CLAIMED
       ∧ instance_uuid (h' self) = Val (Some u)).
Proof.
  split.
  - rewrite claim_raises. unfold claim_error.
    case_bool_decide as Hst; [done|]. split; [|done].
    repeat case_match; congruence.
  - intros h' (_ & Hpost)%claim_ok. rewrite Hpost. unfold claim_post.
    by rewrite decide_True.
Qed.

Lemma claim_status_contract_witness :
  claim 1 "inst-a" pf_two_vfs = ((claim 1 "inst-a" pf_two_vfs).1, Ok tt)
  ∧ status ((claim 1 "inst-a" pf_two_vfs).1 1) = CLAIMED
  ∧ instance_uuid ((claim 1 "inst-a" pf_two_vfs).1 1) = Val (Some "inst-a").
Proof.
  split; [reflexivity|].
  exact (proj2 (claim_status_contract pf_two_vfs 1 "inst-a") _ eq_refl).
Defined.

(** ** remove *)

(** C7, as the code has it.  [remove] on a device whose [instance_uuid] is
    set and non-null always raises and leaves the store as it was: the status
    check comes first, so the exception is [PciDeviceInvalidOwner] when the
    status is AVAILABLE, UNAVAILABLE or UNCLAIMABLE, and
    [PciDeviceInvalidStatus] when it is any other status. *)
Theorem remove_owned_raises (h : store) (self : ref) (u : string) :
  instance_uuid (h self) = Val (Some u) →
  (status (h self) ∈ [AVAILABLE; UNAVAILABLE; UNCLAIMABLE] →
     remove self h = (h, Raise PciDeviceInvalidOwner))
  ∧ (status (h self) ∉ [AVAILABLE; UNAVAILABLE; UNCLAIMABLE] →
     remove self h = (h, Raise PciDeviceInvalidStatus)).
Proof.
  intros Hown. pose proof (remove_run h self) as Hrun.
  unfold remove_error, owner in Hrun. rewrite Hown in Hrun.
  split; intros Hst.
  - rewrite bool_decide_false in Hrun by naive_solver.
    by rewrite bool_decide_true in Hrun by done.
  - by rewrite bool_decide_true in Hrun by done.
Qed.

Lemma remove_owned_raises_witness :
  instance_uuid (stale_owner 0) = Val (Some "inst-a")
  ∧ remove 0 stale_owner = (stale_owner, Raise PciDeviceInvalidOwner).
Proof.
  split; [reflexivity|].
  apply (remove_owned_raises stale_owner 0 "inst-a"); [reflexivity|].
  cbn. set_solver.
Defined.

(** C7 as stated fails: a CLAIMED device has its [instance_uuid] set, and
    [remove] on it raises [PciDeviceInvalidStatus], not
    [PciDeviceInvalidOwner]. *)
Lemma remove_claimed_raises_invalid_status :
  instance_uuid ((claim 1 "inst-a" pf_two_vfs).1 1) = Val (Some "inst-a")
  ∧ status ((claim 1 "inst-a" pf_two_vfs).1 1) = CLAIMED
  ∧ (remove 1 (claim 1 "inst-a" pf_two_vfs).1).2
    = Raise PciDeviceInvalidStatus
  ∧ (remove 1 (claim 1 "inst-a" pf_two_vfs).1).2
    ≠ Raise PciDeviceInvalidOwner.
Proof. by vm_compute. Qed.

(** ** allocate *)

(** C4.  A VF or vDPA device whose status and owner satisfy [allocate]'s
    precondition and whose parent is resolved (to another record: a VF is
    never its own PF): [allocate] raises [PciDevicePFInvalidStatus] exactly
    when the parent is not AVAILABLE, UNCLAIMABLE or UNAVAILABLE; otherwise
    it succeeds, the parent ends UNAVAILABLE whatever it was, and the device
    is ALLOCATED to the instance. *)
Theorem allocate_vf_parent_contract (h : store) (self parent : ref)
    (instance : Instance) :
  dev_type (h self) ∈ [SRIOV_VF; VDPA] →
  parent_device (h self) = Some parent →
  parent ≠ self →
  (status (h self) = AVAILABLE
   ∨ status (h self) = CLAIMED
     ∧ instance_uuid (h self) = Val (Some (inst_uuid instance))) →
  ((allocate self instance h).2 = Raise PciDevicePFInvalidStatus
     ↔ status (h parent) ∉ [AVAILABLE; UNCLAIMABLE; UNAVAILABLE])
  ∧ (status (h parent) ∈ [AVAILABLE; UNCLAIMABLE; UNAVAILABLE] →
     ∃ h' instance',
       allocate self instance h = (h', Ok instance')
       ∧ status (h' parent) = UNAVAILABLE
       ∧ status (h' self) = ALLOCATED
       ∧ instance_uuid (h' self) = Val (Some (inst_uuid instance))).
Proof.
  intros Hty Hp Hne Hpre.
  pose proof (allocate_run h self instance) as Hrun.
  assert (Herr : allocate_error h self instance
                 = if bool_decide (status (h parent)
                                     ∈ [AVAILABLE; UNCLAIMABLE; UNAVAILABLE])
                   then None else Some PciDevicePFInvalidStatus).
  { unfold allocate_error, owner. rewrite Hp.
    destruct Hpre as [Hst|[Hst Hown]]; rewrite Hst, ?Hown; eval_closed;
      cbn beta iota; simpl_bd.
    all: by destruct (dev_type (h self)); try set_solver. }
  split.
  - rewrite allocate_raises, Herr. case_bool_decide; naive_solver.
  - intros Hok. rewrite Herr, bool_decide_true in Hrun by done.
    destruct Hrun as (h' & Hr & Hpost).
    eexists _, _. split; [exact Hr|].
    rewrite !Hpost. unfold allocate_post.
    rewrite decide_False, decide_True by done.
    rewrite Hp. simpl_bd.
    by destruct (dev_type (h self)); try set_solver.
Qed.

Lemma allocate_vf_parent_contract_witness :
  ∃ h' instance',
    allocate 1 instance_a pf_two_vfs = (h', Ok instance')
    ∧ status (h' 0) = UNAVAILABLE
    ∧ status (h' 1) = ALLOCATED
    ∧ instance_uuid (h' 1) = Val (Some "inst-a").
Proof.
  apply (allocate_vf_parent_contract pf_two_vfs 1 0 instance_a).
  - cbn. set_solver.
  - reflexivity.
  - done.
  - by left.
  - cbn. set_solver.
Defined.
(** ** free *)

Lemma free_precondition_no_guard_error (h : store) (self : ref)
    (instance : option Instance) :
  free_precondition h self instance →
  free_guard_error h self instance = None.
Proof.
  intros [Hst Hown]. unfold free_guard_error, owner.
  rewrite bool_decide_false by naive_solver.
  destruct instance as [inst|]; [|done].
  rewrite (Hown inst eq_refl). by simpl_bd.
Qed.

Lemma attr_is_set_true {A : Type} (a : attr A) :
  attr_is_set a = true ↔ a ≠ Unset.
Proof. by destruct a. Qed.

Lemma ids_set_readable (h : store) (self parent : ref) :
  ids_set h self parent → ids_readable h self parent = true.
Proof.
  unfold ids_readable, ids_set. intros [Hself Hkids].
  destruct (child_devices (h parent)) as [|vf rest] eqn:Hl; [done|].
  apply andb_true_intro. split; [by apply attr_is_set_true|].
  apply forallb_forall. intros c Hc%list_elem_of_In.
  by apply attr_is_set_true, Hkids.
Qed.

Lemma ids_readable_set (h : store) (self parent : ref) :
  child_devices (h parent) ≠ [] →
  ids_readable h self parent = true → ids_set h self parent.
Proof.
  unfold ids_readable, ids_set. intros Hne.
  destruct (child_devices (h parent)) as [|vf rest] eqn:Hl; [done|].
  intros [Hself Hkids]%andb_prop. split; [by apply attr_is_set_true|].
  intros c Hc%list_elem_of_In. apply attr_is_set_true.
  rewrite forallb_forall in Hkids. by apply Hkids.
Qed.

Lemma free_cascade_status_self (h : store) (self : ref) :
  status (free_cascade h self self) = ALLOCATED → status (h self) = ALLOCATED.
Proof.
  destruct (free_cascade_frame h self self) as [-> | ->]; [done|].
  cbn. discriminate.
Qed.

Lemma first_with_id_found (n : Z) (pre post : list PciDevice)
    (dev : PciDevice) :
  id dev = Val n → (∀ e, e ∈ pre → id e ≠ Unset) →
  ∃ existed, first_with_id (Val n) (pre ++ dev :: post) = Ok existed.
Proof.
  intros Hdev. induction pre as [|e pre IH]; intros Hpre.
  - cbn. rewrite Hdev. rewrite bool_decide_true by done. by eexists.
  - cbn. destruct (id e) as [|m] eqn:He.
    + destruct (Hpre e); [set_solver|done].
    + case_bool_decide; [by eexists|]. apply IH. set_solver.
Qed.

Lemma instance_holds_result (h : store) (self : ref)
    (instance : option Instance) :
  instance_holds h self instance →
  ∃ instance', free_result h self instance
               = Ok (free_devs_of h self, instance').
Proof.
  intros Hholds. unfold free_result.
  destruct instance as [inst|]; [|by eexists].
  case_bool_decide as Hold; [|by eexists].
  apply free_cascade_status_self in Hold.
  destruct (Hholds inst eq_refl Hold)
    as (devs & pre & dev & post & n & -> & -> & -> & Hdev & Hpre).
  destruct (first_with_id_found n pre post dev Hdev Hpre) as (existed & ->).
  by eexists.
Qed.

Lemma siblings_available_others (h : store) (self parent : ref) :
  siblings_available h self parent = true ↔ other_vfs_available h self parent.
Proof.
  unfold siblings_available, other_vfs_available.
  rewrite forallb_forall. split.
  - intros Hall c Hc Hne.
    assert (Hin : In c (List.filter
                          (λ vf, bool_decide (id (h vf) ≠ id (h self)))
                          (child_devices (h parent)))).
    { apply filter_In. split; [by apply list_elem_of_In|].
      by apply bool_decide_eq_true. }
    apply Hall in Hin. unfold is_available in Hin.
    by apply bool_decide_eq_true in Hin.
  - intros Hall c [Hc Hne]%filter_In. apply list_elem_of_In in Hc.
    apply bool_decide_eq_true in Hne. unfold is_available.
    by apply bool_decide_eq_true, Hall.
Qed.

(** A VF or vDPA device that meets the two guards, with a resolved parent
    that lists children: when the device or one of these children has no
    id, [free] raises [NotImplementedError] and changes nothing. *)
Lemma free_vf_unset_id_raises (h : store) (self parent : ref)
    (instance : option Instance) :
  dev_type (h self) ∈ [SRIOV_VF; VDPA] →
  parent_device (h self) = Some parent →
  free_precondition h self instance →
  child_devices (h parent) ≠ [] →
  ¬ ids_set h self parent →
  free self instance h = (h, Raise NotImplementedError).
Proof.
  intros Hty Hp Hpre Hkids Hids.
  pose proof (free_run h self instance) as Hrun.
  unfold free_error in Hrun.
  rewrite (free_precondition_no_guard_error _ _ _ Hpre), Hp in Hrun.
  destruct (ids_readable h self parent) eqn:Hr.
  { destruct Hids. by apply ids_readable_set. }
  assert (dev_type (h self) = SRIOV_VF ∨ dev_type (h self) = VDPA)
    as [Ht | Ht] by set_solver.
  all: by rewrite Ht in Hrun.
Qed.

(** C3, as the code has it.  For a PF meeting [free]'s precondition, with a
    supplied instance that holds the device in its collection when the device
    is ALLOCATED: [free] returns normally, every child is AVAILABLE
    afterwards whatever its status was, and the returned list contains every
    child and the PF itself. *)
Theorem free_pf_releases_children (h : store) (self : ref)
    (instance : option Instance) :
  dev_type (h self) = SRIOV_PF →
  free_precondition h self instance →
  instance_holds h self instance →
  ∃ h' devs instance',
    free self instance h = (h', Ok (devs, instance'))
    ∧ (∀ c, c ∈ child_devices (h self) →
            status (h' c) = AVAILABLE ∧ c ∈ devs)
    ∧ self ∈ devs.
Proof.
  intros Hty Hpre Hholds.
  pose proof (free_run h self instance) as Hrun.
  unfold free_error in Hrun.
  rewrite (free_precondition_no_guard_error _ _ _ Hpre), Hty in Hrun.
  destruct Hrun as (h' & Hr & Hpost).
  destruct (instance_holds_result _ _ _ Hholds) as (instance' & Hres).
  rewrite Hres in Hr. exists h', (free_devs_of h self), instance'.
  split; [done|]. unfold free_devs_of. rewrite Hty. split; [|set_solver].
  intros c Hc. split; [|set_solver].
  rewrite Hpost. unfold free_post, free_cascade. rewrite Hty.
  destruct (decide (c = self)); [done|]. by rewrite bool_decide_true.
Qed.

Lemma free_pf_releases_children_witness :
  ∃ h' devs instance',
    free 0 None (claim 0 "inst-a" pf_two_vfs).1 = (h', Ok (devs, instance'))
    ∧ (∀ c, c ∈ [1; 2] → status (h' c) = AVAILABLE ∧ c ∈ devs)
    ∧ 0 ∈ devs.
Proof.
  apply (free_pf_releases_children (claim 0 "inst-a" pf_two_vfs).1 0 None).
  - reflexivity.
  - split; [cbn; set_solver | intros inst [=]].
  - intros inst [=].
Defined.

(** C3 as stated fails: the PF of [pf_allocated] is ALLOCATED to "inst-a";
    freeing it for an instance record that names "inst-a" but whose
    collection does not hold the device meets the two guards and then raises
    [StopIteration], so no list is returned. *)
Lemma free_pf_without_collection_entry_raises :
  dev_type (pf_allocated 0) = SRIOV_PF
  ∧ free_precondition pf_allocated 0 (Some instance_a_reloaded)
  ∧ (free 0 (Some instance_a_reloaded) pf_allocated).2 = Raise StopIteration.
Proof.
  split; [reflexivity|]. split; [|reflexivity].
  split; [cbn; set_solver|]. by intros inst [= <-].
Qed.

(** C5, as the code has it.  For a VF or vDPA device meeting [free]'s
    precondition (with a supplied instance that holds the device when it is
    ALLOCATED) whose parent is resolved to another record, the device and the
    parent's children having their ids: [free] returns normally; when every
    sibling (every child of the parent whose id differs from the device's)
    is AVAILABLE the parent ends AVAILABLE and is part of the returned list,
    otherwise the parent keeps its status and is not part of the list. *)
Theorem free_vf_parent_contract (h : store) (self parent : ref)
    (instance : option Instance) :
  dev_type (h self) ∈ [SRIOV_VF; VDPA] →
  parent_device (h self) = Some parent →
  parent ≠ self →
  ids_set h self parent →
  free_precondition h self instance →
  instance_holds h self instance →
  ∃ h' devs instance',
    free self instance h = (h', Ok (devs, instance'))
    ∧ (other_vfs_available h self parent →
         status (h' parent) = AVAILABLE ∧ parent ∈ devs)
    ∧ (¬ other_vfs_available h self parent →
         status (h' parent) = status (h parent) ∧ parent ∉ devs).
Proof.
  intros Hty Hp Hne Hids Hpre Hholds.
  pose proof (free_run h self instance) as Hrun.
  assert (Hfe : free_error h self instance = None).
  { unfold free_error.
    rewrite (free_precondition_no_guard_error _ _ _ Hpre), Hp,
      (ids_set_readable _ _ _ Hids).
    by destruct (dev_type (h self)). }
  rewrite Hfe in Hrun.
  destruct Hrun as (h' & Hr & Hpost).
  destruct (instance_holds_result _ _ _ Hholds) as (instance' & Hres).
  rewrite Hres in Hr. exists h', (free_devs_of h self), instance'.
  split; [done|].
  rewrite Hpost. unfold free_post, free_cascade, free_devs_of.
  rewrite decide_False, Hp by done.
  pose proof (siblings_available_others h self parent) as Hsib.
  destruct (siblings_available h self parent).
  - assert (other_vfs_available h self parent) by by apply Hsib.
    split; [|done]. intros _.
    assert (dev_type (h self) = SRIOV_VF ∨ dev_type (h self) = VDPA)
      as [-> | ->] by set_solver.
    all: rewrite bool_decide_true by done.
    all: split; [done|set_solver].
  - assert (¬ other_vfs_available h self parent)
      by (intros Hall; by apply Hsib in Hall).
    split; [done|]. intros _.
    assert (dev_type (h self) = SRIOV_VF ∨ dev_type (h self) = VDPA)
      as [-> | ->] by set_solver.
    all: rewrite bool_decide_false by naive_solver.
    all: split; [done|set_solver].
Qed.

Lemma free_vf_parent_contract_witness :
  ∃ h' devs instance',
    free 1 None vf_claimed = (h', Ok (devs, instance'))
    ∧ status (h' 0) = AVAILABLE ∧ 0 ∈ devs.
Proof.
  assert (Hkids : ∀ c, c ∈ child_devices (vf_claimed 0) → c = 1 ∨ c = 2).
  { intros c Hc. change (c ∈ [1; 2]) in Hc. set_solver. }
  destruct (free_vf_parent_contract vf_claimed 1 0 None)
    as (h' & devs & instance' & Hrun & Hall & _).
  - cbn. set_solver.
  - reflexivity.
  - done.
  - split; [done|]. by intros c [-> | ->]%Hkids.
  - split; [cbn; set_solver | intros inst [=]].
  - intros inst [=].
  - exists h', devs, instance'. split; [exact Hrun|]. apply Hall.
    intros c [-> | ->]%Hkids; [|reflexivity].
    intros Hid. by destruct Hid.
Defined.

(** C5 as stated fails: the first VF of [vf_allocated] is ALLOCATED to
    "inst-a" and its parent is resolved; freeing it for an instance record
    that names "inst-a" but whose collection does not hold the device meets
    the two guards and then raises [StopIteration], so nothing is
    returned. *)
Lemma free_vf_without_collection_entry_raises :
  dev_type (vf_allocated 1) = SRIOV_VF
  ∧ parent_device (vf_allocated 1) = Some 0
  ∧ free_precondition vf_allocated 1 (Some instance_a_reloaded)
  ∧ (free 1 (Some instance_a_reloaded) vf_allocated).2 = Raise StopIteration.
Proof.
  split; [reflexivity|]. split; [reflexivity|]. split; [|reflexivity].
  split; [cbn; set_solver|]. by intros inst [= <-].
Qed.


(** ** claim followed by free *)

Lemma claim_post_structure (h : store) (self : ref) (u : string) (r : ref) :
  dev_type (claim_post h self u r) = dev_type (h r)
  ∧ parent_device (claim_post h self u r) = parent_device (h r)
  ∧ child_devices (claim_post h self u r) = child_devices (h r)
  ∧ id (claim_post h self u r) = id (h r).
Proof.
  unfold claim_post.
  destruct (decide (r = self)) as [->|]; [done|].
  destruct (dev_type (h self)); try case_bool_decide; done.
Qed.

(** C6, as the code has it.  When [claim] succeeds (for a VF or vDPA device
    with a resolved parent: on a device that has its id, as have the
    parent's children), an immediate [free()] returns normally and leaves
    the device AVAILABLE with [instance_uuid] and [request_id] cleared.
    Every child of a claimed PF ends AVAILABLE: the children that were
    AVAILABLE before the claim are restored.  The parent of a claimed VF or
    vDPA device that the claim turned from AVAILABLE to UNCLAIMABLE is
    restored to AVAILABLE when every sibling (every child of the parent
    whose id differs from the device's) is AVAILABLE, and stays UNCLAIMABLE
    otherwise. *)
Theorem claim_then_free (h h1 : store) (self : ref) (u : string) :
  claim self u h = (h1, Ok tt) →
  (∀ p, dev_type (h self) ∈ [SRIOV_VF; VDPA] →
        parent_device (h self) = Some p → ids_set h self p) →
  ∃ h2 devs,
    free self None h1 = (h2, Ok (devs, None))
    ∧ status (h2 self) = AVAILABLE
    ∧ instance_uuid (h2 self) = Val None
    ∧ request_id (h2 self) = None
    ∧ (dev_type (h self) = SRIOV_PF →
       ∀ c, c ∈ child_devices (h self) → status (h2 c) = AVAILABLE)
    ∧ (∀ p, dev_type (h self) ∈ [SRIOV_VF; VDPA] →
            parent_device (h self) = Some p → p ≠ self →
            status (h p) = AVAILABLE →
            (other_vfs_available h1 self p → status (h2 p) = AVAILABLE)
            ∧ (¬ other_vfs_available h1 self p →
               status (h2 p) = UNCLAIMABLE)).
Proof.
  intros (Herr & Hpost)%claim_ok Hids.
  pose proof (free_run h1 self None) as Hrun.
  assert (Hself : h1 self = set_instance_uuid (Val (Some u))
                              (set_status CLAIMED (h self))).
  { rewrite Hpost. unfold claim_post. by rewrite decide_True. }
  assert (Hty1 : dev_type (h1 self) = dev_type (h self))
    by by rewrite Hself.
  assert (Hp1 : parent_device (h1 self) = parent_device (h self))
    by by rewrite Hself.
  assert (Hfe : free_error h1 self None = None).
  { unfold free_error.
    assert (Hg : free_guard_error h1 self None = None).
    { unfold free_guard_error. rewrite Hself. cbn. by eval_closed. }
    rewrite Hg, Hty1, Hp1.
    destruct (parent_device (h self)) as [p|] eqn:Hp;
      [|by destruct (dev_type (h self))].
    destruct (decide (dev_type (h self) ∈ [SRIOV_VF; VDPA])) as [Hty|Hty];
      [|destruct (dev_type (h self)); set_solver].
    rewrite ids_set_readable; [by destruct (dev_type (h self))|].
    destruct (Hids p Hty eq_refl) as [Hs Hk]. split.
    - by rewrite Hself.
    - intros c Hc. rewrite !Hpost in *.
      rewrite (proj1 (proj2 (proj2 (claim_post_structure h self u p)))) in Hc.
      rewrite (proj2 (proj2 (proj2 (claim_post_structure h self u c)))).
      by apply Hk. }
  rewrite Hfe in Hrun. destruct Hrun as (h2 & Hr & Hpost2).
  exists h2, (free_devs_of h1 self). split; [exact Hr|].
  assert (Hs2 : h2 self = set_request_id None
                            (set_instance_uuid (Val None)
                               (set_status AVAILABLE (h1 self)))).
  { rewrite Hpost2. unfold free_post. by rewrite decide_True. }
  rewrite Hs2. repeat (split; [done|]).
  split.
  - intros Hty c Hc. rewrite Hpost2. unfold free_post, free_cascade.
    destruct (decide (c = self)); [done|].
    rewrite Hty1, Hty. rewrite Hself. cbn. by rewrite bool_decide_true.
  - intros p Hty Hp Hne Hav.
    pose proof (siblings_available_others h1 self p) as Hsib.
    rewrite Hpost2. unfold free_post, free_cascade.
    rewrite decide_False, Hty1 by done.
    assert (Hsp : status (h1 p) = UNCLAIMABLE).
    { rewrite Hpost. unfold claim_post. rewrite decide_False by done.
      assert (dev_type (h self) = SRIOV_VF ∨ dev_type (h self) = VDPA)
        as [-> | ->] by set_solver.
      all: by rewrite bool_decide_true. }
    rewrite Hp1, Hp.
    assert (dev_type (h self) = SRIOV_VF ∨ dev_type (h self) = VDPA)
      as [-> | ->] by set_solver.
    all: destruct (siblings_available h1 self p).
    all: split; intros Hall.
    all: try (by rewrite bool_decide_true).
    all: try (by rewrite bool_decide_false by naive_solver).
    all: try (exfalso; apply Hall; by apply Hsib).
    all: try (apply Hsib in Hall; discriminate Hall).
Qed.

Lemma claim_then_free_witness :
  ∃ h2 devs,
    free 1 None vf_claimed = (h2, Ok (devs, None))
    ∧ status (h2 1) = AVAILABLE
    ∧ instance_uuid (h2 1) = Val None
    ∧ request_id (h2 1) = None
    ∧ status (h2 0) = AVAILABLE.
Proof.
  assert (Hkids : ∀ c, c ∈ child_devices (vf_claimed 0) → c = 1 ∨ c = 2).
  { intros c Hc. change (c ∈ [1; 2]) in Hc. set_solver. }
  destruct (claim_then_free pf_two_vfs vf_claimed 1 "inst-a" eq_refl)
    as (h2 & devs & Hrun & Hst & Hown & Hreq & _ & Hparent).
  { intros p _ [= <-]. split; [done|].
    intros c Hc. change (c ∈ [1; 2]) in Hc.
    assert (c = 1 ∨ c = 2) as [-> | ->] by set_solver; done. }
  exists h2, devs. repeat (split; [assumption|]).
  apply (Hparent 0).
  - cbn. set_solver.
  - reflexivity.
  - done.
  - reflexivity.
  - intros c [-> | ->]%Hkids; [|reflexivity].
    intros Hid. by destruct Hid.
Defined.

(** C6 as stated fails: the PF of [pf_inconsistent_vf] is claimed while its
    second VF is UNAVAILABLE; the claim turns that VF UNCLAIMABLE and the
    immediate [free()] leaves it AVAILABLE, not UNAVAILABLE as before the
    claim. *)
Lemma claim_then_free_does_not_restore_unavailable_child :
  status (pf_inconsistent_vf 2) = UNAVAILABLE
  ∧ (claim 0 "inst-a" pf_inconsistent_vf).2 = Ok tt
  ∧ status ((claim 0 "inst-a" pf_inconsistent_vf).1 2) = UNCLAIMABLE
  ∧ (free 0 None (claim 0 "inst-a" pf_inconsistent_vf).1).2
    = Ok ([1; 2; 0], None)
  ∧ status ((free 0 None (claim 0 "inst-a" pf_inconsistent_vf).1).1 2)
    = AVAILABLE.
Proof. by vm_compute. Qed.

(** The condition on the ids is needed.  On the tree of devices that were
    never saved the claim of the first VF succeeds, and the immediate
    [free()] raises [NotImplementedError] on the first id it reads: nothing
    is written, the VF stays CLAIMED. *)
Example claim_then_free_unsaved_vf_raises :
  (claim 1 "inst-a" unsaved_tree).2 = Ok tt
  ∧ free 1 None (claim 1 "inst-a" unsaved_tree).1
    = ((claim 1 "inst-a" unsaved_tree).1, Raise NotImplementedError)
  ∧ status ((claim 1 "inst-a" unsaved_tree).1 1) = CLAIMED.
Proof.
  split; [reflexivity|]. split; [|reflexivity].
  apply (free_vf_unset_id_raises _ 1 0).
  - cbn. set_solver.
  - reflexivity.
  - split; [cbn; set_solver | intros inst [=]].
  - discriminate.
  - intros [Hself _]. by apply Hself.
Qed.

(** ** The owner invariant *)

Lemma same_tree_linked (h h' : store) :
  same_tree h h' → tree_linked h → tree_linked h'.
Proof.
  intros Hsame [Hdown Hup]. split.
  - intros p c Hty Hc.
    destruct (Hsame p) as (Htp & _ & Hcp), (Hsame c) as (Htc & Hpc & _).
    rewrite Htp in Hty. rewrite Hcp in Hc. rewrite Htc, Hpc. by apply Hdown.
  - intros c p Hty Hp.
    destruct (Hsame p) as (Htp & _ & Hcp), (Hsame c) as (Htc & Hpc & _).
    rewrite Htc in Hty. rewrite Hpc in Hp. rewrite Htp, Hcp. by apply Hup.
Qed.

(** One step of the engine keeps the invariant when it keeps the tree, gives
    [self] a state that agrees with its owner, changes other devices only by
    moving an unowned device tied to [self] between unowned statuses, and
    leaves no device tied to an owned [self] owned. *)
Lemma consistent_step (h h' : store) (self : ref) :
  consistent h →
  same_tree h h' →
  (owner (h' self) ≠ None ↔ owned (h' self)) →
  (∀ r, r ≠ self →
        owner (h' r) = owner (h r)
        ∧ (status (h' r) = status (h r)
           ∨ (¬ owned (h' r) ∧ ¬ owned (h r) ∧ linked h self r))) →
  (owned (h' self) → ∀ r, linked h self r → r ≠ self → ¬ owned (h' r)) →
  consistent h'.
Proof.
  intros [Hown Hexcl Htree] Hsame Hself Hrest Hnew.
  pose proof Htree as [Hdown Hup].
  split; [| |by eapply same_tree_linked].
  - intros r. destruct (decide (r = self)) as [->|Hne]; [done|].
    destruct (Hrest r Hne) as (Ho & [Hst | (Hn' & Hn & _)]).
    + rewrite Ho, Hown. unfold owned. by rewrite Hst.
    + rewrite Ho, Hown. naive_solver.
  - intros c p Hty Hp [Hc' Hp'].
    destruct (Hsame c) as (Htc & Hpc & _). rewrite Htc in Hty.
    rewrite Hpc in Hp. destruct (Hup c p Hty Hp) as [Hpf Hin].
    assert (Hcp : c ≠ p).
    { intros ->. rewrite Hpf in Hty. set_solver. }
    destruct (decide (c = self)) as [->|Hcs].
    { apply (Hnew Hc' p); [by right | done | done]. }
    destruct (decide (p = self)) as [->|Hps].
    { apply (Hnew Hp' c); [by left | done | done]. }
    apply (Hexcl c p Hty Hp).
    destruct (Hrest c Hcs) as (_ & [Hst | (Hn' & _)]); [|done].
    destruct (Hrest p Hps) as (_ & [Hst' | (Hn' & _)]); [|done].
    unfold owned in *. by rewrite <- Hst, <- Hst'.
Qed.

Lemma unowned_of_status (d : PciDevice) (l : list PciDeviceStatus) :
  status d ∈ l → CLAIMED ∉ l → ALLOCATED ∉ l → ¬ owned d.
Proof. intros Hin Hc Ha [Hs | Hs]; rewrite Hs in Hin; done. Qed.

Ltac unowned H :=
  apply (unowned_of_status _ _ H); apply (bool_decide_unpack _); by vm_compute.

Lemma claim_tolerates_unowned (h : store) (l : list ref) (r : ref) :
  claim_tolerates h l = true → r ∈ l → ¬ owned (h r).
Proof.
  unfold claim_tolerates. rewrite forallb_forall. intros Hall Hr.
  apply list_elem_of_In, Hall, bool_decide_eq_true in Hr.
  unowned Hr.
Qed.

Lemma claim_consistent (h h' : store) (self : ref) (u : string) :
  consistent h → claim self u h = (h', Ok tt) → consistent h'.
Proof.
  intros Hcons (Herr & Hpost)%claim_ok.
  apply (consistent_step h h' self Hcons).
  - intros r. rewrite Hpost.
    by destruct (claim_post_structure h self u r) as (-> & -> & -> & _).
  - rewrite Hpost. unfold claim_post. rewrite decide_True by done.
    unfold owned. cbn. naive_solver.
  - intros r Hne. rewrite Hpost. unfold claim_post, claim_error in *.
    rewrite decide_False by done.
    case_bool_decide; [done|].
    destruct (dev_type (h self)) eqn:Hty; [by auto| | |].
    + destruct (claim_tolerates h _) eqn:Htol; [|done].
      case_bool_decide as Hin; [|by auto]. split; [done|]. right.
      split; [unfold owned; cbn; naive_solver|].
      split; [by eapply claim_tolerates_unowned|]. left. done.
    + case_bool_decide as Hin; [|by auto]. split; [done|]. right.
      destruct Hin as [Hp Hav].
      split; [unfold owned; cbn; naive_solver|].
      split; [unfold owned; rewrite Hav; naive_solver|].
      right. split; [set_solver|done].
    + case_bool_decide as Hin; [|by auto]. split; [done|]. right.
      destruct Hin as [Hp Hav].
      split; [unfold owned; cbn; naive_solver|].
      split; [unfold owned; rewrite Hav; naive_solver|].
      right. split; [set_solver|done].
  - intros _ r Hlink Hne. rewrite Hpost. unfold claim_post, claim_error in *.
    rewrite decide_False by done.
    case_bool_decide; [done|].
    destruct Hlink as [[Hty Hin] | [Hty Hp]].
    + rewrite Hty in *. rewrite bool_decide_true by done.
      unfold owned. cbn. naive_solver.
    + rewrite Hp in Herr.
      assert (dev_type (h self) = SRIOV_VF ∨ dev_type (h self) = VDPA)
        as [Hty' | Hty'] by set_solver.
      all: rewrite Hty' in *.
      all: case_bool_decide as Hok; [|done].
      all: case_bool_decide as Hav; [unfold owned; cbn; naive_solver|].
      all: unowned Hok.
Qed.

Lemma allocate_post_structure (h : store) (self : ref) (instance : Instance)
    (r : ref) :
  dev_type (allocate_post h self instance r) = dev_type (h r)
  ∧ parent_device (allocate_post h self instance r) = parent_device (h r)
  ∧ child_devices (allocate_post h self instance r) = child_devices (h r).
Proof.
  unfold allocate_post.
  destruct (decide (r = self)) as [->|]; [done|].
  destruct (dev_type (h self)); try case_bool_decide; done.
Qed.

Lemma free_post_structure (h : store) (self r : ref) :
  dev_type (free_post h self r) = dev_type (h r)
  ∧ parent_device (free_post h self r) = parent_device (h r)
  ∧ child_devices (free_post h self r) = child_devices (h r).
Proof.
  unfold free_post, free_cascade.
  destruct (decide (r = self)) as [->|]; [done|].
  destruct (dev_type (h self)); try case_bool_decide; done.
Qed.

Lemma allocate_consistent (h h' : store) (self : ref)
    (instance instance' : Instance) :
  consistent h → allocate self instance h = (h', Ok instance') →
  consistent h'.
Proof.
  intros Hcons (Herr & Hpost & _)%allocate_ok.
  apply (consistent_step h h' self Hcons).
  - intros r. rewrite Hpost. apply allocate_post_structure.
  - rewrite Hpost. unfold allocate_post. rewrite decide_True by done.
    unfold owned. cbn. naive_solver.
  - intros r Hne. rewrite Hpost. unfold allocate_post, allocate_error in *.
    rewrite decide_False by done.
    repeat (case_bool_decide; [done|]).
    destruct (dev_type (h self)) eqn:Hty; [by auto| | |].
    + destruct (forallb _ _) eqn:Hall; [|done].
      case_bool_decide as Hin; [|by auto]. split; [done|]. right.
      split; [unfold owned; cbn; naive_solver|].
      split; [|by left].
      rewrite forallb_forall in Hall.
      apply list_elem_of_In, Hall, bool_decide_eq_true in Hin. unowned Hin.
    + case_bool_decide as Hp; [|by auto]. split; [done|]. right.
      split; [unfold owned; cbn; naive_solver|].
      rewrite Hp in Herr. case_bool_decide as Hok; [|done].
      split; [unowned Hok|]. right. split; [set_solver|done].
    + case_bool_decide as Hp; [|by auto]. split; [done|]. right.
      split; [unfold owned; cbn; naive_solver|].
      rewrite Hp in Herr. case_bool_decide as Hok; [|done].
      split; [unowned Hok|]. right. split; [set_solver|done].
  - intros _ r Hlink Hne. rewrite Hpost. unfold allocate_post.
    rewrite decide_False by done.
    destruct Hlink as [[Hty Hin] | [Hty Hp]].
    + rewrite Hty. rewrite bool_decide_true by done.
      unfold owned. cbn. naive_solver.
    + assert (dev_type (h self) = SRIOV_VF ∨ dev_type (h self) = VDPA)
        as [-> | ->] by set_solver.
      all: rewrite bool_decide_true by done.
      all: unfold owned; cbn; naive_solver.
Qed.

Lemma free_consistent (h h' : store) (self : ref)
    (instance : option Instance) (res : list ref * option Instance) :
  consistent h → free self instance h = (h', Ok res) → consistent h'.
Proof.
  intros Hcons (Herr & _ & Hpost)%free_ok.
  assert (Hself : owned (h self)).
  { apply free_error_guard in Herr. unfold free_guard_error in Herr.
    case_bool_decide as Hst; [done|].
    unfold owned.
    rewrite !elem_of_cons, elem_of_nil in Hst. naive_solver. }
  pose proof Hcons as [Hown Hexcl [Hdown Hup]].
  apply (consistent_step h h' self Hcons).
  - intros r. rewrite Hpost. apply free_post_structure.
  - rewrite Hpost. unfold free_post. rewrite decide_True by done.
    unfold owned, owner. cbn. naive_solver.
  - intros r Hne. rewrite Hpost. unfold free_post, free_cascade.
    rewrite decide_False by done.
    destruct (dev_type (h self)) eqn:Hty; [by auto| | |].
    + case_bool_decide as Hin; [|by auto]. split; [done|]. right.
      split; [unfold owned; cbn; naive_solver|].
      destruct (Hdown self r Hty Hin) as [Htr Hpr].
      split; [|by left]. intros Hr. by apply (Hexcl r self Htr Hpr).
    + case_bool_decide as Hp; [|by auto]. split; [done|]. right.
      destruct Hp as [Hp _].
      split; [unfold owned; cbn; naive_solver|].
      assert (Hts : dev_type (h self) ∈ [SRIOV_VF; VDPA])
        by (rewrite Hty; set_solver).
      split; [|by right]. intros Hr. by apply (Hexcl self r Hts Hp).
    + case_bool_decide as Hp; [|by auto]. split; [done|]. right.
      destruct Hp as [Hp _].
      split; [unfold owned; cbn; naive_solver|].
      assert (Hts : dev_type (h self) ∈ [SRIOV_VF; VDPA])
        by (rewrite Hty; set_solver).
      split; [|by right]. intros Hr. by apply (Hexcl self r Hts Hp).
  - rewrite Hpost. unfold free_post. rewrite decide_True by done.
    unfold owned. cbn. naive_solver.
Qed.

Lemma remove_consistent (h h' : store) (self : ref) :
  consistent h → remove self h = (h', Ok tt) → consistent h'.
Proof.
  intros Hcons (Herr & Hpost)%remove_ok.
  apply (consistent_step h h' self Hcons).
  - intros r. rewrite Hpost. unfold remove_post. by case_decide; subst.
  - rewrite Hpost. unfold remove_post. rewrite decide_True by done.
    unfold owned, owner. cbn. naive_solver.
  - intros r Hne. rewrite Hpost. unfold remove_post.
    rewrite decide_False by done. by auto.
  - rewrite Hpost. unfold remove_post. rewrite decide_True by done.
    unfold owned. cbn. naive_solver.
Qed.

Lemma consistent_same_view (h h' : store) :
  consistent h → same_tree h h' →
  (∀ r, status (h' r) = status (h r) ∧ owner (h' r) = owner (h r)) →
  consistent h'.
Proof.
  intros [Hown Hexcl Htree] Hsame Hview.
  assert (Howned : ∀ r, owned (h' r) ↔ owned (h r)).
  { intros r. unfold owned. by destruct (Hview r) as [-> _]. }
  split; [| |by eapply same_tree_linked].
  - intros r. rewrite Howned. destruct (Hview r) as [_ ->]. apply Hown.
  - intros c p Hty Hp. rewrite !Howned.
    destruct (Hsame c) as (Htc & Hpc & _). rewrite Htc in Hty.
    rewrite Hpc in Hp. by apply Hexcl.
Qed.

Section invariant.
Context `{Oslo}.

Lemma update_device_consistent (h : store) (self : ref)
    (dev_dict : dict pyval) :
  consistent h →
  dev_type (update_device (h self) dev_dict).1.1 = dev_type (h self) →
  consistent (upd self (update_device (h self) dev_dict).1.1 h).
Proof.
  intros Hcons Hty.
  destruct (update_device_frame (h self) dev_dict)
    as (Hst & Hiu & Hp & Hc & _).
  apply (consistent_same_view h); [done| |].
  - intros r. by at_ref r self.
  - intros r. at_ref r self; [|done]. unfold owner. by rewrite Hst, Hiu.
Qed.

Lemma run_call_consistent (c : call) (h h' : store) :
  consistent h →
  match c with
  | call_update_device self dev_dict =>
      dev_type (update_device (h self) dev_dict).1.1 = dev_type (h self)
  | _ => True
  end →
  run_call c h = (h', Ok tt) → consistent h'.
Proof.
  intros Hcons Hkeep. destruct c as [self u|self i|self i|self|self dd];
    cbn [run_call].
  - by apply claim_consistent.
  - destruct (allocate self i h) as [h1 [i'|e]] eqn:Hrun; intros [= <-].
    by eapply allocate_consistent.
  - destruct (free self i h) as [h1 [res|e]] eqn:Hrun; intros [= <-].
    by eapply free_consistent.
  - by apply remove_consistent.
  - pose proof (update_device_consistent h self dd Hcons Hkeep) as Hc.
    destruct (update_device (h self) dd) as [[dev dd'] r].
    by intros [= <- _].
Qed.

Lemma run_calls_consistent (cs : list call) (h h' : store) :
  consistent h → keeps_dev_type cs h → run_calls cs h = Some h' →
  consistent h'.
Proof.
  revert h. induction cs as [|c rest IH]; intros h Hcons Hkeep Hrun.
  - by injection Hrun as <-.
  - cbn [run_calls keeps_dev_type] in *. destruct Hkeep as [Hk Hkeep].
    destruct (run_call c h) as [h1 [[]|e]] eqn:Hc; [|done].
    apply (IH h1); [|done|done]. by eapply run_call_consistent.
Qed.

Lemma fresh_consistent (h : store) :
  fresh h → tree_linked h → consistent h.
Proof.
  intros Hfresh Htree.
  assert (Hno : ∀ r, ¬ owned (h r)).
  { intros r [Hs | Hs]; destruct (Hfresh r) as [Hav _]; congruence. }
  split; [|naive_solver|done].
  intros r. destruct (Hfresh r) as [_ Ho]. naive_solver.
Qed.

(** C1, as the code has it.  On a device tree linked as section 3 says,
    starting from devices that are all AVAILABLE with no owner, after any
    sequence of [claim], [allocate], [free], [remove] and [update_device]
    calls that complete without raising and in which no [update_device]
    changes a [dev_type], every device has a non-null [instance_uuid]
    exactly when its status is CLAIMED or ALLOCATED. *)
Theorem owner_iff_owned_status (cs : list call) (h0 h : store) :
  fresh h0 → tree_linked h0 →
  keeps_dev_type cs h0 →
  run_calls cs h0 = Some h →
  ∀ r, owner (h r) ≠ None
       ↔ status (h r) = CLAIMED ∨ status (h r) = ALLOCATED.
Proof.
  intros Hfresh Htree Hkeep Hrun.
  apply (run_calls_consistent cs h0 h); [|done|done].
  by apply fresh_consistent.
Qed.
End invariant.

Lemma pf_two_vfs_fresh : fresh pf_two_vfs.
Proof. intros r. by destruct r as [|[|[|r]]]. Qed.

Lemma pf_two_vfs_linked : tree_linked pf_two_vfs.
Proof.
  split.
  - intros p c Hty Hc. destruct p as [|[|[|p]]]; try discriminate Hty.
    change (c ∈ [1; 2]) in Hc.
    rewrite !elem_of_cons, elem_of_nil in Hc.
    destruct Hc as [-> | [-> | []]]; (split; [cbn; set_solver|done]).
  - intros c p Hty Hp.
    destruct c as [|[|[|c]]]; cbn in Hty, Hp;
      rewrite ?elem_of_cons, ?elem_of_nil in Hty; try naive_solver.
    all: injection Hp as <-; (split; [done|cbn; set_solver]).
Qed.

Lemma owner_iff_owned_status_witness :
  ∃ h, run_calls (H := reference_oslo) scenario_calls pf_two_vfs = Some h
       ∧ (owner (h 1) ≠ None
          ↔ status (h 1) = CLAIMED ∨ status (h 1) = ALLOCATED)
       ∧ (owner (h 0) ≠ None
          ↔ status (h 0) = CLAIMED ∨ status (h 0) = ALLOCATED).
Proof.
  eexists. split; [reflexivity|].
  split.
  all: apply (owner_iff_owned_status (H := reference_oslo) scenario_calls
                pf_two_vfs _ pf_two_vfs_fresh pf_two_vfs_linked);
    [by vm_compute | reflexivity].
Defined.

(** C1 as stated fails: starting from the fresh, linked tree [pf_two_vfs],
    the six calls of [retyping_calls] all complete without raising and leave
    the first VF AVAILABLE with "inst-b" still recorded as its owner. *)
Lemma retyping_breaks_owner_invariant :
  fresh pf_two_vfs ∧ tree_linked pf_two_vfs
  ∧ match run_calls (H := reference_oslo) retyping_calls pf_two_vfs with
    | Some h => owner (h 1) = Some "inst-b" ∧ status (h 1) = AVAILABLE
    | None => False
    end.
Proof.
  split; [exact pf_two_vfs_fresh|]. split; [exact pf_two_vfs_linked|].
  by vm_compute.
Qed.

(** ** obj_make_compatible *)

Lemma version_lt_1_4 (v : list nat) :
  version_lt v [1; 4] = true →
  version_lt v [1; 5] = true ∧ version_lt v [1; 6] = true
  ∧ version_lt v [1; 7] = true.
Proof.
  destruct v as [|x [|y v]]; cbn; [done| |].
  - by repeat case_bool_decide.
  - repeat case_bool_decide; try done; try lia.
    all: by destruct v.
Qed.

Lemma version_lt_not_1_4 (v : list nat) :
  version_lt v [1; 4] = false → version_lt v [1; 2] = false.
Proof.
  destruct v as [|x [|y v]]; cbn; [done| |].
  - by repeat case_bool_decide.
  - repeat case_bool_decide; try done; try lia.
Qed.

Section compat_facts.
Context `{Oslo}.

(** For a target older than 1.4 the status is never looked at: whatever the
    primitive carries under [status], [obj_make_compatible] does not raise
    [ObjectActionError] unless the device type is the one 1.7 added. *)
Lemma obj_make_compatible_old_target_skips_status (primitive : dict pyval)
    (target_version : string) (v : list nat) :
  convert_version_to_tuple target_version = Ok v →
  version_lt v [1; 4] = true →
  dict_get "dev_type" primitive ≠ Some (PyStr "vdpa") →
  (obj_make_compatible primitive target_version).2 ≠ Raise ObjectActionError.
Proof.
  intros Hv Hlt Hty. unfold obj_make_compatible, raise_on_too_new_values.
  rewrite Hv, Hlt. destruct (version_lt_1_4 v Hlt) as (-> & -> & ->).
  cbv zeta. cbn [andb].
  destruct (version_lt v [1; 2] && dict_has "request_id" primitive).
  all: repeat first
    [ progress
        (rewrite ?dict_has_del, ?dict_get_del, ?dict_get_set;
         rewrite ?decide_True, ?decide_False by done; cbn [andb snd fst])
    | match goal with
      | |- context [if dict_has ?k ?p then _ else _] =>
          destruct (dict_has k p) eqn:?
      end
    | match goal with
      | |- context [match dict_get ?k ?p with _ => _ end] =>
          destruct (dict_get k p) as [[]|] eqn:?
      end
    | done ].
  all: case_bool_decide as Hs; [|done].
  all: by apply list_elem_of_singleton in Hs as ->.
Qed.

(** For a target from 1.4 up to, not including, 1.5 the status is checked
    when the primitive carries [parent_addr]: one of the two statuses 1.5
    added raises [ObjectActionError]. *)
Lemma obj_make_compatible_1_4_checks_status (primitive : dict pyval)
    (target_version : string) (v : list nat) (s : string) :
  convert_version_to_tuple target_version = Ok v →
  version_lt v [1; 4] = false →
  version_lt v [1; 5] = true →
  dict_has "parent_addr" primitive = true →
  dict_get "status" primitive = Some (PyStr s) →
  s ∈ ["unclaimable"; "unavailable"] →
  obj_make_compatible primitive target_version
  = (primitive, Raise ObjectActionError).
Proof.
  intros Hv H14 H15 Hpa Hst Hs.
  unfold obj_make_compatible, raise_on_too_new_values.
  rewrite Hv, H14, H15, (version_lt_not_1_4 v H14). cbv zeta. cbn [andb].
  rewrite Hpa, Hst. by rewrite bool_decide_true.
Qed.
End compat_facts.

(** C8 fails on the code.  The status check is guarded by the presence of
    [parent_addr], which a target older than 1.4 has just lost: for target
    1.3 the primitive of an UNCLAIMABLE device is returned with its status,
    no error.  For target 1.4 the error is raised when [parent_addr] is
    present, and not raised when it is absent. *)
Lemma obj_make_compatible_emits_new_status :
  (obj_make_compatible (H := reference_oslo) unclaimable_primitive "1.3").2
  = Ok tt
  ∧ dict_get "status"
      (obj_make_compatible (H := reference_oslo)
         unclaimable_primitive "1.3").1
    = Some (PyStr "unclaimable")
  ∧ (obj_make_compatible (H := reference_oslo)
       unclaimable_primitive_no_parent "1.4").2
    = Ok tt
  ∧ (obj_make_compatible (H := reference_oslo) unclaimable_primitive "1.4").2
    = Raise ObjectActionError.
Proof. by vm_compute. Qed.

(** ** Accessors over extra_info *)

Section accessors.
Context `{Oslo}.

(** C9, as the code has it.  Without a [capabilities] entry the three
    accessors return their defaults.  With an entry that decodes to an
    object, [sriov_cap] and [network_caps] return what the object holds
    under their key (the default when the key is missing);
    [card_serial_number] returns [None] when the object has no [vpd] key,
    what the [vpd] object holds under [card_serial_number] ([None] when the
    key is missing) when [vpd] holds an object, and raises [AttributeError]
    when [vpd] holds anything else.  An entry the decoder refuses makes each
    of the three raise the decoder's exception, and an entry that decodes to
    anything but an object makes each of them raise [AttributeError]. *)
Theorem accessors_on_capabilities (self : PciDevice) :
  (extra_info self !! "capabilities" = None →
     card_serial_number self = Ok PyNone
     ∧ sriov_cap self = Ok (PyDict [])
     ∧ network_caps self = Ok (PyList []))
  ∧ (∀ text caps,
       extra_info self !! "capabilities" = Some text →
       loads text = Ok (PyDict caps) →
       sriov_cap self = Ok (default (PyDict []) (dict_get "sriov" caps))
       ∧ network_caps self
         = Ok (default (PyList []) (dict_get "network" caps))
       ∧ (dict_get "vpd" caps = None → card_serial_number self = Ok PyNone)
       ∧ (∀ vpd, dict_get "vpd" caps = Some (PyDict vpd) →
                 card_serial_number self
                 = Ok (default PyNone (dict_get "card_serial_number" vpd)))
       ∧ (∀ v, dict_get "vpd" caps = Some v → (∀ d, v ≠ PyDict d) →
               card_serial_number self = Raise AttributeError))
  ∧ (∀ text e,
       extra_info self !! "capabilities" = Some text →
       loads text = Raise e →
       card_serial_number self = Raise e
       ∧ sriov_cap self = Raise e
       ∧ network_caps self = Raise e)
  ∧ (∀ text caps,
       extra_info self !! "capabilities" = Some text →
       loads text = Ok caps →
       (∀ d, caps ≠ PyDict d) →
       card_serial_number self = Raise AttributeError
       ∧ sriov_cap self = Raise AttributeError
       ∧ network_caps self = Raise AttributeError).
Proof.
  unfold card_serial_number, sriov_cap, network_caps.
  split; [|split; [|split]].
  - intros ->. cbn. by rewrite loads_empty_object.
  - intros text caps -> Hl. cbn. rewrite Hl. cbn.
    split; [done|]. split; [done|]. split; [|split].
    + by intros ->.
    + by intros vpd ->.
    + intros v -> Hnd. cbn. destruct v; try done. by destruct (Hnd d).
  - intros text e -> Hl. cbn. by rewrite Hl.
  - intros text caps -> Hl Hnd. cbn. rewrite Hl. cbn.
    destruct caps; try done. by destruct (Hnd d).
Qed.
End accessors.

Lemma accessors_on_capabilities_witness :
  (card_serial_number (H := reference_oslo) caps_missing = Ok PyNone
   ∧ sriov_cap (H := reference_oslo) caps_missing = Ok (PyDict [])
   ∧ network_caps (H := reference_oslo) caps_missing = Ok (PyList []))
  ∧ network_caps (H := reference_oslo) caps_network
    = Ok (PyList [PyStr "rx"; PyStr "tx"])
  ∧ card_serial_number (H := reference_oslo) caps_network = Ok PyNone
  ∧ card_serial_number (H := reference_oslo) caps_vpd
    = Ok (PyStr "MT2113X00000")
  ∧ card_serial_number (H := reference_oslo) caps_vpd_null
    = Raise AttributeError.
Proof.
  pose proof (accessors_on_capabilities (H := reference_oslo) caps_missing)
    as (Hmissing & _).
  pose proof (accessors_on_capabilities (H := reference_oslo) caps_network)
    as (_ & Hnetwork & _).
  pose proof (accessors_on_capabilities (H := reference_oslo) caps_vpd)
    as (_ & Hvpd & _).
  pose proof (accessors_on_capabilities (H := reference_oslo) caps_vpd_null)
    as (_ & Hnull & _).
  split; [by apply Hmissing|].
  destruct (Hnetwork caps_network_text
              [("network", PyList [PyStr "rx"; PyStr "tx"])])
    as (_ & Hnet & Hnone & _); [done|by vm_compute|].
  split; [exact Hnet|]. split; [by apply Hnone|].
  destruct (Hvpd caps_vpd_text
              [("vpd", PyDict [("card_serial_number",
                                PyStr "MT2113X00000")])])
    as (_ & _ & _ & Hserial & _); [done|by vm_compute|].
  split; [by apply (Hserial [("card_serial_number", PyStr "MT2113X00000")])|].
  destruct (Hnull caps_vpd_null_text [("vpd", PyNone)])
    as (_ & _ & _ & _ & Hraise); [done|by vm_compute|].
  by apply (Hraise PyNone).
Defined.

(** C9 as stated fails: a [capabilities] entry that is not JSON makes the
    three accessors raise [ValueError], one that is JSON but not an object
    makes them raise [AttributeError], and one that is an object holding
    [null] under [vpd] makes [card_serial_number] raise [AttributeError]
    while the two others return their defaults. *)
Lemma accessors_raise_on_malformed_capabilities :
  (card_serial_number (H := reference_oslo) caps_not_json = Raise ValueError
   ∧ sriov_cap (H := reference_oslo) caps_not_json = Raise ValueError
   ∧ network_caps (H := reference_oslo) caps_not_json = Raise ValueError)
  ∧ (card_serial_number (H := reference_oslo) caps_json_list
     = Raise AttributeError
     ∧ sriov_cap (H := reference_oslo) caps_json_list = Raise AttributeError
     ∧ network_caps (H := reference_oslo) caps_json_list
       = Raise AttributeError)
  ∧ (card_serial_number (H := reference_oslo) caps_vpd_null
     = Raise AttributeError
     ∧ sriov_cap (H := reference_oslo) caps_vpd_null = Ok (PyDict [])
     ∧ network_caps (H := reference_oslo) caps_vpd_null = Ok (PyList [])).
Proof. by vm_compute. Qed.

(** * Further properties of the engine

    Contracts of [claim], [allocate], [remove] and [free] beyond the ones
    above, their frames, and how the calls compose. *)

(** ** The store a call leaves *)

Lemma claim_store (h : store) (self : ref) (u : string) (r : ref) :
  (claim self u h).1 r
  = match claim_error h self with
    | Some _ => h r
    | None => claim_post h self u r
    end.
Proof.
  pose proof (claim_run h self u) as Hrun.
  destruct (claim_error h self); [by rewrite Hrun|].
  destruct Hrun as (h' & -> & Hpost). apply Hpost.
Qed.

Lemma allocate_store (h : store) (self : ref) (instance : Instance)
    (r : ref) :
  (allocate self instance h).1 r
  = match allocate_error h self instance with
    | Some _ => h r
    | None => allocate_post h self instance r
    end.
Proof.
  pose proof (allocate_run h self instance) as Hrun.
  destruct (allocate_error h self instance); [by rewrite Hrun|].
  destruct Hrun as (h' & -> & Hpost). apply Hpost.
Qed.

Lemma remove_store (h : store) (self : ref) (r : ref) :
  (remove self h).1 r
  = match remove_error h self with
    | Some _ => h r
    | None => remove_post h self r
    end.
Proof.
  pose proof (remove_run h self) as Hrun.
  destruct (remove_error h self); [by rewrite Hrun|].
  destruct Hrun as (h' & -> & Hpost). apply Hpost.
Qed.

Lemma free_store (h : store) (self : ref) (instance : option Instance)
    (r : ref) :
  (free self instance h).1 r
  = match free_error h self instance with
    | Some _ => h r
    | None => free_post h self r
    end.
Proof.
  pose proof (free_run h self instance) as Hrun.
  destruct (free_error h self instance); [by rewrite Hrun|].
  destruct Hrun as (h' & -> & Hpost). apply Hpost.
Qed.

Lemma set_status_same (d : PciDevice) : set_status (status d) d = d.
Proof. by destruct d. Qed.

Lemma differ_in_status_only_refl (d : PciDevice) : differ_in_status_only d d.
Proof. unfold differ_in_status_only. by destruct d. Qed.

Lemma differ_in_status_only_set (s : PciDeviceStatus) (d : PciDevice) :
  differ_in_status_only d (set_status s d).
Proof. done. Qed.

Lemma differ_in_allocation_only_refl (d : PciDevice) :
  differ_in_allocation_only d d.
Proof. unfold differ_in_allocation_only. by destruct d. Qed.

Lemma not_linked_claim_post (h : store) (self r : ref) (u : string) :
  r ≠ self → ¬ linked h self r → claim_post h self u r = h r.
Proof.
  intros Hne Hl. unfold claim_post. rewrite decide_False by done.
  unfold linked in Hl.
  destruct (dev_type (h self)) eqn:Hty; [done|..].
  all: case_bool_decide; [|done].
  all: exfalso; apply Hl; set_solver.
Qed.

Lemma not_linked_allocate_post (h : store) (self r : ref) (i : Instance) :
  r ≠ self → ¬ linked h self r → allocate_post h self i r = h r.
Proof.
  intros Hne Hl. unfold allocate_post. rewrite decide_False by done.
  unfold linked in Hl.
  destruct (dev_type (h self)) eqn:Hty; [done|..].
  all: case_bool_decide; [|done].
  all: exfalso; apply Hl; set_solver.
Qed.

Lemma not_linked_free_post (h : store) (self r : ref) :
  r ≠ self → ¬ linked h self r → free_post h self r = h r.
Proof.
  intros Hne Hl. unfold free_post, free_cascade.
  rewrite decide_False by done.
  unfold linked in Hl.
  destruct (dev_type (h self)) eqn:Hty; [done|..].
  all: case_bool_decide; [|done].
  all: exfalso; apply Hl; set_solver.
Qed.

Lemma claim_post_status_only (h : store) (self r : ref) (u : string) :
  r ≠ self → differ_in_status_only (h r) (claim_post h self u r).
Proof.
  intros Hne. unfold claim_post. rewrite decide_False by done.
  destruct (dev_type (h self)); try case_bool_decide;
    auto using differ_in_status_only_refl, differ_in_status_only_set.
Qed.

Lemma allocate_post_status_only (h : store) (self r : ref) (i : Instance) :
  r ≠ self → differ_in_status_only (h r) (allocate_post h self i r).
Proof.
  intros Hne. unfold allocate_post. rewrite decide_False by done.
  destruct (dev_type (h self)); try case_bool_decide;
    auto using differ_in_status_only_refl, differ_in_status_only_set.
Qed.

Lemma free_post_status_only (h : store) (self r : ref) :
  r ≠ self → differ_in_status_only (h r) (free_post h self r).
Proof.
  intros Hne. unfold free_post. rewrite decide_False by done.
  destruct (free_cascade_frame h self r) as [-> | ->];
    auto using differ_in_status_only_refl, differ_in_status_only_set.
Qed.

(** X1.  The engine's calls change allocation state only: whatever [claim],
    [allocate], [free] or [remove] does, and whether it returns or raises,
    the device differs from what it was in status, owner and request at most,
    a device tied to it by the tree in its status at most, and every other
    device not at all. *)
Theorem engine_frame (h h' : store) (self : ref) :
  (∃ u, h' = (claim self u h).1)
  ∨ (∃ instance, h' = (allocate self instance h).1)
  ∨ (∃ instance, h' = (free self instance h).1)
  ∨ h' = (remove self h).1 →
  differ_in_allocation_only (h self) (h' self)
  ∧ (∀ r, r ≠ self → differ_in_status_only (h r) (h' r))
  ∧ (∀ r, r ≠ self → ¬ linked h self r → h' r = h r).
Proof.
  intros [[u ->] | [[i ->] | [[i ->] | ->]]].
  - split; [|split]; [|intros r Hne..]; rewrite !claim_store;
      destruct (claim_error h self);
      auto using differ_in_allocation_only_refl, differ_in_status_only_refl,
        claim_post_status_only, not_linked_claim_post.
    unfold claim_post. rewrite decide_True by done. done.
  - split; [|split]; [|intros r Hne..]; rewrite !allocate_store;
      destruct (allocate_error h self i);
      auto using differ_in_allocation_only_refl, differ_in_status_only_refl,
        allocate_post_status_only, not_linked_allocate_post.
    unfold allocate_post. rewrite decide_True by done. done.
  - split; [|split]; [|intros r Hne..]; rewrite !free_store;
      destruct (free_error h self i);
      auto using differ_in_allocation_only_refl, differ_in_status_only_refl,
        free_post_status_only, not_linked_free_post.
    unfold free_post. rewrite decide_True by done. done.
  - split; [|split]; [|intros r Hne..]; rewrite !remove_store;
      destruct (remove_error h self);
      auto using differ_in_allocation_only_refl, differ_in_status_only_refl.
    + unfold remove_post. rewrite decide_True by done. done.
    + unfold remove_post. rewrite decide_False by done.
      apply differ_in_status_only_refl.
    + intros _. unfold remove_post. by rewrite decide_False.
Qed.

Lemma engine_frame_witness :
  differ_in_allocation_only (pf_two_vfs 1) ((claim 1 "inst-a" pf_two_vfs).1 1)
  ∧ differ_in_status_only (pf_two_vfs 0) ((claim 1 "inst-a" pf_two_vfs).1 0)
  ∧ (claim 1 "inst-a" pf_two_vfs).1 2 = pf_two_vfs 2.
Proof.
  destruct (engine_frame pf_two_vfs (claim 1 "inst-a" pf_two_vfs).1 1)
    as (Hself & Hst & Hframe).
  - left. by exists "inst-a".
  - split; [exact Hself|]. split; [by apply Hst|].
    apply Hframe; [done|].
    intros [[Hty _] | [_ Hp]]; discriminate.
Defined.


(** ** claim on a PF and on a VF *)

Lemma claim_tolerates_spec (h : store) (l : list ref) :
  claim_tolerates h l = true
  ↔ ∀ c, c ∈ l → status (h c) ∈ [AVAILABLE; UNCLAIMABLE; UNAVAILABLE].
Proof.
  unfold claim_tolerates. rewrite forallb_forall. split.
  - intros Hall c Hc%list_elem_of_In.
    eapply bool_decide_eq_true_1, Hall, Hc.
  - intros Hall c Hc%list_elem_of_In. by apply bool_decide_eq_true_2, Hall.
Qed.

(** X2.  [claim] on a PF.  An AVAILABLE PF can be claimed exactly when each
    of its children is AVAILABLE, UNCLAIMABLE or UNAVAILABLE; a child in any
    other status makes the claim raise [PciDeviceVFInvalidStatus].  A claim
    that goes through leaves the PF CLAIMED and every child UNCLAIMABLE, and
    touches no other device. *)
Theorem claim_pf_children_contract (h : store) (self : ref) (u : string) :
  status (h self) = AVAILABLE →
  dev_type (h self) = SRIOV_PF →
  ((claim self u h).2 = Raise PciDeviceVFInvalidStatus
   ↔ ∃ c, c ∈ child_devices (h self)
          ∧ status (h c) ∉ [AVAILABLE; UNCLAIMABLE; UNAVAILABLE])
  ∧ ((∀ c, c ∈ child_devices (h self) →
           status (h c) ∈ [AVAILABLE; UNCLAIMABLE; UNAVAILABLE]) →
     ∃ h', claim self u h = (h', Ok tt)
           ∧ status (h' self) = CLAIMED
           ∧ (∀ c, c ∈ child_devices (h self) → c ≠ self →
                   status (h' c) = UNCLAIMABLE)
           ∧ (∀ r, r ≠ self → r ∉ child_devices (h self) → h' r = h r)).
Proof.
  intros Hst Hty.
  pose proof (claim_run h self u) as Hrun.
  pose proof (claim_tolerates_spec h (child_devices (h self))) as Htol.
  assert (Herr : claim_error h self
                 = if claim_tolerates h (child_devices (h self))
                   then None else Some PciDeviceVFInvalidStatus).
  { unfold claim_error. rewrite Hty, bool_decide_false by naive_solver.
    done. }
  split.
  - rewrite claim_raises, Herr.
    destruct (claim_tolerates h (child_devices (h self))).
    + split; [done|]. intros (c & Hc & Hbad). exfalso.
      by apply Hbad, Htol.
    + split; [|done]. intros _.
      destruct (decide (Exists
                          (λ c, status (h c)
                                ∉ [AVAILABLE; UNCLAIMABLE; UNAVAILABLE])
                          (child_devices (h self)))) as [Hex|Hno].
      * apply Exists_exists in Hex. naive_solver.
      * exfalso. apply not_Exists_Forall in Hno; [|intros ?; apply _].
        rewrite Forall_forall in Hno.
        assert (false = true) as [=]. apply Htol. intros c Hc.
        apply Hno in Hc. by apply dec_stable.
  - intros Hall. apply Htol in Hall. rewrite Herr, Hall in Hrun.
    destruct Hrun as (h' & Hr & Hpost). exists h'. split; [done|].
    split; [|split].
    + rewrite Hpost. unfold claim_post. by rewrite decide_True.
    + intros c Hc Hne. rewrite Hpost. unfold claim_post.
      rewrite decide_False, Hty by done. by rewrite bool_decide_true.
    + intros r Hne Hnc. rewrite Hpost. unfold claim_post.
      rewrite decide_False, Hty by done. by rewrite bool_decide_false.
Qed.

Lemma claim_pf_children_contract_witness :
  ∃ h', claim 0 "inst-a" pf_inconsistent_vf = (h', Ok tt)
        ∧ status (h' 0) = CLAIMED
        ∧ status (h' 1) = UNCLAIMABLE
        ∧ status (h' 2) = UNCLAIMABLE.
Proof.
  destruct (claim_pf_children_contract pf_inconsistent_vf 0 "inst-a"
              eq_refl eq_refl) as [_ Hok].
  destruct Hok as (h' & Hr & Hself & Hkids & _).
  - intros c Hc. change (c ∈ [1; 2]) in Hc.
    assert (c = 1 ∨ c = 2) as [-> | ->] by set_solver; cbn; set_solver.
  - exists h'. split; [exact Hr|]. split; [exact Hself|].
    split; apply Hkids; cbn; set_solver.
Defined.

(** X3.  [claim] on a VF or vDPA device whose parent is resolved.  The claim
    of an AVAILABLE device raises [PciDevicePFInvalidStatus] exactly when the
    parent is not AVAILABLE, UNCLAIMABLE or UNAVAILABLE.  Otherwise it goes
    through: an AVAILABLE parent becomes UNCLAIMABLE, a parent that is
    already UNCLAIMABLE or UNAVAILABLE keeps its status, and no device
    besides the two changes. *)
Theorem claim_vf_parent_contract (h : store) (self parent : ref)
    (u : string) :
  status (h self) = AVAILABLE →
  dev_type (h self) ∈ [SRIOV_VF; VDPA] →
  parent_device (h self) = Some parent →
  parent ≠ self →
  ((claim self u h).2 = Raise PciDevicePFInvalidStatus
   ↔ status (h parent) ∉ [AVAILABLE; UNCLAIMABLE; UNAVAILABLE])
  ∧ (status (h parent) ∈ [AVAILABLE; UNCLAIMABLE; UNAVAILABLE] →
     ∃ h', claim self u h = (h', Ok tt)
           ∧ status (h' self) = CLAIMED
           ∧ status (h' parent)
             = (if bool_decide (status (h parent) = AVAILABLE)
                then UNCLAIMABLE else status (h parent))
           ∧ (∀ r, r ≠ self → r ≠ parent → h' r = h r)).
Proof.
  intros Hst Hty Hp Hne.
  pose proof (claim_run h self u) as Hrun.
  assert (Herr : claim_error h self
                 = if bool_decide (status (h parent)
                                     ∈ [AVAILABLE; UNCLAIMABLE; UNAVAILABLE])
                   then None else Some PciDevicePFInvalidStatus).
  { unfold claim_error. rewrite Hp, bool_decide_false by naive_solver.
    by destruct (dev_type (h self)); try set_solver. }
  split.
  - rewrite claim_raises, Herr. case_bool_decide; naive_solver.
  - intros Hok. rewrite Herr, bool_decide_true in Hrun by done.
    destruct Hrun as (h' & Hr & Hpost). exists h'. split; [done|].
    rewrite !Hpost. unfold claim_post.
    rewrite decide_True, decide_False, Hp by done.
    assert (dev_type (h self) = SRIOV_VF ∨ dev_type (h self) = VDPA)
      as [Hty' | Hty'] by set_solver.
    all: rewrite Hty'.
    all: split; [done|]; split.
    all: try (intros r Hr1 Hr2; rewrite Hpost; unfold claim_post;
              rewrite decide_False, Hty', Hp by done;
              by rewrite bool_decide_false by naive_solver).
    all: destruct (decide (status (h parent) = AVAILABLE)); simpl_bd; done.
Qed.

Lemma claim_vf_parent_contract_witness :
  ∃ h', claim 1 "inst-a" pf_two_vfs = (h', Ok tt)
        ∧ status (h' 1) = CLAIMED
        ∧ status (h' 0) = UNCLAIMABLE
        ∧ h' 2 = pf_two_vfs 2.
Proof.
  destruct (claim_vf_parent_contract pf_two_vfs 1 0 "inst-a")
    as [_ Hok].
  - reflexivity.
  - cbn. set_solver.
  - reflexivity.
  - done.
  - destruct Hok as (h' & Hr & Hself & Hparent & Hframe).
    + cbn. set_solver.
    + exists h'. split; [exact Hr|]. split; [exact Hself|].
      split; [exact Hparent|]. by apply Hframe.
Defined.


(** ** The guards of allocate and free *)

(** X4.  The two guards of [allocate].  It raises [PciDeviceInvalidStatus]
    exactly when the device is neither AVAILABLE nor CLAIMED.  On a CLAIMED
    device whose owner is recorded it raises [PciDeviceInvalidOwner] exactly
    when the owner is not the instance.  The owner is looked at on a CLAIMED
    device only: on an AVAILABLE device the call never raises
    [PciDeviceInvalidOwner], whatever owner the record still carries. *)
Theorem allocate_guards (h : store) (self : ref) (instance : Instance) :
  ((allocate self instance h).2 = Raise PciDeviceInvalidStatus
   ↔ status (h self) ∉ [AVAILABLE; CLAIMED])
  ∧ (∀ o, status (h self) = CLAIMED → instance_uuid (h self) = Val o →
       ((allocate self instance h).2 = Raise PciDeviceInvalidOwner
        ↔ o ≠ Some (inst_uuid instance)))
  ∧ (status (h self) = AVAILABLE →
     (allocate self instance h).2 ≠ Raise PciDeviceInvalidOwner).
Proof.
  split; [|split].
  - rewrite allocate_raises. unfold allocate_error.
    case_bool_decide as Hst; [done|]. split; [|done].
    repeat case_match; congruence.
  - intros o Hst Ho. rewrite allocate_raises. unfold allocate_error, owner.
    rewrite Hst, Ho. eval_closed. cbn beta iota.
    case_bool_decide as Hown.
    + naive_solver.
    + split; [|naive_solver]. repeat case_match; congruence.
  - intros Hst. rewrite allocate_raises. unfold allocate_error.
    rewrite Hst. eval_closed. cbn beta iota.
    repeat case_match; congruence.
Qed.

Lemma allocate_guards_witness :
  ((allocate 1 {| inst_uuid := "inst-b"; inst_pci_devices := None |}
      vf_claimed).2 = Raise PciDeviceInvalidOwner)
  ∧ "inst-a" ≠ "inst-b".
Proof.
  split; [|done].
  apply (proj1 (proj2 (allocate_guards vf_claimed 1
                         {| inst_uuid := "inst-b";
                            inst_pci_devices := None |}))
           (Some "inst-a") eq_refl eq_refl).
  done.
Defined.

(** The exceptions of [free]: those it raises before it writes, and those of
    the search in the instance's collection. *)
Lemma free_error_cases (h : store) (self : ref)
    (instance : option Instance) (e : exn) :
  free_error h self instance = Some e →
  e ∈ [PciDeviceInvalidStatus; PciDeviceInvalidOwner; NotImplementedError].
Proof.
  unfold free_error, free_guard_error.
  repeat case_match; intros; simplify_eq; set_solver.
Qed.

Lemma free_error_after_guards (h : store) (self : ref)
    (instance : option Instance) (e : exn) :
  free_guard_error h self instance = None →
  free_error h self instance = Some e → e = NotImplementedError.
Proof.
  unfold free_error. intros ->. repeat case_match; naive_solver.
Qed.

Lemma first_with_id_raises (self_id : attr Z) (devs : list PciDevice)
    (e : exn) :
  first_with_id self_id devs = Raise e →
  e = StopIteration ∨ e = NotImplementedError.
Proof.
  induction devs as [|dev rest IH]; cbn.
  - intros [= <-]. by left.
  - destruct (id dev), self_id; try (intros [= <-]; by right).
    case_bool_decide; [discriminate|exact IH].
Qed.

Lemma free_result_raises (h : store) (self : ref)
    (instance : option Instance) (e : exn) :
  free_result h self instance = Raise e →
  (e = KeyError ∨ e = StopIteration ∨ e = NotImplementedError)
  ∧ status (h self) = ALLOCATED ∧ instance ≠ None.
Proof.
  unfold free_result. destruct instance as [inst|]; [|done].
  case_bool_decide as Hold; [|done].
  apply free_cascade_status_self in Hold.
  destruct (inst_pci_devices inst) as [devs|]; [|naive_solver].
  intros Hr. split; [|done].
  destruct (first_with_id (id (h self)) devs) as [existed|d] eqn:Hfind;
    [discriminate Hr|].
  cbn in Hr. injection Hr as <-. apply first_with_id_raises in Hfind.
  naive_solver.
Qed.

(** [free] raises what its guards raise, or else the exception of an id
    that is not set, or one of the search. *)
Lemma free_guard_raises (h : store) (self : ref)
    (instance : option Instance) (e : exn) :
  free_guard_error h self instance = Some e →
  (free self instance h).2 = Raise e.
Proof.
  intros Hg. pose proof (free_run h self instance) as Hrun.
  unfold free_error in Hrun. rewrite Hg in Hrun. by rewrite Hrun.
Qed.

Lemma free_raises_cases (h : store) (self : ref)
    (instance : option Instance) (e : exn) :
  (free self instance h).2 = Raise e →
  free_guard_error h self instance = Some e
  ∨ (free_guard_error h self instance = None
     ∧ e ∈ [NotImplementedError; KeyError; StopIteration]).
Proof.
  pose proof (free_run h self instance) as Hrun.
  destruct (free_error h self instance) as [e'|] eqn:Herr.
  - rewrite Hrun. cbn. intros [= ->].
    destruct (free_guard_error h self instance) as [g|] eqn:Hg.
    + left. unfold free_error in Herr. by rewrite Hg in Herr.
    + right. split; [done|].
      rewrite (free_error_after_guards _ _ _ _ Hg Herr). set_solver.
  - destruct Hrun as (h' & -> & _). cbn. intros Hr. right.
    split; [by apply free_error_guard|].
    apply free_result_raises in Hr as ([-> | [-> | ->]] & _); set_solver.
Qed.

(** X5.  The two guards of [free].  It raises [PciDeviceInvalidStatus]
    exactly when the device is neither ALLOCATED nor CLAIMED.  With an
    instance supplied and an owner recorded it raises [PciDeviceInvalidOwner]
    exactly when the owner is not the instance; with no instance supplied the
    owner is not looked at. *)
Theorem free_guards (h : store) (self : ref) (instance : option Instance) :
  ((free self instance h).2 = Raise PciDeviceInvalidStatus
   ↔ status (h self) ∉ [ALLOCATED; CLAIMED])
  ∧ (∀ inst o, instance = Some inst →
       status (h self) ∈ [ALLOCATED; CLAIMED] →
       instance_uuid (h self) = Val o →
       ((free self instance h).2 = Raise PciDeviceInvalidOwner
        ↔ o ≠ Some (inst_uuid inst)))
  ∧ (instance = None →
     (free self instance h).2 ≠ Raise PciDeviceInvalidOwner).
Proof.
  pose proof (free_raises_cases h self instance) as Hcases.
  pose proof (free_guard_raises h self instance) as Hguard.
  split; [|split].
  - split.
    + intros [Hg | [_ He]]%Hcases; [|set_solver].
      unfold free_guard_error in Hg.
      case_bool_decide as Hst; [done|]. exfalso.
      destruct instance as [inst|]; [|discriminate Hg].
      repeat case_bool_decide; discriminate Hg.
    + intros Hst. apply Hguard. unfold free_guard_error.
      by rewrite bool_decide_true.
  - intros inst o -> Hst Ho.
    assert (Hg : free_guard_error h self (Some inst)
                 = if bool_decide (o ≠ Some (inst_uuid inst))
                   then Some PciDeviceInvalidOwner else None).
    { unfold free_guard_error, owner. rewrite Ho.
      rewrite bool_decide_false by naive_solver.
      by rewrite (bool_decide_false (Val o = Unset)). }
    split.
    + intros [Hg' | [_ He]]%Hcases; [|set_solver].
      rewrite Hg in Hg'. by case_bool_decide.
    + intros Hne. apply Hguard. rewrite Hg. by rewrite bool_decide_true.
  - intros -> [Hg | [_ He]]%Hcases; [|set_solver].
    unfold free_guard_error in Hg. by case_bool_decide.
Qed.

Lemma free_guards_witness :
  ((free 1 (Some {| inst_uuid := "inst-b"; inst_pci_devices := None |})
      vf_claimed).2 = Raise PciDeviceInvalidOwner)
  ∧ "inst-a" ≠ "inst-b".
Proof.
  split; [|done].
  apply (proj1 (proj2 (free_guards vf_claimed 1
                         (Some {| inst_uuid := "inst-b";
                                  inst_pci_devices := None |})))
           _ (Some "inst-a") eq_refl); [cbn; set_solver | reflexivity|].
  done.
Defined.

(** ** What a failing call leaves behind *)

(** X6.  [claim], [allocate] and [remove] check before they write: when one
    of them raises, the store is as it was.  [free] does the same for the
    exceptions of its two guards, and for every exception when the device is
    not ALLOCATED or no instance is supplied: what can come after its writes
    is the search in the instance's collection, made for an ALLOCATED device
    only. *)
Theorem failing_call_changes_nothing (h : store) (self : ref) (e : exn) :
  (∀ u, (claim self u h).2 = Raise e → (claim self u h).1 = h)
  ∧ (∀ instance, (allocate self instance h).2 = Raise e →
                 (allocate self instance h).1 = h)
  ∧ ((remove self h).2 = Raise e → (remove self h).1 = h)
  ∧ (∀ instance, (free self instance h).2 = Raise e →
                 e ∈ [PciDeviceInvalidStatus; PciDeviceInvalidOwner]
                 ∨ status (h self) ≠ ALLOCATED ∨ instance = None →
                 (free self instance h).1 = h).
Proof.
  split; [|split; [|split]].
  - intros u. pose proof (claim_run h self u) as Hrun.
    destruct (claim_error h self); [by rewrite Hrun|].
    by destruct Hrun as (h' & -> & _).
  - intros i. pose proof (allocate_run h self i) as Hrun.
    destruct (allocate_error h self i); [by rewrite Hrun|].
    by destruct Hrun as (h' & -> & _).
  - pose proof (remove_run h self) as Hrun.
    destruct (remove_error h self); [by rewrite Hrun|].
    by destruct Hrun as (h' & -> & _).
  - intros i. pose proof (free_run h self i) as Hrun.
    destruct (free_error h self i); [by rewrite Hrun|].
    destruct Hrun as (h' & -> & _). cbn. intros Hr Hcase. exfalso.
    pose proof (free_result_raises h self i e Hr) as (He & Hst & Hi).
    destruct Hcase as [Hin | [Hne | ->]]; [|done|done].
    rewrite !elem_of_cons, elem_of_nil in Hin.
    destruct He as [-> | [-> | ->]]; naive_solver.
Qed.

Lemma failing_call_changes_nothing_witness :
  (claim 1 "inst-b" vf_claimed).2 = Raise PciDeviceInvalidStatus
  ∧ (claim 1 "inst-b" vf_claimed).1 = vf_claimed.
Proof.
  split; [reflexivity|].
  by apply (proj1 (failing_call_changes_nothing vf_claimed 1
                     PciDeviceInvalidStatus) "inst-b").
Defined.

(** X7.  [free] looks the device up in the instance's collection after it has
    written: when it raises [KeyError] (the instance has no collection) or
    [StopIteration] (the collection has no entry with the device's id), the
    device is already AVAILABLE with owner and request cleared, and the
    cascade on its children or parent is done. *)
Theorem free_late_failure (h : store) (self : ref)
    (instance : option Instance) (e : exn) :
  (free self instance h).2 = Raise e →
  e ∈ [KeyError; StopIteration] →
  status (h self) = ALLOCATED
  ∧ status ((free self instance h).1 self) = AVAILABLE
  ∧ instance_uuid ((free self instance h).1 self) = Val None
  ∧ request_id ((free self instance h).1 self) = None
  ∧ ∀ r, (free self instance h).1 r = free_post h self r.
Proof.
  intros Hr He. pose proof (free_run h self instance) as Hrun.
  destruct (free_error h self instance) as [e'|] eqn:Herr.
  - rewrite Hrun in Hr. injection Hr as <-. exfalso.
    apply free_error_cases in Herr. set_solver.
  - destruct Hrun as (h' & Hrun & Hpost). rewrite Hrun in Hr |- *.
    cbn [fst snd] in *. unfold free_result in Hr.
    destruct instance as [inst|]; [|discriminate Hr].
    case_bool_decide as Hold; [|discriminate Hr].
    apply free_cascade_status_self in Hold. split; [done|].
    rewrite Hpost. unfold free_post. rewrite decide_True by done.
    done.
Qed.

Lemma free_late_failure_witness :
  (free 0 (Some instance_a_reloaded) pf_allocated).2 = Raise StopIteration
  ∧ status ((free 0 (Some instance_a_reloaded) pf_allocated).1 0) = AVAILABLE
  ∧ instance_uuid ((free 0 (Some instance_a_reloaded) pf_allocated).1 0)
    = Val None.
Proof.
  split; [reflexivity|].
  destruct (free_late_failure pf_allocated 0 (Some instance_a_reloaded)
              StopIteration eq_refl) as (_ & Hst & Hown & _).
  - set_solver.
  - by split.
Defined.


(** ** allocate on a PF *)

Lemma dependants_ok_spec (h : store) (l : list ref) :
  forallb (λ vf, bool_decide (status (h vf) ∈ [AVAILABLE; UNCLAIMABLE])) l
  = true
  ↔ ∀ c, c ∈ l → status (h c) ∈ [AVAILABLE; UNCLAIMABLE].
Proof.
  rewrite forallb_forall. split.
  - intros Hall c Hc%list_elem_of_In.
    eapply bool_decide_eq_true_1, Hall, Hc.
  - intros Hall c Hc%list_elem_of_In. by apply bool_decide_eq_true_2, Hall.
Qed.

(** X8.  [allocate] on a PF that passes the two guards.  Each child must be
    AVAILABLE or UNCLAIMABLE: a child in any other status, UNAVAILABLE
    included, makes the call raise [PciDeviceVFInvalidStatus].  Otherwise the
    PF ends ALLOCATED to the instance, every child UNAVAILABLE, and no other
    device changes. *)
Theorem allocate_pf_children_contract (h : store) (self : ref)
    (instance : Instance) :
  dev_type (h self) = SRIOV_PF →
  (status (h self) = AVAILABLE
   ∨ status (h self) = CLAIMED
     ∧ instance_uuid (h self) = Val (Some (inst_uuid instance))) →
  ((allocate self instance h).2 = Raise PciDeviceVFInvalidStatus
   ↔ ∃ c, c ∈ child_devices (h self)
          ∧ status (h c) ∉ [AVAILABLE; UNCLAIMABLE])
  ∧ ((∀ c, c ∈ child_devices (h self) →
           status (h c) ∈ [AVAILABLE; UNCLAIMABLE]) →
     ∃ h' instance',
       allocate self instance h = (h', Ok instance')
       ∧ status (h' self) = ALLOCATED
       ∧ instance_uuid (h' self) = Val (Some (inst_uuid instance))
       ∧ (∀ c, c ∈ child_devices (h self) → c ≠ self →
               status (h' c) = UNAVAILABLE)
       ∧ (∀ r, r ≠ self → r ∉ child_devices (h self) → h' r = h r)).
Proof.
  intros Hty Hpre.
  pose proof (allocate_run h self instance) as Hrun.
  pose proof (dependants_ok_spec h (child_devices (h self))) as Hdep.
  assert (Herr : allocate_error h self instance
                 = if forallb
                        (λ vf, bool_decide
                                 (status (h vf) ∈ [AVAILABLE; UNCLAIMABLE]))
                        (child_devices (h self))
                   then None else Some PciDeviceVFInvalidStatus).
  { unfold allocate_error, owner. rewrite Hty.
    destruct Hpre as [Hst|[Hst Hown]]; rewrite Hst, ?Hown; eval_closed;
      cbn beta iota; simpl_bd; done. }
  split.
  - rewrite allocate_raises, Herr.
    destruct (forallb _ (child_devices (h self))).
    + split; [done|]. intros (c & Hc & Hbad). exfalso.
      by apply Hbad, Hdep.
    + split; [|done]. intros _.
      destruct (decide (Exists
                          (λ c, status (h c) ∉ [AVAILABLE; UNCLAIMABLE])
                          (child_devices (h self)))) as [Hex|Hno].
      * apply Exists_exists in Hex. naive_solver.
      * exfalso. apply not_Exists_Forall in Hno; [|intros ?; apply _].
        rewrite Forall_forall in Hno.
        assert (false = true) as [=]. apply Hdep. intros c Hc.
        apply Hno in Hc. by apply dec_stable.
  - intros Hall. apply Hdep in Hall. rewrite Herr, Hall in Hrun.
    destruct Hrun as (h' & Hr & Hpost). eexists h', _. split; [done|].
    split; [|split; [|split]].
    + rewrite Hpost. unfold allocate_post. by rewrite decide_True.
    + rewrite Hpost. unfold allocate_post. by rewrite decide_True.
    + intros c Hc Hne. rewrite Hpost. unfold allocate_post.
      rewrite decide_False, Hty by done. by rewrite bool_decide_true.
    + intros r Hne Hnc. rewrite Hpost. unfold allocate_post.
      rewrite decide_False, Hty by done. by rewrite bool_decide_false.
Qed.

Lemma allocate_pf_children_contract_witness :
  (allocate 0 instance_a pf_inconsistent_vf).2
  = Raise PciDeviceVFInvalidStatus.
Proof.
  apply (allocate_pf_children_contract pf_inconsistent_vf 0 instance_a
           eq_refl (or_introl eq_refl)).
  exists 2. split; [cbn; set_solver|]. cbn. set_solver.
Defined.

(** ** remove *)

(** X9.  [remove] goes through exactly on a device that is AVAILABLE,
    UNAVAILABLE or UNCLAIMABLE and records no owner.  Then the device ends
    REMOVED with owner and request set to [None], and there is no cascade: no
    other device changes, not even the parent or the children. *)
Theorem remove_unowned_contract (h : store) (self : ref) :
  ((remove self h).2 = Ok tt
   ↔ status (h self) ∈ [AVAILABLE; UNAVAILABLE; UNCLAIMABLE]
     ∧ owner (h self) = None)
  ∧ (∀ h', remove self h = (h', Ok tt) →
       status (h' self) = REMOVED
       ∧ instance_uuid (h' self) = Val None
       ∧ request_id (h' self) = None
       ∧ ∀ r, r ≠ self → h' r = h r).
Proof.
  pose proof (remove_run h self) as Hrun. split.
  - unfold remove_error in Hrun.
    repeat case_bool_decide; try (rewrite Hrun; cbn; naive_solver).
    destruct Hrun as (h' & -> & _). cbn.
    split; [intros _|done]. split; [done|].
    by destruct (owner (h self)).
  - intros h' (_ & Hpost)%remove_ok. rewrite Hpost. unfold remove_post.
    rewrite decide_True by done. repeat (split; [done|]).
    intros r Hne. rewrite Hpost. unfold remove_post.
    by rewrite decide_False.
Qed.

Lemma remove_unowned_contract_witness :
  status ((remove 1 pf_two_vfs).1 1) = REMOVED
  ∧ (remove 1 pf_two_vfs).1 0 = pf_two_vfs 0.
Proof.
  destruct (proj2 (remove_unowned_contract pf_two_vfs 1)
              (remove 1 pf_two_vfs).1 eq_refl) as (Hst & _ & _ & Hframe).
  split; [exact Hst|]. by apply Hframe.
Defined.

(** X10.  A device that is REMOVED or DELETED refuses every call made on
    it: [claim], [allocate], [free] and [remove] raise
    [PciDeviceInvalidStatus] and change nothing.  The status is not final
    for all that: a [free] of the PF that lists the device that returns sets
    it AVAILABLE again, as it does every other child, and [claim] then
    accepts the status. *)
Theorem removed_device_refuses_calls (h : store) (self : ref) :
  status (h self) ∈ [REMOVED; DELETED] →
  (∀ u, claim self u h = (h, Raise PciDeviceInvalidStatus))
  ∧ (∀ instance, allocate self instance h = (h, Raise PciDeviceInvalidStatus))
  ∧ (∀ instance, free self instance h = (h, Raise PciDeviceInvalidStatus))
  ∧ remove self h = (h, Raise PciDeviceInvalidStatus)
  ∧ (∀ pf instance h' res,
       dev_type (h pf) = SRIOV_PF → self ∈ child_devices (h pf) →
       free pf instance h = (h', Ok res) →
       status (h' self) = AVAILABLE
       ∧ ∀ u, (claim self u h').2 ≠ Raise PciDeviceInvalidStatus).
Proof.
  intros Hst.
  assert (status (h self) = REMOVED ∨ status (h self) = DELETED) as Hst'
    by set_solver.
  split; [|split; [|split; [|split]]].
  - intros u. pose proof (claim_run h self u) as Hrun.
    unfold claim_error in Hrun.
    by destruct Hst' as [Hs | Hs]; rewrite Hs in Hrun.
  - intros i. pose proof (allocate_run h self i) as Hrun.
    unfold allocate_error in Hrun.
    by destruct Hst' as [Hs | Hs]; rewrite Hs in Hrun.
  - intros i. pose proof (free_run h self i) as Hrun.
    unfold free_error, free_guard_error in Hrun.
    by destruct Hst' as [Hs | Hs]; rewrite Hs in Hrun.
  - pose proof (remove_run h self) as Hrun.
    unfold remove_error in Hrun.
    by destruct Hst' as [Hs | Hs]; rewrite Hs in Hrun.
  - intros pf i h' res Hty Hc (Herr & _ & Hpost)%free_ok.
    assert (Hav : status (h' self) = AVAILABLE).
    { rewrite Hpost. unfold free_post, free_cascade.
      destruct (decide (self = pf)); [done|].
      rewrite Hty. by rewrite bool_decide_true. }
    split; [done|]. intros u Hr.
    apply claim_raises in Hr. unfold claim_error in Hr.
    rewrite Hav in Hr. rewrite bool_decide_false in Hr by naive_solver.
    repeat case_match; discriminate Hr.
Qed.

Lemma removed_device_refuses_calls_witness :
  status ((remove 1 (claim 0 "inst-a" pf_two_vfs).1).1 1) = REMOVED
  ∧ claim 1 "inst-b" (remove 1 (claim 0 "inst-a" pf_two_vfs).1).1
    = ((remove 1 (claim 0 "inst-a" pf_two_vfs).1).1,
       Raise PciDeviceInvalidStatus)
  ∧ status
      ((free 0 None (remove 1 (claim 0 "inst-a" pf_two_vfs).1).1).1 1)
    = AVAILABLE.
Proof.
  split; [reflexivity|].
  destruct (removed_device_refuses_calls
              (remove 1 (claim 0 "inst-a" pf_two_vfs).1).1 1)
    as (Hclaim & _ & _ & _ & Hfree).
  - cbn. set_solver.
  - split; [apply Hclaim|].
    by apply (Hfree 0 None _ ([1; 2; 0], None)); [| cbn; set_solver |].
Defined.

(** ** The list free returns *)

Lemma free_result_devs (h : store) (self : ref) (instance : option Instance)
    (devs : list ref) (instance' : option Instance) :
  free_result h self instance = Ok (devs, instance') →
  devs = free_devs_of h self.
Proof.
  unfold free_result. destruct instance as [inst|]; [|by intros [=]].
  case_bool_decide; [|by intros [=]].
  destruct (inst_pci_devices inst) as [l|]; [|done].
  destruct (first_with_id (id (h self)) l); [|done]. by intros [=].
Qed.

(** X11.  The list [free] returns is the list of the devices it made
    AVAILABLE: every device of the list is AVAILABLE afterwards, every device
    outside it is exactly as before, and the freed device comes last.  For a
    PF the list is its children, in their order, followed by the PF. *)
Theorem free_returns_changed_devices (h h' : store) (self : ref)
    (instance instance' : option Instance) (devs : list ref) :
  free self instance h = (h', Ok (devs, instance')) →
  (∀ r, r ∈ devs → status (h' r) = AVAILABLE)
  ∧ (∀ r, r ∉ devs → h' r = h r)
  ∧ last devs = Some self
  ∧ (dev_type (h self) = SRIOV_PF → devs = child_devices (h self) ++ [self]).
Proof.
  intros (_ & Hres & Hpost)%free_ok.
  apply free_result_devs in Hres as ->.
  unfold free_devs_of. split; [|split; [|split]].
  - intros r Hr. rewrite Hpost. unfold free_post, free_cascade.
    destruct (decide (r = self)) as [->|Hne]; [done|].
    destruct (dev_type (h self)); [set_solver| | |].
    + rewrite bool_decide_true by set_solver. done.
    + destruct (parent_device (h self)) as [p|]; [|set_solver].
      destruct (siblings_available h self p) eqn:Hsib; [|set_solver].
      assert (r = p) as -> by set_solver.
      rewrite Hsib. rewrite bool_decide_true by done. done.
    + destruct (parent_device (h self)) as [p|]; [|set_solver].
      destruct (siblings_available h self p) eqn:Hsib; [|set_solver].
      assert (r = p) as -> by set_solver.
      rewrite Hsib. rewrite bool_decide_true by done. done.
  - intros r Hr. rewrite Hpost. unfold free_post, free_cascade.
    destruct (dev_type (h self)).
    + rewrite decide_False by set_solver. done.
    + rewrite decide_False by set_solver.
      rewrite bool_decide_false by set_solver. done.
    + destruct (parent_device (h self)) as [p|];
        [destruct (siblings_available h self p) eqn:Hsib|].
      all: rewrite decide_False by set_solver.
      all: rewrite bool_decide_false; [done|].
      all: intros [[= ->] Hs];
        first [set_solver | by rewrite Hsib in Hs | done].
    + destruct (parent_device (h self)) as [p|];
        [destruct (siblings_available h self p) eqn:Hsib|].
      all: rewrite decide_False by set_solver.
      all: rewrite bool_decide_false; [done|].
      all: intros [[= ->] Hs];
        first [set_solver | by rewrite Hsib in Hs | done].
  - destruct (dev_type (h self)); [done|by rewrite last_snoc|..].
    all: destruct (parent_device (h self)) as [p|]; [|done].
    all: by destruct (siblings_available h self p).
  - by intros ->.
Qed.

Lemma free_returns_changed_devices_witness :
  status ((free 0 None (claim 0 "inst-a" pf_two_vfs).1).1 1) = AVAILABLE
  ∧ (free 0 None (claim 0 "inst-a" pf_two_vfs).1).1 3
    = (claim 0 "inst-a" pf_two_vfs).1 3.
Proof.
  destruct (free_returns_changed_devices (claim 0 "inst-a" pf_two_vfs).1
              (free 0 None (claim 0 "inst-a" pf_two_vfs).1).1 0 None None
              [1; 2; 0] eq_refl) as (Hav & Hframe & _).
  split; [apply Hav|apply Hframe]; set_solver.
Defined.

(** ** How calls on related devices interact *)

Lemma blocked_status_raises (h : store) (r : ref) :
  status (h r) ∈ [UNCLAIMABLE; UNAVAILABLE] →
  (∀ u, claim r u h = (h, Raise PciDeviceInvalidStatus))
  ∧ (∀ i, allocate r i h = (h, Raise PciDeviceInvalidStatus)).
Proof.
  intros Hst.
  assert (status (h r) = UNCLAIMABLE ∨ status (h r) = UNAVAILABLE) as Hst'
    by set_solver.
  split.
  - intros u. pose proof (claim_run h r u) as Hrun.
    unfold claim_error in Hrun.
    by destruct Hst' as [Hs | Hs]; rewrite Hs in Hrun.
  - intros i. pose proof (allocate_run h r i) as Hrun.
    unfold allocate_error in Hrun.
    by destruct Hst' as [Hs | Hs]; rewrite Hs in Hrun.
Qed.

Lemma claim_post_linked_status (h : store) (self r : ref) (u : string) :
  claim_error h self = None → linked h self r → r ≠ self →
  status (claim_post h self u r) ∈ [UNCLAIMABLE; UNAVAILABLE].
Proof.
  intros Herr Hl Hne. unfold claim_post, claim_error in *.
  rewrite decide_False by done.
  case_bool_decide; [done|].
  destruct Hl as [[Hty Hin] | [Hty Hp]].
  - rewrite Hty. rewrite bool_decide_true by done. cbn. set_solver.
  - rewrite Hp in Herr.
    assert (dev_type (h self) = SRIOV_VF ∨ dev_type (h self) = VDPA)
      as [Hty' | Hty'] by set_solver.
    all: rewrite Hty' in *.
    all: case_bool_decide as Hok; [|done].
    all: case_bool_decide as Hav; [cbn; set_solver|].
    all: set_solver.
Qed.

Lemma allocate_post_linked_status (h : store) (self r : ref)
    (i : Instance) :
  linked h self r → r ≠ self →
  status (allocate_post h self i r) = UNAVAILABLE.
Proof.
  intros Hl Hne. unfold allocate_post.
  rewrite decide_False by done.
  destruct Hl as [[Hty Hin] | [Hty Hp]].
  - rewrite Hty. by rewrite bool_decide_true.
  - assert (dev_type (h self) = SRIOV_VF ∨ dev_type (h self) = VDPA)
      as [Hty' | Hty'] by set_solver.
    all: rewrite Hty'.
    all: by rewrite bool_decide_true.
Qed.

(** X12.  A device that holds a claim or an allocation blocks the devices the
    tree ties it to.  Once [claim] or [allocate] has gone through on a PF,
    [claim] and [allocate] on each of its children raise
    [PciDeviceInvalidStatus]; once one of them has gone through on a VF or
    vDPA device, they raise it on the parent.  The refused calls change
    nothing. *)
Theorem owned_device_blocks_relatives (h h1 : store) (self r : ref) :
  (∃ u, claim self u h = (h1, Ok tt))
  ∨ (∃ instance instance', allocate self instance h = (h1, Ok instance')) →
  linked h self r → r ≠ self →
  (∀ u, claim r u h1 = (h1, Raise PciDeviceInvalidStatus))
  ∧ (∀ instance, allocate r instance h1 = (h1, Raise PciDeviceInvalidStatus)).
Proof.
  intros Hcall Hl Hne. apply blocked_status_raises.
  destruct Hcall as [[u (Herr & Hpost)%claim_ok]
                    | (i & i' & (Herr & Hpost & _)%allocate_ok)].
  - rewrite Hpost. by apply claim_post_linked_status.
  - rewrite Hpost. rewrite allocate_post_linked_status by done. set_solver.
Qed.

Lemma owned_device_blocks_relatives_witness :
  claim 0 "inst-b" vf_claimed = (vf_claimed, Raise PciDeviceInvalidStatus)
  ∧ allocate 0 instance_a vf_claimed
    = (vf_claimed, Raise PciDeviceInvalidStatus).
Proof.
  destruct (owned_device_blocks_relatives pf_two_vfs vf_claimed 1 0)
    as [Hc Ha].
  - left. by exists "inst-a".
  - right. split; [cbn; set_solver | reflexivity].
  - done.
  - split; [apply Hc | apply Ha].
Defined.

(** ** claim followed by allocate *)

(** X13.  The two-phase protocol.  After a claim for [u] that went through,
    [allocate] for an instance whose uuid is [u] goes through as well: the
    device ends ALLOCATED to [u] and every device tied to it is UNAVAILABLE.
    For an instance with another uuid it raises [PciDeviceInvalidOwner] and
    changes nothing. *)
Theorem claim_then_allocate (h h1 : store) (self : ref) (u : string)
    (instance : Instance) :
  claim self u h = (h1, Ok tt) →
  ¬ linked h self self →
  (inst_uuid instance = u →
   ∃ h2 instance',
     allocate self instance h1 = (h2, Ok instance')
     ∧ status (h2 self) = ALLOCATED
     ∧ instance_uuid (h2 self) = Val (Some u)
     ∧ ∀ r, linked h self r → status (h2 r) = UNAVAILABLE)
  ∧ (inst_uuid instance ≠ u →
     allocate self instance h1 = (h1, Raise PciDeviceInvalidOwner)).
Proof.
  intros (Herr & Hpost)%claim_ok Hnl.
  pose proof (allocate_run h1 self instance) as Hrun.
  assert (Hself : h1 self = set_instance_uuid (Val (Some u))
                              (set_status CLAIMED (h self))).
  { rewrite Hpost. unfold claim_post. by rewrite decide_True. }
  assert (Hlinked : ∀ r, linked h1 self r ↔ linked h self r).
  { intros r. unfold linked. by rewrite Hself. }
  assert (Hrel : ∀ r, linked h self r →
                      status (h1 r) ∈ [UNCLAIMABLE; UNAVAILABLE]).
  { intros r Hl. rewrite Hpost. apply claim_post_linked_status; [done..|].
    by intros ->. }
  split.
  - intros Hu.
    assert (Hae : allocate_error h1 self instance = None).
    { unfold allocate_error, owner. rewrite Hself. cbn. eval_closed.
      cbn beta iota. rewrite Hu. simpl_bd.
      destruct (dev_type (h self)) eqn:Hty; [done| | |].
      - rewrite (proj2 (forallb_forall _ _)); [done|].
        intros c Hc%list_elem_of_In. apply bool_decide_eq_true_2.
        assert (c ≠ self) as Hcs
          by (intros ->; apply Hnl; left; by split).
        rewrite Hpost. unfold claim_post.
        rewrite decide_False, Hty, bool_decide_true by done.
        cbn. set_solver.
      - destruct (parent_device (h self)) as [p|] eqn:Hp; [|done].
        rewrite bool_decide_true; [done|].
        assert (linked h self p) as Hl by (right; split; [set_solver|done]).
        specialize (Hrel p Hl). revert Hrel.
        rewrite !elem_of_cons, !elem_of_nil. naive_solver.
      - destruct (parent_device (h self)) as [p|] eqn:Hp; [|done].
        rewrite bool_decide_true; [done|].
        assert (linked h self p) as Hl by (right; split; [set_solver|done]).
        specialize (Hrel p Hl). revert Hrel.
        rewrite !elem_of_cons, !elem_of_nil. naive_solver. }
    rewrite Hae in Hrun. destruct Hrun as (h2 & Hr & Hpost2).
    eexists h2, _. split; [exact Hr|].
    split; [|split].
    + rewrite Hpost2. unfold allocate_post. by rewrite decide_True.
    + rewrite Hpost2. unfold allocate_post. rewrite decide_True by done.
      by rewrite Hu.
    + intros r Hl. rewrite Hpost2.
      apply allocate_post_linked_status; [by apply Hlinked|].
      by intros ->.
  - intros Hu.
    assert (Hae : allocate_error h1 self instance
                  = Some PciDeviceInvalidOwner).
    { unfold allocate_error, owner. rewrite Hself. cbn. eval_closed.
      cbn beta iota. rewrite bool_decide_true; [done|]. naive_solver. }
    by rewrite Hae in Hrun.
Qed.

Lemma claim_then_allocate_witness :
  ∃ h2 instance',
    allocate 1 instance_a vf_claimed = (h2, Ok instance')
    ∧ status (h2 1) = ALLOCATED
    ∧ instance_uuid (h2 1) = Val (Some "inst-a")
    ∧ status (h2 0) = UNAVAILABLE.
Proof.
  destruct (claim_then_allocate pf_two_vfs vf_claimed 1 "inst-a" instance_a
              eq_refl) as [Hok _].
  - intros [[Hty _] | [_ Hp]]; discriminate.
  - destruct (Hok eq_refl) as (h2 & i' & Hr & Hst & Hown & Hrel).
    exists h2, i'. split; [exact Hr|]. split; [exact Hst|].
    split; [exact Hown|]. apply Hrel. right.
    split; [cbn; set_solver | reflexivity].
Defined.


(** ** Comparison of devices *)

Lemma differs_check {A : Type} `{EqDecision A} (x y : A) :
  (if bool_decide (x ≠ y) then false else true) = bool_decide (x = y).
Proof. by repeat case_bool_decide. Qed.

Lemma instance_uuid_check (a b : PciDevice) :
  (if negb (Bool.eqb (obj_attr_is_set f_instance_uuid a)
              (obj_attr_is_set f_instance_uuid b))
   then false
   else if obj_attr_is_set f_instance_uuid a
           && getattr_differs f_instance_uuid a b
        then false
        else true)
  = bool_decide (instance_uuid a = instance_uuid b).
Proof.
  unfold obj_attr_is_set, getattr_differs, owner.
  destruct (instance_uuid a), (instance_uuid b); cbn;
    repeat case_bool_decide; congruence.
Qed.

Lemma id_check (a b : PciDevice) :
  (if negb (Bool.eqb (obj_attr_is_set f_id a) (obj_attr_is_set f_id b))
   then false
   else if obj_attr_is_set f_id a && getattr_differs f_id a b
        then false
        else true)
  = bool_decide (id a = id b).
Proof.
  unfold obj_attr_is_set, getattr_differs.
  destruct (id a), (id b); cbn; repeat case_bool_decide; congruence.
Qed.

Lemma compare_same_fields (a b : PciDevice) :
  compare_pci_device_attributes a (a_PciDevice b) = true ↔ same_fields a b.
Proof.
  unfold compare_pci_device_attributes, same_fields, obj_fields.
  cbn [fmap list_fmap fst fields persistent_fields app forallb].
  eval_closed.
  repeat match goal with
         | |- context [dict_get ?k fields] =>
             let v := eval vm_compute in (dict_get k fields) in
             change (dict_get k fields) with v
         end.
  cbv beta iota. rewrite instance_uuid_check, id_check.
  cbn [obj_attr_is_set getattr_differs].
  cbn [Bool.eqb negb andb]. rewrite !differs_check.
  rewrite !andb_true_iff, !bool_decide_eq_true. naive_solver.
Qed.

(** X14.  Two devices compare equal exactly when their fifteen fields agree:
    the links of the in-memory tree play no part, and nothing that is not a
    device is equal to one.  Hence [__eq__] is an equivalence on devices, and
    [__ne__] is its negation. *)
Theorem eq_compares_fields (a b c : PciDevice) :
  (__eq__ a (a_PciDevice b) = true ↔ same_fields a b)
  ∧ __eq__ a another_object = false
  ∧ __eq__ a (a_PciDevice a) = true
  ∧ __eq__ a (a_PciDevice b) = __eq__ b (a_PciDevice a)
  ∧ (__eq__ a (a_PciDevice b) = true → __eq__ b (a_PciDevice c) = true →
     __eq__ a (a_PciDevice c) = true)
  ∧ __ne__ a (a_PciDevice b) = negb (__eq__ a (a_PciDevice b)).
Proof.
  unfold __ne__, __eq__.
  split; [apply compare_same_fields|]. split; [done|].
  split; [by apply compare_same_fields|]. split; [|split; [|done]].
  - apply Bool.eq_iff_eq_true. rewrite !compare_same_fields.
    unfold same_fields. naive_solver.
  - rewrite !compare_same_fields. unfold same_fields.
    intros (-> & -> & -> & -> & -> & -> & -> & -> & -> & -> & -> & -> & ->
            & -> & ->). done.
Qed.

Lemma eq_compares_fields_witness :
  __eq__ (pf_two_vfs 1) (a_PciDevice (pf_two_vfs 1)) = true
  ∧ __eq__ (pf_two_vfs 1) (a_PciDevice (pf_two_vfs 2)) = false.
Proof.
  split; [exact (proj1 (proj2 (proj2 (eq_compares_fields (pf_two_vfs 1)
                                         (pf_two_vfs 1) (pf_two_vfs 1)))))|].
  reflexivity.
Defined.

(** ** The instance's collection *)

Lemma first_with_id_Ok (self_id : attr Z) (devs : list PciDevice)
    (existed : PciDevice) :
  first_with_id self_id devs = Ok existed →
  id existed = self_id ∧ self_id ≠ Unset.
Proof.
  induction devs as [|dev rest IH]; cbn; [done|].
  destruct (id dev) as [|m] eqn:Hdev; [done|].
  destruct self_id as [|n]; [done|].
  case_bool_decide as Hid; [|exact IH].
  intros [= <-]. by rewrite Hdev, Hid.
Qed.

(** X15.  The entry [free] drops from the instance's collection.  [free]
    picks [existed], the first entry with the device's id, and calls
    [devs.remove(existed)], which drops the first entry that compares equal
    to it.  That entry is [existed] itself: the list that is left is the
    collection without its first entry carrying the id, and the call never
    raises [ValueError]. *)
Theorem free_drops_first_entry_with_id (self : ref)
    (devs : list PciDevice) (existed : PciDevice) (h h' : store) :
  next_with_id self devs h = (h', Ok existed) →
  list_remove existed devs = Ok (remove_existed existed devs).
Proof.
  rewrite next_with_id_spec. intros [= _ Hfind].
  pose proof (first_with_id_Ok _ _ _ Hfind) as [Hex Hset].
  induction devs as [|dev rest IH]; [done|].
  cbn [first_with_id list_remove remove_existed] in *.
  rewrite <- Hex in Hfind.
  destruct (id dev) as [|m] eqn:Hdev; [done|].
  destruct (id existed) as [|n] eqn:Hn; [done|].
  case_bool_decide as Hid.
  - injection Hfind as ->. rewrite bool_decide_true by congruence.
    unfold __eq__. by rewrite (proj2 (compare_same_fields existed existed)).
  - rewrite bool_decide_false by congruence.
    destruct (__eq__ dev (a_PciDevice existed)) eqn:Heq.
    + exfalso. apply compare_same_fields in Heq.
      destruct Heq as (Hid' & _). congruence.
    + rewrite Hex in Hfind. by rewrite (IH Hfind).
Qed.

Lemma free_drops_first_entry_with_id_witness :
  list_remove (vf_allocated 1) [pf_allocated 0; vf_allocated 1]
  = Ok [pf_allocated 0].
Proof.
  exact (free_drops_first_entry_with_id 1 [pf_allocated 0; vf_allocated 1]
           (vf_allocated 1) pf_two_vfs pf_two_vfs eq_refl).
Defined.

(** X16.  What [allocate] leaves in the instance.  When it goes through, the
    instance keeps its uuid and its collection is the old one (empty when the
    instance had none) with one more entry at the end: a copy of the device
    as the call leaves it, ALLOCATED to the instance, which compares equal to
    the device. *)
Theorem allocate_appends_copy (h h' : store) (self : ref)
    (instance instance' : Instance) :
  allocate self instance h = (h', Ok instance') →
  inst_uuid instance' = inst_uuid instance
  ∧ ∃ copy,
      inst_pci_devices instance'
      = Some (default [] (inst_pci_devices instance) ++ [copy])
      ∧ __eq__ (h' self) (a_PciDevice copy) = true
      ∧ status copy = ALLOCATED
      ∧ instance_uuid copy = Val (Some (inst_uuid instance)).
Proof.
  intros (_ & Hpost & ->)%allocate_ok. split; [done|].
  exists (h' self). split; [done|].
  split; [by apply compare_same_fields|].
  rewrite Hpost. unfold allocate_post. by rewrite decide_True.
Qed.

Lemma allocate_appends_copy_witness :
  ∃ copy,
    Some [vf_allocated 1] = Some ([] ++ [copy])
    ∧ __eq__ (vf_allocated 1) (a_PciDevice copy) = true
    ∧ status copy = ALLOCATED
    ∧ instance_uuid copy = Val (Some "inst-a").
Proof.
  exact (proj2 (allocate_appends_copy pf_two_vfs vf_allocated 1 instance_a
                  {| inst_uuid := "inst-a";
                     inst_pci_devices := Some [vf_allocated 1] |} eq_refl)).
Defined.

Lemma first_with_id_app (n : Z) (l : list PciDevice) (d : PciDevice) :
  Forall (λ e, ∃ m, id e = Val m ∧ m ≠ n) l → id d = Val n →
  first_with_id (Val n) (l ++ [d]) = Ok d
  ∧ remove_existed d (l ++ [d]) = l.
Proof.
  intros Hl Hd. induction Hl as [|e l (m & He & Hne) Hl IH]; cbn.
  - rewrite Hd. by rewrite !bool_decide_true.
  - rewrite He, Hd. rewrite !bool_decide_false by congruence.
    destruct IH as [-> ->]. done.
Qed.

Lemma allocate_post_id (h : store) (self : ref) (instance : Instance)
    (r : ref) :
  id (allocate_post h self instance r) = id (h r).
Proof.
  unfold allocate_post.
  destruct (decide (r = self)) as [->|]; [done|].
  destruct (dev_type (h self)); try case_bool_decide; done.
Qed.

(** X17.  [allocate] followed by [free] for the instance [allocate] returned,
    on a device that has its id (as have, for a VF or vDPA device with a
    resolved parent, the children of the parent).  Provided every entry the
    instance held before has an id other than the device's, the pair leaves
    the instance's collection as it was (empty when the instance had none)
    and the device AVAILABLE with owner and request cleared. *)
Theorem allocate_then_free (h h1 : store) (self : ref)
    (instance instance1 : Instance) (n : Z) :
  allocate self instance h = (h1, Ok instance1) →
  ¬ linked h self self →
  id (h self) = Val n →
  (∀ p, dev_type (h self) ∈ [SRIOV_VF; VDPA] →
        parent_device (h self) = Some p → ids_set h self p) →
  Forall (λ dev, ∃ m, id dev = Val m ∧ m ≠ n)
    (default [] (inst_pci_devices instance)) →
  ∃ h2 devs,
    free self (Some instance1) h1
    = (h2, Ok (devs,
               Some {| inst_uuid := inst_uuid instance;
                       inst_pci_devices :=
                         Some (default [] (inst_pci_devices instance)) |}))
    ∧ status (h2 self) = AVAILABLE
    ∧ instance_uuid (h2 self) = Val None
    ∧ request_id (h2 self) = None.
Proof.
  intros (_ & Hpost & ->)%allocate_ok Hnl Hn Hids Hold.
  pose proof (free_run h1 self
                (Some {| inst_uuid := inst_uuid instance;
                         inst_pci_devices :=
                           Some (default [] (inst_pci_devices instance)
                                   ++ [h1 self]) |})) as Hrun.
  assert (Hself : h1 self = set_instance_uuid (Val (Some (inst_uuid instance)))
                              (set_status ALLOCATED (h self))).
  { rewrite Hpost. unfold allocate_post. by rewrite decide_True. }
  assert (Hty : dev_type (h1 self) = dev_type (h self)) by by rewrite Hself.
  assert (Hch : child_devices (h1 self) = child_devices (h self))
    by by rewrite Hself.
  assert (Hpa : parent_device (h1 self) = parent_device (h self))
    by by rewrite Hself.
  assert (Hid : id (h1 self) = Val n) by by rewrite Hself.
  assert (Hfe : free_error h1 self
                  (Some {| inst_uuid := inst_uuid instance;
                           inst_pci_devices :=
                             Some (default [] (inst_pci_devices instance)
                                     ++ [h1 self]) |}) = None).
  { unfold free_error.
    assert (Hg : free_guard_error h1 self
                   (Some {| inst_uuid := inst_uuid instance;
                            inst_pci_devices :=
                              Some (default [] (inst_pci_devices instance)
                                      ++ [h1 self]) |}) = None).
    { unfold free_guard_error, owner. rewrite Hself. cbn. eval_closed.
      cbn beta iota. by simpl_bd. }
    rewrite Hg, Hty, Hpa.
    destruct (parent_device (h self)) as [p|] eqn:Hp;
      [|by destruct (dev_type (h self))].
    destruct (decide (dev_type (h self) ∈ [SRIOV_VF; VDPA])) as [Hvf|Hvf];
      [|destruct (dev_type (h self)); set_solver].
    rewrite ids_set_readable; [by destruct (dev_type (h self))|].
    destruct (Hids p Hvf eq_refl) as [Hs Hk]. split.
    - by rewrite Hid.
    - intros c Hc. rewrite !Hpost in *.
      rewrite (proj2 (proj2 (allocate_post_structure h self instance p)))
        in Hc.
      rewrite allocate_post_id. by apply Hk. }
  rewrite Hfe in Hrun. destruct Hrun as (h2 & Hr & Hpost2).
  assert (Hcas : free_cascade h1 self self = h1 self).
  { unfold free_cascade. unfold linked in Hnl.
    rewrite Hty, Hch, Hpa.
    destruct (dev_type (h self)) eqn:Hty'; [done|..].
    all: rewrite bool_decide_false; [done|].
    all: intros Hin; apply Hnl; set_solver. }
  destruct (first_with_id_app n
              (default [] (inst_pci_devices instance)) (h1 self))
    as [Hfind Hrem]; [done|done|].
  assert (Hres : free_result h1 self
                   (Some {| inst_uuid := inst_uuid instance;
                            inst_pci_devices :=
                              Some (default [] (inst_pci_devices instance)
                                      ++ [h1 self]) |})
                 = Ok (free_devs_of h1 self,
                       Some {| inst_uuid := inst_uuid instance;
                               inst_pci_devices :=
                                 Some (default []
                                         (inst_pci_devices instance)) |})).
  { unfold free_result. rewrite Hcas.
    rewrite bool_decide_true by by rewrite Hself.
    cbn [inst_pci_devices inst_uuid]. rewrite Hid, Hfind. cbn.
    by rewrite Hrem. }
  rewrite Hres in Hr. exists h2, (free_devs_of h1 self).
  split; [exact Hr|]. rewrite Hpost2. unfold free_post.
  by rewrite decide_True.
Qed.

Lemma allocate_then_free_witness :
  ∃ h2 devs,
    free 1 (Some {| inst_uuid := "inst-a";
                    inst_pci_devices := Some [vf_allocated 1] |})
      vf_allocated
    = (h2, Ok (devs, Some {| inst_uuid := "inst-a";
                             inst_pci_devices := Some [] |}))
    ∧ status (h2 1) = AVAILABLE
    ∧ instance_uuid (h2 1) = Val None
    ∧ request_id (h2 1) = None.
Proof.
  apply (allocate_then_free pf_two_vfs vf_allocated 1 instance_a
           {| inst_uuid := "inst-a";
              inst_pci_devices := Some [vf_allocated 1] |} 11 eq_refl).
  - intros [[Hty _] | [_ Hp]]; discriminate.
  - reflexivity.
  - intros p _ [= <-]. split; [done|].
    intros c Hc. change (c ∈ [1; 2]) in Hc.
    assert (c = 1 ∨ c = 2) as [-> | ->] by set_solver; done.
  - constructor.
Defined.

(** The condition on the id is needed.  The PF of the tree of devices that
    were never saved is allocated, and then freed for the instance
    [allocate] returned: the search in the instance's collection raises
    [NotImplementedError] on the first id it reads, after the PF was made
    AVAILABLE and its owner cleared. *)
Example allocate_then_free_unsaved_raises :
  ∃ h1 instance1,
    allocate 0 instance_a unsaved_tree = (h1, Ok instance1)
    ∧ (free 0 (Some instance1) h1).2 = Raise NotImplementedError
    ∧ status ((free 0 (Some instance1) h1).1 0) = AVAILABLE
    ∧ instance_uuid ((free 0 (Some instance1) h1).1 0) = Val None.
Proof. eexists _, _. split; [reflexivity|]. by vm_compute. Qed.

(** ** A PF and its VF are never owned together *)

Section exclusive.
Context `{Oslo}.

(** X18.  No double assignment.  On a linked device tree that starts with
    every device AVAILABLE and unowned, after any sequence of [claim],
    [allocate], [free], [remove] and [update_device] calls that complete
    without raising and in which no [update_device] changes a [dev_type], no
    VF or vDPA device is CLAIMED or ALLOCATED while its PF is CLAIMED or
    ALLOCATED. *)
Theorem pf_and_vf_never_owned_together (cs : list call) (h0 h : store)
    (c p : ref) :
  fresh h0 → tree_linked h0 →
  keeps_dev_type cs h0 →
  run_calls cs h0 = Some h →
  dev_type (h c) ∈ [SRIOV_VF; VDPA] →
  parent_device (h c) = Some p →
  ¬ (owned (h c) ∧ owned (h p)).
Proof.
  intros Hfresh Htree Hkeep Hrun.
  apply (cons_exclusive h).
  apply (run_calls_consistent cs h0 h); [|done|done].
  by apply fresh_consistent.
Qed.
End exclusive.

Lemma pf_and_vf_never_owned_together_witness :
  ∃ h, run_calls (H := reference_oslo) scenario_calls pf_two_vfs = Some h
       ∧ owned (h 1)
       ∧ ¬ (owned (h 1) ∧ owned (h 0)).
Proof.
  eexists. split; [reflexivity|]. split; [by right|].
  apply (pf_and_vf_never_owned_together (H := reference_oslo) scenario_calls
           pf_two_vfs _ 1 0 pf_two_vfs_fresh pf_two_vfs_linked).
  - by vm_compute.
  - reflexivity.
  - cbn. set_solver.
  - reflexivity.
Defined.


(** ** update_device, field by field *)

Lemma fields_key_inj (k k' : string) (f : field) :
  dict_get k fields = Some f → dict_get k' fields = Some f → k = k'.
Proof.
  unfold fields. cbn [dict_get].
  repeat match goal with
         | |- context [String.eqb ?a k] =>
             destruct (String.eqb_spec a k) as [<-|?]
         end.
  all: try (intros [=]; fail).
  all: intros [= <-].
  all: repeat match goal with
         | |- context [String.eqb ?a ?b] =>
             destruct (String.eqb_spec a b) as [<-|?]; [by intros [=]|]
         end.
  all: by intros [=].
Qed.

Section update_device_fields.
Context `{Oslo}.

Lemma setattr_other_fields (g : field) (v : pyval) (s s' : PciDevice) :
  setattr g v s = Ok s' → ∀ f, f ≠ g → field_agrees f s' s.
Proof.
  intros Hset f Hne.
  destruct g; cbn [setattr] in Hset; unfold mbind, result_bind in Hset.
  all: repeat case_match; try discriminate Hset.
  all: injection Hset as <-.
  all: by destruct f.
Qed.

Lemma field_agrees_refl (f : field) (s : PciDevice) : field_agrees f s s.
Proof. by destruct f. Qed.

Lemma field_agrees_trans (f : field) (a b c : PciDevice) :
  field_agrees f a b → field_agrees f b c → field_agrees f a c.
Proof. destruct f; cbn; congruence. Qed.

Lemma field_agrees_set_extra_info (f : field) (m : gmap string string)
    (s : PciDevice) :
  f ≠ f_extra_info → field_agrees f (set_extra_info m s) s.
Proof. by destruct f. Qed.

(** A field whose key does not occur among the items is not touched by the
    loop, however the loop ends. *)
Lemma update_device_items_other_fields (items : dict pyval) (s : PciDevice)
    (k : string) (f : field) :
  dict_get k fields = Some f → f ≠ f_extra_info →
  k ∉ items.*1 →
  field_agrees f (update_device_items items s).1 s.
Proof.
  intros Hk Hf. revert s.
  induction items as [|[k0 v0] rest IH]; intros s Hnin;
    [apply field_agrees_refl|].
  cbn [update_device_items]. cbn in Hnin.
  apply not_elem_of_cons in Hnin as [Hk0 Hnin].
  destruct (dict_get k0 fields) as [g|] eqn:Hg.
  - destruct (setattr g v0 s) as [s1|e] eqn:Hset;
      [|apply field_agrees_refl].
    eapply field_agrees_trans; [by apply IH|].
    eapply setattr_other_fields; [done|]. intros ->.
    apply Hk0. by eapply fields_key_inj.
  - case_bool_decide.
    + destruct (coerce_persistent k0 v0); [by apply IH|].
      apply field_agrees_refl.
    + eapply field_agrees_trans; [by apply IH|].
      by apply field_agrees_set_extra_info.
Qed.

Lemma clean_tags_fields (tags : list string) (dd : dict pyval)
    (s : PciDevice) (f : field) :
  f ≠ f_extra_info → field_agrees f (clean_tags tags dd s) s.
Proof.
  intros Hf. unfold clean_tags. revert s.
  induction tags as [|tag rest IH]; intros s; [apply field_agrees_refl|].
  cbn [foldl]. destruct (negb _ && _); [|apply IH].
  eapply field_agrees_trans; [apply IH|].
  by apply field_agrees_set_extra_info.
Qed.

Lemma dict_get_None_not_key {V : Type} (k : string) (d : dict V) :
  dict_get k d = None ↔ k ∉ d.*1.
Proof.
  induction d as [|[k0 v] rest IH]; cbn; [set_solver|].
  destruct (String.eqb_spec k0 k) as [->|Hne].
  - split; [done|]. intros Hn. exfalso. apply Hn. set_solver.
  - rewrite IH. rewrite not_elem_of_cons. naive_solver.
Qed.

(** X19.  Fields that [update_device] leaves alone.  A field whose key the
    dict does not name keeps its value, and so do [status], [instance_uuid]
    and [id] even when the dict names them, whether the call returns or
    raises.  The exceptions are [parent_addr], which is reset when the dict
    does not name it, and [extra_info], into which the other keys are merged. *)
Theorem update_device_keeps_unnamed_fields (self : PciDevice)
    (dev_dict : dict pyval) (k : string) (f : field) :
  dict_get k fields = Some f →
  k ∈ ["status"; "instance_uuid"; "id"]
  ∨ (dict_get k dev_dict = None ∧ k ≠ "parent_addr" ∧ k ≠ "extra_info") →
  field_agrees f (update_device self dev_dict).1.1 self.
Proof.
  intros Hk Hcase.
  assert (Hf : f ≠ f_extra_info).
  { intros ->. assert (k = "extra_info") as ->
      by by eapply fields_key_inj.
    destruct Hcase as [Hin | (_ & _ & Hne)]; [set_solver|done]. }
  pose proof (update_device_dict self dev_dict) as Hd.
  unfold update_device in *. cbn [foldl] in *.
  set (dd := dict_setdefault _ _ _) in *.
  assert (Hnin : k ∉ dd.*1).
  { apply dict_get_None_not_key. unfold dd.
    rewrite dict_get_setdefault, !dict_get_del.
    destruct Hcase as [Hin | (Hnone & Hne & _)].
    - assert (k = "status" ∨ k = "instance_uuid" ∨ k = "id")
        as [-> | [-> | ->]] by set_solver; by repeat case_decide.
    - rewrite Hnone. by repeat case_decide. }
  pose proof (update_device_items_other_fields dd self k f Hk Hf Hnin)
    as Hitems.
  destruct (update_device_items dd self) as [s1 [[]|e]]; cbn [fst snd] in *;
    [|done].
  eapply field_agrees_trans; [by apply clean_tags_fields|done].
Qed.

End update_device_fields.

Lemma update_device_keeps_unnamed_fields_witness :
  field_agrees f_id
    (update_device (H := reference_oslo) (pf_two_vfs 1) discovered).1.1
    (pf_two_vfs 1)
  ∧ field_agrees f_vendor_id
      (update_device (H := reference_oslo) (pf_two_vfs 1) discovered).1.1
      (pf_two_vfs 1).
Proof.
  split.
  - apply (update_device_keeps_unnamed_fields (H := reference_oslo)
             (pf_two_vfs 1) discovered "id" f_id eq_refl).
    left. set_solver.
  - apply (update_device_keeps_unnamed_fields (H := reference_oslo)
             (pf_two_vfs 1) discovered "vendor_id" f_vendor_id eq_refl).
    right. done.
Defined.

Section update_device_extra_info.
Context `{Oslo}.

Lemma setattr_extra_info (g : field) (v : pyval) (s s' : PciDevice) :
  setattr g v s = Ok s' → g ≠ f_extra_info → extra_info s' = extra_info s.
Proof.
  intros Hset Hg.
  apply (setattr_other_fields g v s s' Hset f_extra_info). congruence.
Qed.

Lemma fields_extra_info_key (k : string) :
  dict_get k fields = Some f_extra_info → k = "extra_info".
Proof. intros Hk. by eapply fields_key_inj. Qed.

(** The entries of [extra_info] after a loop that ran to its end over items
    none of which is keyed [extra_info]: a key that is no field and occurs
    among the items holds the data of its last occurrence, every other key
    holds what it held. *)
Lemma update_device_items_extra_info (items : dict pyval)
    (s s' : PciDevice) (k : string) :
  update_device_items items s = (s', Ok tt) →
  "extra_info" ∉ items.*1 →
  extra_info s' !! k
  = if bool_decide (dict_get k fields = None ∧ k ∉ persistent_fields)
    then match dict_get k (reverse items) with
         | Some v => Some (extra_info_data v)
         | None => extra_info s !! k
         end
    else extra_info s !! k.
Proof.
  revert s. induction items as [|[k0 v0] rest IH]; intros s Hrun Hnin.
  - injection Hrun as <-. by case_bool_decide.
  - cbn [update_device_items] in Hrun. cbn in Hnin.
    apply not_elem_of_cons in Hnin as [Hk0 Hnin].
    rewrite reverse_cons, dict_get_app. cbn [dict_get].
    destruct (dict_get k0 fields) as [g|] eqn:Hg.
    + destruct (setattr g v0 s) as [s1|e] eqn:Hset; [|done].
      rewrite (IH s1 Hrun Hnin).
      assert (Hei : extra_info s1 = extra_info s).
      { eapply setattr_extra_info; [done|]. intros ->.
        by apply fields_extra_info_key in Hg. }
      rewrite Hei. case_bool_decide as Hk; [|done].
      destruct (dict_get k (reverse rest)); [done|].
      destruct (String.eqb_spec k0 k) as [->|]; [|done].
      destruct Hk as [Hk _]. congruence.
    + case_bool_decide as Hp0.
      * destruct (coerce_persistent k0 v0); [|done].
        rewrite (IH s Hrun Hnin). case_bool_decide as Hk; [|done].
        destruct (dict_get k (reverse rest)); [done|].
        destruct (String.eqb_spec k0 k) as [->|]; [|done].
        destruct Hk as [_ Hk]. done.
      * rewrite (IH _ Hrun Hnin). cbn [extra_info set_extra_info].
        unfold extra_info_data at 2.
        destruct (String.eqb_spec k0 k) as [->|Hne].
        -- rewrite lookup_insert_eq.
           rewrite bool_decide_true by done.
           by destruct (dict_get k (reverse rest)).
        -- rewrite lookup_insert_ne by done.
           case_bool_decide; [|done].
           by destruct (dict_get k (reverse rest)).
Qed.

Lemma clean_tags_extra_info (tags : list string) (dd : dict pyval)
    (s : PciDevice) (k : string) :
  extra_info (clean_tags tags dd s) !! k
  = if bool_decide (k ∈ tags) && negb (dict_has k dd) then None
    else extra_info s !! k.
Proof.
  unfold clean_tags. revert s.
  induction tags as [|tag rest IH]; intros s; [done|].
  cbn [foldl]. rewrite IH. clear IH.
  assert (Hs1 :
    extra_info
      (if negb (dict_has tag dd)
          && bool_decide (is_Some (extra_info s !! tag))
       then set_extra_info (delete tag (extra_info s)) s else s) !! k
    = if decide (k = tag)
      then (if negb (dict_has tag dd) then None else extra_info s !! tag)
      else extra_info s !! k).
  { destruct (decide (k = tag)) as [->|Hne];
      destruct (dict_has tag dd); cbn [negb andb]; try done.
    - case_bool_decide as Hsome; cbn [extra_info set_extra_info].
      + by rewrite lookup_delete_eq.
      + destruct (extra_info s !! tag) eqn:Hl; [|done].
        exfalso. apply Hsome. by eexists.
    - case_bool_decide; cbn [extra_info set_extra_info]; [|done].
      by rewrite lookup_delete_ne. }
  rewrite Hs1. clear Hs1.
  destruct (decide (k = tag)) as [->|Hne].
  - rewrite (bool_decide_true (tag ∈ tag :: rest)) by set_solver.
    destruct (dict_has tag dd); cbn [negb andb].
    + by rewrite !andb_false_r.
    + rewrite andb_true_r. by destruct (bool_decide (tag ∈ rest)).
  - rewrite (bool_decide_ext (k ∈ tag :: rest) (k ∈ rest)) by set_solver.
    done.
Qed.

Lemma dict_get_reverse_nodup {V : Type} (k : string) (d : dict V) :
  NoDup d.*1 → dict_get k (reverse d) = dict_get k d.
Proof.
  induction d as [|[k0 v] rest IH]; [done|]. rewrite fmap_cons. cbn [fst].
  intros [Hnin Hnd]%NoDup_cons. rewrite reverse_cons, dict_get_app.
  rewrite (IH Hnd). cbn [dict_get].
  destruct (String.eqb_spec k0 k) as [->|Hne].
  - apply dict_get_None_not_key in Hnin. by rewrite Hnin.
  - by destruct (dict_get k rest).
Qed.

Lemma dict_del_keys {V : Type} (k : string) (d : dict V) :
  (dict_del k d).*1 = List.filter (λ k', negb (String.eqb k' k)) d.*1.
Proof.
  induction d as [|[k0 v] rest IH]; [done|]. cbn.
  destruct (String.eqb k0 k); cbn; by rewrite IH.
Qed.

Lemma NoDup_filter_keys (P : string → bool) (l : list string) :
  NoDup l → NoDup (List.filter P l).
Proof.
  induction 1 as [|x l Hx Hl IH]; cbn; [constructor|].
  destruct (P x); [|done]. constructor; [|done].
  rewrite list_elem_of_In, filter_In, <- list_elem_of_In. naive_solver.
Qed.

Lemma dict_del_nodup {V : Type} (k : string) (d : dict V) :
  NoDup d.*1 → NoDup (dict_del k d).*1.
Proof. rewrite dict_del_keys. apply NoDup_filter_keys. Qed.

Lemma dict_setdefault_nodup {V : Type} (k : string) (v : V) (d : dict V) :
  NoDup d.*1 → NoDup (dict_setdefault k v d).*1.
Proof.
  intros Hnd. unfold dict_setdefault, dict_has.
  destruct (dict_get k d) eqn:Hk; [done|].
  rewrite fmap_app. apply NoDup_app. split; [done|].
  split; [|apply NoDup_singleton].
  intros x Hx [->|[]%elem_of_nil]%elem_of_cons.
  by apply dict_get_None_not_key in Hk.
Qed.

(** The dict [update_device] works on, key by key. *)
Lemma update_device_dict_lookup (self : PciDevice) (dev_dict : dict pyval)
    (k : string) :
  dict_get k (update_device self dev_dict).1.2
  = if bool_decide (k ∈ ["status"; "instance_uuid"; "id"; "extra_info"])
    then None
    else match dict_get k dev_dict with
         | Some v => Some v
         | None => if decide (k = "parent_addr") then Some PyNone else None
         end.
Proof.
  rewrite update_device_dict, dict_get_setdefault, !dict_get_del.
  case_bool_decide as Hk.
  - assert (k = "status" ∨ k = "instance_uuid" ∨ k = "id"
            ∨ k = "extra_info") as [-> | [-> | [-> | ->]]] by set_solver;
      by repeat case_decide.
  - repeat (rewrite decide_False by set_solver). done.
Qed.

(** The entries of [extra_info] when [update_device] returns. *)
Lemma update_device_extra_info_lookup (self self' : PciDevice)
    (dev_dict dev_dict' : dict pyval) (k : string) :
  NoDup dev_dict.*1 →
  update_device self dev_dict = (self', dev_dict', Ok tt) →
  extra_info self' !! k
  = if bool_decide (k ∈ ["managed"; "live_migratable"])
       && negb (dict_has k dev_dict)
    then None
    else if bool_decide (dict_get k fields = None ∧ k ∉ persistent_fields)
         then match dict_get k dev_dict with
              | Some v => Some (extra_info_data v)
              | None => extra_info self !! k
              end
         else extra_info self !! k.
Proof.
  intros Hnd Hrun.
  pose proof (update_device_dict_lookup self dev_dict) as Hdd.
  rewrite Hrun in Hdd. cbn [fst snd] in Hdd.
  pose proof (update_device_dict self dev_dict) as Hd.
  rewrite Hrun in Hd. cbn [fst snd] in Hd.
  unfold update_device in Hrun. cbn [foldl] in Hrun.
  rewrite <- Hd in Hrun.
  assert (Hnd' : NoDup dev_dict'.*1).
  { rewrite Hd.
    by repeat (apply dict_setdefault_nodup || apply dict_del_nodup). }
  assert (Hnoei : "extra_info" ∉ dev_dict'.*1).
  { apply dict_get_None_not_key. by rewrite Hdd. }
  destruct (update_device_items dev_dict' self) as [s1 [[]|e]] eqn:Hitems;
    [|done].
  injection Hrun as <-.
  match goal with
  | |- _ = ?rhs =>
      change (extra_info
                (clean_tags ["managed"; "live_migratable"] dev_dict' s1)
              !! k = rhs)
  end.
  rewrite clean_tags_extra_info.
  rewrite (update_device_items_extra_info dev_dict' self s1 k Hitems Hnoei).
  rewrite dict_get_reverse_nodup by done.
  assert (Htag : bool_decide (k ∈ ["managed"; "live_migratable"])
                 && negb (dict_has k dev_dict')
                 = bool_decide (k ∈ ["managed"; "live_migratable"])
                   && negb (dict_has k dev_dict)).
  { case_bool_decide as Hk; [|done]. cbn [andb]. f_equal.
    unfold dict_has. rewrite Hdd.
    assert (k = "managed" ∨ k = "live_migratable") as [-> | ->]
      by set_solver.
    all: rewrite bool_decide_false by set_solver.
    all: destruct (dict_get _ dev_dict); [done|].
    all: by rewrite decide_False. }
  rewrite Htag. clear Htag.
  destruct (bool_decide (k ∈ ["managed"; "live_migratable"])
            && negb (dict_has k dev_dict)); [done|].
  case_bool_decide as Hf; [|done].
  rewrite Hdd. case_bool_decide as Hpop.
  - assert (k = "status" ∨ k = "instance_uuid" ∨ k = "id"
            ∨ k = "extra_info") as [-> | [-> | [-> | ->]]] by set_solver;
      by destruct Hf as [[=] _].
  - destruct (dict_get k dev_dict); [done|].
    case_decide as Hpa; [|done]. subst k. by destruct Hf as [[=] _].
Qed.

(** X20.  What [update_device] does to [extra_info] when it returns.  The
    keys of the dict that are not fields are merged in, a string as it is and
    any other value as JSON text.  The tags [managed] and [live_migratable]
    end up present exactly when the dict names them.  Every other entry that
    the dict does not name is kept. *)
Theorem update_device_merges_extra_info (self self' : PciDevice)
    (dev_dict dev_dict' : dict pyval) :
  NoDup dev_dict.*1 →
  update_device self dev_dict = (self', dev_dict', Ok tt) →
  (∀ k v, dict_get k dev_dict = Some v →
          dict_get k fields = None → k ∉ persistent_fields →
          extra_info self' !! k = Some (extra_info_data v))
  ∧ (∀ tag, tag ∈ ["managed"; "live_migratable"] →
            (is_Some (extra_info self' !! tag)
             ↔ is_Some (dict_get tag dev_dict)))
  ∧ (∀ k, dict_get k dev_dict = None →
          k ∉ ["managed"; "live_migratable"] →
          extra_info self' !! k = extra_info self !! k).
Proof.
  intros Hnd Hrun.
  pose proof (λ k, update_device_extra_info_lookup self self' dev_dict
                     dev_dict' k Hnd Hrun) as Hfinal.
  split; [|split].
  - intros k v Hk Hf Hp. rewrite Hfinal.
    unfold dict_has. rewrite Hk. rewrite andb_false_r.
    by rewrite bool_decide_true.
  - intros tag Htag. rewrite Hfinal.
    rewrite (bool_decide_true (tag ∈ _)) by done.
    unfold dict_has.
    destruct (dict_get tag dev_dict) as [v|]; cbn [negb andb].
    + rewrite bool_decide_true; [by split; eexists|].
      assert (tag = "managed" ∨ tag = "live_migratable") as [-> | ->]
        by set_solver; split; (done || set_solver).
    + split; intros [? [=]].
  - intros k Hk Htag. rewrite Hfinal.
    rewrite (bool_decide_false (k ∈ _)) by done. cbn [andb].
    case_bool_decide as Hf; [|done]. by rewrite Hk.
Qed.
End update_device_extra_info.

Lemma update_device_merges_extra_info_witness :
  extra_info
    (update_device (H := reference_oslo) (pf_two_vfs 1) discovered).1.1
  !! "managed" = Some "true".
Proof.
  destruct (update_device_merges_extra_info (H := reference_oslo)
              (pf_two_vfs 1)
              (update_device (H := reference_oslo) (pf_two_vfs 1)
                 discovered).1.1
              discovered
              (update_device (H := reference_oslo) (pf_two_vfs 1)
                 discovered).1.2) as (Hmerge & _ & _).
  - by apply (bool_decide_unpack _).
  - by vm_compute.
  - apply (Hmerge "managed" (PyStr "true"));
      [reflexivity | reflexivity | by apply (bool_decide_unpack _)].
Defined.

Section update_device_assigns.
Context `{Oslo}.

Lemma setattr_twice (f : field) (v : pyval) (s s1 : PciDevice) :
  setattr f v s = Ok s1 → setattr f v s1 = Ok s1.
Proof.
  destruct f; cbn [setattr]; unfold mbind, result_bind.
  all: repeat case_match; try discriminate.
  all: by intros [= <-].
Qed.

Lemma setattr_stable (f : field) (v : pyval) (s s' : PciDevice) :
  setattr f v s = Ok s → field_agrees f s' s → setattr f v s' = Ok s'.
Proof.
  destruct f; cbn [setattr field_agrees]; unfold mbind, result_bind.
  all: repeat case_match; try discriminate.
  all: intros [= Hs] Hag; f_equal.
  all: destruct s, s'.
  all: cbv [set_id set_uuid set_compute_node_id set_address set_vendor_id
            set_product_id set_dev_type set_status set_dev_id set_label
            set_instance_uuid set_request_id set_extra_info set_numa_node
            set_parent_addr] in *.
  all: cbn in *; injection Hs as Hs'; congruence.
Qed.

Lemma update_device_items_assigns (items : dict pyval) (s s' : PciDevice)
    (k : string) (v : pyval) (f : field) :
  NoDup items.*1 →
  update_device_items items s = (s', Ok tt) →
  dict_get k items = Some v →
  dict_get k fields = Some f → f ≠ f_extra_info →
  setattr f v s' = Ok s'.
Proof.
  intros Hnd Hrun Hk Hf Hne. revert s Hnd Hrun Hk.
  induction items as [|[k0 v0] rest IH]; intros s Hnd Hrun Hk; [done|].
  rewrite fmap_cons in Hnd. cbn [fst] in Hnd.
  apply NoDup_cons in Hnd as [Hnin Hnd].
  cbn [update_device_items dict_get] in Hrun, Hk.
  destruct (String.eqb_spec k0 k) as [->|Hk0].
  - injection Hk as ->. rewrite Hf in Hrun.
    destruct (setattr f v s) as [s1|e] eqn:Hset; [|done].
    apply setattr_twice in Hset.
    pose proof (update_device_items_other_fields rest s1 k f Hf Hne Hnin)
      as Hag.
    rewrite Hrun in Hag. by eapply setattr_stable.
  - destruct (dict_get k0 fields) as [g|].
    + destruct (setattr g v0 s) as [s1|e]; [|done]. by eapply IH.
    + case_bool_decide.
      * destruct (coerce_persistent k0 v0); [|done]. by eapply IH.
      * by eapply IH.
Qed.

(** X21.  Fields that [update_device] assigns.  When it returns, every key of
    the dict it leaves to its caller that names a field has been assigned:
    assigning the dict's value to the field once more changes nothing.  So an
    [address] given as a string is the device's address, and a dict that does
    not name [parent_addr] resets the device's [parent_addr] to [None]. *)
Theorem update_device_assigns_named_fields (self self' : PciDevice)
    (dev_dict dev_dict' : dict pyval) :
  NoDup dev_dict.*1 →
  update_device self dev_dict = (self', dev_dict', Ok tt) →
  (∀ k v f, dict_get k dev_dict' = Some v → dict_get k fields = Some f →
            setattr f v self' = Ok self')
  ∧ (∀ a, dict_get "address" dev_dict = Some (PyStr a) → address self' = a)
  ∧ (dict_get "parent_addr" dev_dict = None → parent_addr self' = None).
Proof.
  intros Hnd Hrun.
  pose proof (update_device_dict self dev_dict) as Hd.
  rewrite Hrun in Hd. cbn [fst snd] in Hd.
  unfold update_device in Hrun. cbn [foldl] in Hrun.
  rewrite <- Hd in Hrun.
  assert (Hnd' : NoDup dev_dict'.*1).
  { rewrite Hd.
    by repeat (apply dict_setdefault_nodup || apply dict_del_nodup). }
  destruct (update_device_items dev_dict' self) as [s1 [[]|e]] eqn:Hitems;
    [|done].
  injection Hrun as <-.
  assert (Hall : ∀ k v f, dict_get k dev_dict' = Some v →
                          dict_get k fields = Some f →
                          setattr f v
                            (clean_tags ["managed"; "live_migratable"]
                               dev_dict' s1)
                          = Ok (clean_tags ["managed"; "live_migratable"]
                                  dev_dict' s1)).
  { intros k v f Hk Hf.
    assert (Hne : f ≠ f_extra_info).
    { intros ->. apply fields_extra_info_key in Hf as ->.
      rewrite Hd, dict_get_setdefault, !dict_get_del in Hk.
      by repeat case_decide. }
    eapply setattr_stable; [|by apply clean_tags_fields].
    by eapply update_device_items_assigns. }
  split; [exact Hall|]. split.
  - intros a Ha.
    assert (Hk : dict_get "address" dev_dict' = Some (PyStr a)).
    { rewrite Hd, dict_get_setdefault, !dict_get_del.
      repeat (rewrite decide_False by done). by rewrite Ha. }
    specialize (Hall "address" (PyStr a) f_address Hk eq_refl).
    cbn in Hall. injection Hall as Hall.
    by rewrite <- Hall.
  - intros Hp.
    assert (Hk : dict_get "parent_addr" dev_dict' = Some PyNone).
    { rewrite Hd, dict_get_setdefault, !dict_get_del.
      repeat (rewrite decide_False by done). by rewrite Hp. }
    specialize (Hall "parent_addr" PyNone f_parent_addr Hk eq_refl).
    cbn in Hall. injection Hall as Hall.
    by rewrite <- Hall.
Qed.

(** X22.  What the accessors read after [update_device].  When
    [update_device] returns, [mac_address] is the string the dict gave under
    [mac_address] (and what it was when the dict has no such key), and
    whenever the JSON library decodes what was stored for the dict's
    [capabilities] entry, [network_caps], [sriov_cap] and
    [card_serial_number] read the decoded value. *)
Theorem accessors_after_update_device (self self' : PciDevice)
    (dev_dict dev_dict' : dict pyval) :
  NoDup dev_dict.*1 →
  update_device self dev_dict = (self', dev_dict', Ok tt) →
  (∀ m, dict_get "mac_address" dev_dict = Some (PyStr m) →
        mac_address self' = Some m)
  ∧ (dict_get "mac_address" dev_dict = None →
     mac_address self' = mac_address self)
  ∧ (∀ caps decoded,
       dict_get "capabilities" dev_dict = Some caps →
       loads (extra_info_data caps) = Ok decoded →
       network_caps self' = py_get "network" (PyList []) decoded
       ∧ sriov_cap self' = py_get "sriov" (PyDict []) decoded
       ∧ card_serial_number self'
         = (vpd ← py_get "vpd" (PyDict []) decoded;
            py_get "card_serial_number" PyNone vpd)).
Proof.
  intros Hnd Hrun.
  pose proof (λ k, update_device_extra_info_lookup self self' dev_dict
                     dev_dict' k Hnd Hrun) as Hlookup.
  unfold mac_address, network_caps, sriov_cap, card_serial_number.
  rewrite !Hlookup. eval_closed. cbn [andb].
  split; [|split].
  - by intros m ->.
  - by intros ->.
  - intros caps decoded -> Hl. cbn [from_option]. unfold Datatypes.id.
    by rewrite Hl.
Qed.
End update_device_assigns.

Lemma update_device_assigns_named_fields_witness :
  address (update_device (H := reference_oslo) (pf_two_vfs 2) discovered).1.1
  = "0000:01:00.1"
  ∧ parent_addr
      (update_device (H := reference_oslo) (pf_two_vfs 2) discovered).1.1
    = None.
Proof.
  destruct (update_device_assigns_named_fields (H := reference_oslo)
              (pf_two_vfs 2)
              (update_device (H := reference_oslo) (pf_two_vfs 2)
                 discovered).1.1
              discovered
              (update_device (H := reference_oslo) (pf_two_vfs 2)
                 discovered).1.2) as (_ & Haddr & Hpa).
  - by apply (bool_decide_unpack _).
  - by vm_compute.
  - split; [by apply Haddr | by apply Hpa].
Defined.

Lemma accessors_after_update_device_witness :
  network_caps (H := reference_oslo)
    (update_device (H := reference_oslo) (pf_two_vfs 1) discovered).1.1
  = Ok (PyList [PyStr "rx"]).
Proof.
  destruct (accessors_after_update_device (H := reference_oslo)
              (pf_two_vfs 1)
              (update_device (H := reference_oslo) (pf_two_vfs 1)
                 discovered).1.1
              discovered
              (update_device (H := reference_oslo) (pf_two_vfs 1)
                 discovered).1.2) as (_ & _ & Hcaps).
  - by apply (bool_decide_unpack _).
  - by vm_compute.
  - destruct (Hcaps (PyDict [("network", PyList [PyStr "rx"])])
                (PyDict [("network", PyList [PyStr "rx"])]))
      as (Hn & _); [reflexivity | reflexivity | exact Hn].
Defined.


(** ** obj_make_compatible, version by version *)

Lemma version_lt_not_1_7 (v : list nat) :
  version_lt v [1; 7] = false →
  version_lt v [1; 2] = false ∧ version_lt v [1; 4] = false
  ∧ version_lt v [1; 5] = false ∧ version_lt v [1; 6] = false.
Proof.
  destruct v as [|x [|y v]]; cbn; [done| |].
  - by repeat case_bool_decide.
  - repeat case_bool_decide; try done; try lia.
Qed.

Lemma dict_del_absent {V : Type} (k : string) (d : dict V) :
  dict_get k d = None → dict_del k d = d.
Proof.
  induction d as [|[k0 v] rest IH]; [done|]. cbn.
  destruct (String.eqb k0 k); [done|]. intros Hk. by rewrite IH.
Qed.

Lemma strip_if {V : Type} (c : bool) (k : string) (d : dict V) :
  (if c && dict_has k d then dict_del k d else d)
  = if c then dict_del k d else d.
Proof.
  destruct c; [|done]. cbn [andb]. unfold dict_has.
  destruct (dict_get k d) eqn:Hk; [done|]. by rewrite dict_del_absent.
Qed.

Section compat_more.
Context `{Oslo}.

(** When [obj_make_compatible] returns, the primitive is the one of the
    functional reading, and the two checks have passed on it. *)
Lemma obj_make_compatible_ok (primitive primitive' : dict pyval)
    (target_version : string) (v : list nat) :
  convert_version_to_tuple target_version = Ok v →
  obj_make_compatible primitive target_version = (primitive', Ok tt) →
  primitive' = backlevel v primitive
  ∧ (version_lt v [1; 7] = true →
     dict_get "dev_type" primitive' ≠ Some (PyStr "vdpa")).
Proof.
  intros Hv. unfold obj_make_compatible, backlevel, raise_on_too_new_values.
  rewrite Hv. cbv zeta. rewrite !strip_if.
  set (p1 := if version_lt v [1; 2] then _ else _).
  destruct (version_lt v [1; 4] && dict_has "parent_addr" p1) eqn:H14.
  - apply andb_true_iff in H14 as [-> Hhas]. unfold dict_has in Hhas.
    destruct (dict_get "parent_addr" p1) as [pa|] eqn:Hpa; [|done].
    assert (Htail : ∀ p2,
      match
        (if version_lt v [1; 5] && dict_has "parent_addr" p2
         then match dict_get "status" p2 with
              | Some (PyStr value) =>
                  if bool_decide (value ∈ ["unclaimable"; "unavailable"])
                  then Raise ObjectActionError else Ok tt
              | _ => Ok tt
              end
         else Ok tt)
      with
      | Ok _ =>
          if version_lt v [1; 7]
             && dict_has "dev_type"
                  (if version_lt v [1; 6] then dict_del "uuid" p2 else p2)
          then (if version_lt v [1; 6] then dict_del "uuid" p2 else p2,
                match dict_get "dev_type"
                        (if version_lt v [1; 6] then dict_del "uuid" p2
                         else p2) with
                | Some (PyStr value) =>
                    if bool_decide (value ∈ ["vdpa"])
                    then Raise ObjectActionError else Ok tt
                | _ => Ok tt
                end)
          else (if version_lt v [1; 6] then dict_del "uuid" p2 else p2,
                Ok tt)
      | Raise e => (p2, Raise e)
      end = (primitive', Ok tt) →
      primitive' = (if version_lt v [1; 6] then dict_del "uuid" p2 else p2)
      ∧ (version_lt v [1; 7] = true →
         dict_get "dev_type" primitive' ≠ Some (PyStr "vdpa"))).
    { intros p2. destruct (if version_lt v [1; 5] && _ then _ else _);
        [|intros [=]].
      set (p3 := if version_lt v [1; 6] then _ else _).
      destruct (version_lt v [1; 7]); cbn [andb].
      - unfold dict_has.
        destruct (dict_get "dev_type" p3) as [[| | |s| |]|] eqn:Hty;
          try case_bool_decide as Hs; try (intros [=]; fail);
          intros [= <-].
        all: split; [done|]; intros _; rewrite Hty; try done.
        intros [= ->]. apply Hs. set_solver.
      - intros [= <-]. split; [done|]. intros [=]. }
    destruct pa; cbn beta iota; try (rewrite ?strip_if; apply Htail; fail).
    all: destruct (dict_get "extra_info" p1) as [[| | | | |ei]|] eqn:Hei;
      cbn beta iota; try (intros [=]; fail); rewrite ?strip_if; apply Htail.
  - assert (Hp2 : (if version_lt v [1; 4]
                   then dict_del "parent_addr"
                          match dict_get "parent_addr" p1,
                                dict_get "extra_info" p1 with
                          | Some PyNone, _ | None, _ => p1
                          | Some parent_addr, Some (PyDict extra_info) =>
                              dict_set "extra_info"
                                (PyDict (dict_set "phys_function" parent_addr
                                           extra_info)) p1
                          | Some _, _ => p1
                          end
                   else p1) = p1).
    { destruct (version_lt v [1; 4]); [|done]. cbn [andb] in H14.
      unfold dict_has in H14.
      destruct (dict_get "parent_addr" p1) eqn:Hpa; [done|].
      by apply dict_del_absent. }
    rewrite Hp2. cbn beta iota. rewrite ?strip_if.
    destruct (if version_lt v [1; 5] && _ then _ else _); [|intros [=]].
    set (p3 := if version_lt v [1; 6] then _ else _).
    destruct (version_lt v [1; 7]); cbn [andb].
    + unfold dict_has.
      destruct (dict_get "dev_type" p3) as [[| | |s| |]|] eqn:Hty;
        try case_bool_decide as Hs; try (intros [=]; fail);
        intros [= <-].
      all: split; [done|]; intros _; rewrite Hty; try done.
      intros [= ->]. apply Hs. set_solver.
    + intros [= <-]. split; [done|]. intros [=].
Qed.

Lemma phys_function_lookup (p : dict pyval) (k : string) :
  k ≠ "extra_info" →
  dict_get k
    match dict_get "parent_addr" p, dict_get "extra_info" p with
    | Some PyNone, _ | None, _ => p
    | Some parent_addr, Some (PyDict extra_info) =>
        dict_set "extra_info"
          (PyDict (dict_set "phys_function" parent_addr extra_info)) p
    | Some _, _ => p
    end
  = dict_get k p.
Proof.
  intros Hk.
  destruct (dict_get "parent_addr" p) as [[| | | | |]|]; try done.
  all: destruct (dict_get "extra_info" p) as [[| | | | |]|]; try done.
  all: by rewrite dict_get_set, decide_False.
Qed.

Lemma backlevel_lookup (v : list nat) (primitive : dict pyval)
    (k : string) :
  k ≠ "extra_info" →
  dict_get k (backlevel v primitive)
  = if bool_decide (k = "request_id") && version_lt v [1; 2] then None
    else if bool_decide (k = "parent_addr") && version_lt v [1; 4] then None
    else if bool_decide (k = "uuid") && version_lt v [1; 6] then None
    else dict_get k primitive.
Proof.
  intros Hk. unfold backlevel.
  set (p1 := if version_lt v [1; 2] then _ else _).
  assert (Hp1 : dict_get k p1
                = if version_lt v [1; 2]
                  then (if decide (k = "request_id") then None
                        else dict_get k primitive)
                  else dict_get k primitive).
  { unfold p1. destruct (version_lt v [1; 2]); [|done].
    by rewrite dict_get_del. }
  clearbody p1.
  destruct (version_lt v [1; 6]), (version_lt v [1; 4]).
  all: rewrite ?andb_true_r, ?andb_false_r.
  all: rewrite ?dict_get_del, ?phys_function_lookup by done.
  all: rewrite Hp1; destruct (version_lt v [1; 2]).
  all: rewrite ?andb_true_r, ?andb_false_r.
  all: repeat case_decide; repeat case_bool_decide; simplify_eq; done.
Qed.

(** X23.  An up-to-date target.  For a target version that is 1.7 or later,
    [obj_make_compatible] returns and leaves the primitive exactly as it is. *)
Theorem obj_make_compatible_current_target (primitive : dict pyval)
    (target_version : string) (v : list nat) :
  convert_version_to_tuple target_version = Ok v →
  version_lt v [1; 7] = false →
  obj_make_compatible primitive target_version = (primitive, Ok tt).
Proof.
  intros Hv H17. destruct (version_lt_not_1_7 v H17) as (H12 & H14 & H15 & H16).
  unfold obj_make_compatible. rewrite Hv. cbv zeta.
  by rewrite H12, H14, H15, H16, H17.
Qed.

(** X24.  Fields an older target does not know.  When [obj_make_compatible]
    returns, the primitive has no [request_id] for a target before 1.2, no
    [parent_addr] for a target before 1.4 and no [uuid] for a target before
    1.6; such a key is kept for a later target, and every key other than
    these three and [extra_info] is as it was. *)
Theorem obj_make_compatible_drops_newer_fields
    (primitive primitive' : dict pyval) (target_version : string)
    (v : list nat) :
  convert_version_to_tuple target_version = Ok v →
  obj_make_compatible primitive target_version = (primitive', Ok tt) →
  dict_get "request_id" primitive'
  = (if version_lt v [1; 2] then None else dict_get "request_id" primitive)
  ∧ dict_get "parent_addr" primitive'
    = (if version_lt v [1; 4] then None
       else dict_get "parent_addr" primitive)
  ∧ dict_get "uuid" primitive'
    = (if version_lt v [1; 6] then None else dict_get "uuid" primitive)
  ∧ ∀ k, k ∉ ["request_id"; "parent_addr"; "uuid"; "extra_info"] →
         dict_get k primitive' = dict_get k primitive.
Proof.
  intros Hv Hrun.
  destruct (obj_make_compatible_ok _ _ _ _ Hv Hrun) as [-> _].
  rewrite !backlevel_lookup by done.
  repeat split; eval_closed; cbn [andb]; try done.
  intros k Hk. rewrite backlevel_lookup by set_solver.
  by rewrite !bool_decide_false by set_solver.
Qed.

(** X25.  The parent address on its way to a target before 1.4.  When
    [obj_make_compatible] returns for such a target, a [parent_addr] that is
    not [None] has been written into the [extra_info] dict of the primitive
    under [phys_function].  If the primitive has no [extra_info], the address
    is written to a dict that is thrown away: the primitive comes back with
    neither [parent_addr] nor [extra_info].  With [parent_addr] absent or
    [None], [extra_info] is as it was. *)
Theorem obj_make_compatible_moves_parent_addr
    (primitive primitive' : dict pyval) (target_version : string)
    (v : list nat) :
  convert_version_to_tuple target_version = Ok v →
  obj_make_compatible primitive target_version = (primitive', Ok tt) →
  version_lt v [1; 4] = true →
  (∀ parent_addr extra_info,
     dict_get "parent_addr" primitive = Some parent_addr →
     parent_addr ≠ PyNone →
     dict_get "extra_info" primitive = Some (PyDict extra_info) →
     dict_get "extra_info" primitive'
     = Some (PyDict (dict_set "phys_function" parent_addr extra_info)))
  ∧ (dict_get "extra_info" primitive = None →
     dict_get "extra_info" primitive' = None
     ∧ dict_get "parent_addr" primitive' = None)
  ∧ (dict_get "parent_addr" primitive = None
     ∨ dict_get "parent_addr" primitive = Some PyNone →
     dict_get "extra_info" primitive'
     = dict_get "extra_info" primitive).
Proof.
  intros Hv Hrun H14.
  destruct (obj_make_compatible_ok _ _ _ _ Hv Hrun) as [-> _].
  assert (Hp1 : ∀ k, k ≠ "request_id" →
                     dict_get k (if version_lt v [1; 2]
                                 then dict_del "request_id" primitive
                                 else primitive)
                     = dict_get k primitive).
  { intros k Hk. destruct (version_lt v [1; 2]); [|done].
    by rewrite dict_get_del, decide_False. }
  assert (Hex : dict_get "extra_info" (backlevel v primitive)
                = match dict_get "parent_addr" primitive,
                        dict_get "extra_info" primitive with
                  | Some PyNone, ei | None, ei => ei
                  | Some parent_addr, Some (PyDict ei) =>
                      Some (PyDict (dict_set "phys_function" parent_addr ei))
                  | Some _, ei => ei
                  end).
  { unfold backlevel. rewrite H14.
    set (p1 := if version_lt v [1; 2] then _ else _) in *.
    assert (Hdel : ∀ p : dict pyval, dict_get "extra_info"
                          (if version_lt v [1; 6]
                           then dict_del "uuid" (dict_del "parent_addr" p)
                           else dict_del "parent_addr" p)
                        = dict_get "extra_info" p).
    { intros p. destruct (version_lt v [1; 6]);
        rewrite !dict_get_del; by repeat case_decide. }
    rewrite Hdel, !Hp1 by done.
    destruct (dict_get "parent_addr" primitive) as [[| | | | |]|];
      rewrite ?Hp1 by done; try done.
    all: destruct (dict_get "extra_info" primitive) as [[| | | | |]|] eqn:Hei;
      rewrite ?Hp1, ?Hei by done; try done.
    all: by rewrite dict_get_set, decide_True. }
  split; [|split].
  - intros pa ei Hpa Hne Hei. rewrite Hex, Hpa, Hei. by destruct pa.
  - intros Hei. split.
    + rewrite Hex, Hei. by destruct (dict_get _ primitive) as [[| | | | |]|].
    + rewrite backlevel_lookup by done. eval_closed. cbn [andb].
      by rewrite H14.
  - intros [Hpa | Hpa]; by rewrite Hex, Hpa.
Qed.

(** X26.  The device type 1.7 added.  For a target before 1.7,
    [obj_make_compatible] never returns a primitive whose [dev_type] is
    [vdpa]: on such a primitive it raises. *)
Theorem obj_make_compatible_refuses_vdpa (primitive : dict pyval)
    (target_version : string) (v : list nat) :
  convert_version_to_tuple target_version = Ok v →
  version_lt v [1; 7] = true →
  dict_get "dev_type" primitive = Some (PyStr "vdpa") →
  ∃ e, (obj_make_compatible primitive target_version).2 = Raise e.
Proof.
  intros Hv H17 Hty.
  destruct (obj_make_compatible primitive target_version)
    as [primitive' [[]|e]] eqn:Hrun; [|by eexists].
  exfalso.
  destruct (obj_make_compatible_ok _ _ _ _ Hv Hrun) as [-> Hcheck].
  apply (Hcheck H17). rewrite backlevel_lookup by done.
  eval_closed. by cbn [andb].
Qed.
End compat_more.

Lemma obj_make_compatible_current_target_witness :
  obj_make_compatible (H := reference_oslo) vdpa_primitive "1.7"
  = (vdpa_primitive, Ok tt).
Proof.
  by apply (obj_make_compatible_current_target (H := reference_oslo)
              vdpa_primitive "1.7" [1; 7]).
Defined.

Lemma obj_make_compatible_drops_newer_fields_witness :
  dict_get "uuid"
    (obj_make_compatible (H := reference_oslo) unclaimable_primitive "1.3").1
  = None
  ∧ dict_get "address"
      (obj_make_compatible (H := reference_oslo) unclaimable_primitive
         "1.3").1
    = Some (PyStr "0000:01:00.1").
Proof.
  destruct (obj_make_compatible_drops_newer_fields (H := reference_oslo)
              unclaimable_primitive
              (obj_make_compatible (H := reference_oslo)
                 unclaimable_primitive "1.3").1 "1.3" [1; 3]
              eq_refl eq_refl) as (_ & _ & Huuid & Hrest).
  split; [exact Huuid|]. apply Hrest. by apply (bool_decide_unpack _).
Defined.

Lemma obj_make_compatible_moves_parent_addr_witness :
  dict_get "extra_info"
    (obj_make_compatible (H := reference_oslo) unclaimable_primitive "1.3").1
  = Some (PyDict [("phys_function", PyStr "0000:01:00.0")]).
Proof.
  destruct (obj_make_compatible_moves_parent_addr (H := reference_oslo)
              unclaimable_primitive
              (obj_make_compatible (H := reference_oslo)
                 unclaimable_primitive "1.3").1 "1.3" [1; 3]
              eq_refl eq_refl eq_refl) as (Hmove & _ & _).
  by apply (Hmove (PyStr "0000:01:00.0") []).
Defined.

Lemma obj_make_compatible_refuses_vdpa_witness :
  ∃ e, (obj_make_compatible (H := reference_oslo) vdpa_primitive "1.6").2
       = Raise e.
Proof.
  by apply (obj_make_compatible_refuses_vdpa (H := reference_oslo)
              vdpa_primitive "1.6" [1; 6]).
Defined.


(** ** Creation *)

Section create_facts.
Context `{Oslo}.

(** X27.  What [create] returns.  The new device is AVAILABLE and carries the
    generated uuid whatever the dict says under [status] and [uuid]; no owner
    is set on it, whatever the dict says under [instance_uuid]; it has no
    link into a device tree; and its [extra_info] holds the keys of the dict
    that are not fields, and nothing else: an [extra_info] entry of the dict
    is ignored. *)
Theorem create_contract (generated_uuid : string)
    (dev_dict dev_dict' : dict pyval) (pci_device : PciDevice) :
  NoDup dev_dict.*1 →
  create generated_uuid dev_dict = (dev_dict', Ok pci_device) →
  status pci_device = AVAILABLE
  ∧ uuid pci_device = generated_uuid
  ∧ instance_uuid pci_device = Unset
  ∧ parent_device pci_device = None
  ∧ child_devices pci_device = []
  ∧ ∀ k, extra_info pci_device !! k
         = if bool_decide (dict_get k fields = None ∧ k ∉ persistent_fields)
           then extra_info_data <$> dict_get k dev_dict
           else None.
Proof.
  intros Hnd. unfold create.
  destruct (update_device (set_extra_info ∅ __init__) dev_dict)
    as [[dev dd] [[]|e]] eqn:Hrun; [|done].
  intros [= <- <-].
  destruct (update_device_frame (set_extra_info ∅ __init__) dev_dict)
    as (_ & Hiu & Hp & Hc & _).
  rewrite Hrun in Hiu, Hp, Hc. cbn [fst snd] in Hiu, Hp, Hc.
  repeat (split; [done|]).
  intros k. cbn [extra_info set_uuid set_status].
  rewrite (update_device_extra_info_lookup _ _ _ _ k Hnd Hrun).
  cbn [extra_info set_extra_info]. rewrite lookup_empty.
  unfold dict_has.
  destruct (dict_get k dev_dict) as [v|]; cbn [negb andb fmap option_fmap
    option_map].
  - by rewrite andb_false_r.
  - by repeat case_match.
Qed.

End create_facts.

Lemma create_contract_witness :
  status created_device = AVAILABLE
  ∧ uuid created_device = "6f1b8f5e-0c5b-4d8e-9a53-2d3c8a1f0b11"
  ∧ instance_uuid created_device = Unset
  ∧ extra_info created_device !! "managed" = Some "true"
  ∧ extra_info created_device !! "status" = None.
Proof.
  destruct (create_contract (H := reference_oslo)
              "6f1b8f5e-0c5b-4d8e-9a53-2d3c8a1f0b11" discovered
              (create (H := reference_oslo)
                 "6f1b8f5e-0c5b-4d8e-9a53-2d3c8a1f0b11" discovered).1
              created_device)
    as (Hst & Hu & Hiu & _ & _ & Hei).
  - by apply (bool_decide_unpack _).
  - by vm_compute.
  - repeat (split; [assumption|]).
    split; [exact (Hei "managed") | exact (Hei "status")].
Defined.


(** ** Back-fill of the uuid column *)

Lemma create_uuid_run (generated_uuid : string) (dev_id : Z)
    (table : pci_devices_table) :
  _create_uuid generated_uuid dev_id table
  = match table !! dev_id with
    | Some None =>
        (<[dev_id := Some generated_uuid]> table, Done (Some generated_uuid))
    | Some (Some s) => (table, Done (Some s))
    | None => (table, Failed NoResultFound)
    end.
Proof.
  unfold _create_uuid, update_on_match, query_one.
  destruct (table !! dev_id) as [[s|]|] eqn:Hrow; [|done|].
  - by rewrite Hrow.
  - by rewrite Hrow.
Qed.

(** X28.  The first writer wins.  [_create_uuid] fails only when the row is
    not there.  When it returns, the uuid it returns is the one the row holds
    from then on: the uuid the row held already, if any, and the generated
    one for a row that had none.  No other row changes, and a further call
    for the same row, whatever uuid it generates, returns the same uuid and
    writes nothing. *)
Theorem create_uuid_first_writer_wins (generated_uuid : string) (dev_id : Z)
    (table : pci_devices_table) :
  (table !! dev_id = None ↔
   _create_uuid generated_uuid dev_id table = (table, Failed NoResultFound))
  ∧ ∀ table' uuid,
      _create_uuid generated_uuid dev_id table = (table', Done uuid) →
      (∃ s, uuid = Some s)
      ∧ table' !! dev_id = Some uuid
      ∧ (∀ s, table !! dev_id = Some (Some s) →
              uuid = Some s ∧ table' = table)
      ∧ (table !! dev_id = Some None → uuid = Some generated_uuid)
      ∧ (∀ other, other ≠ dev_id → table' !! other = table !! other)
      ∧ ∀ generated_uuid',
          _create_uuid generated_uuid' dev_id table' = (table', Done uuid).
Proof.
  rewrite create_uuid_run. split.
  - destruct (table !! dev_id) as [[s|]|]; naive_solver.
  - intros table' u Hrun.
    destruct (table !! dev_id) as [[s|]|] eqn:Hrow; [| |done].
    + injection Hrun as <- <-. split; [by eexists|]. split; [done|].
      split; [naive_solver|]. split; [done|]. split; [done|].
      intros g'. by rewrite create_uuid_run, Hrow.
    + injection Hrun as <- <-. split; [by eexists|].
      split; [by rewrite lookup_insert_eq|].
      split; [done|]. split; [done|].
      split; [intros other Hne; by rewrite lookup_insert_ne|].
      intros g'. by rewrite create_uuid_run, lookup_insert_eq.
Qed.

Lemma rows_without_uuid_insert (dev_id : Z) (s : string)
    (table : pci_devices_table) :
  table !! dev_id = Some None →
  rows_without_uuid table
  = S (rows_without_uuid (<[dev_id := Some s]> table)).
Proof.
  intros Hrow. unfold rows_without_uuid.
  rewrite map_filter_insert_False by done.
  rewrite map_filter_delete, map_size_delete.
  assert (Hf : filter (λ row : Z * option string, row.2 = None) table
               !! dev_id = Some None)
    by by apply map_lookup_filter_Some.
  rewrite Hf.
  destruct (size (filter _ table)) eqn:Hsz; [|done].
  apply map_size_empty_iff in Hsz. rewrite Hsz in Hf.
  by rewrite lookup_empty in Hf.
Qed.

Lemma populate_loop_spec (generate_uuid : nat → string) (db_devs : list Z)
    (done : nat) (table : pci_devices_table) :
  NoDup db_devs →
  (∀ dev_id, dev_id ∈ db_devs → table !! dev_id = Some None) →
  ∃ table',
    populate_loop generate_uuid db_devs done table
    = (table', Done (done + length db_devs))
    ∧ (∀ dev_id, dev_id ∈ db_devs → ∃ s, table' !! dev_id = Some (Some s))
    ∧ (∀ dev_id, dev_id ∉ db_devs → table' !! dev_id = table !! dev_id)
    ∧ rows_without_uuid table
      = length db_devs + rows_without_uuid table'.
Proof.
  revert done table.
  induction db_devs as [|dev_id rest IH]; intros done table Hnd Hnull.
  - exists table. cbn. rewrite Nat.add_0_r. set_solver.
  - apply NoDup_cons in Hnd as [Hnin Hnd].
    cbn [populate_loop]. rewrite create_uuid_run.
    rewrite (Hnull dev_id) by set_solver.
    destruct (IH (S done) (<[dev_id := Some (generate_uuid done)]> table) Hnd)
      as (table' & Hrun & Hset & Hrest & Hcount).
    { intros k Hk. rewrite lookup_insert_ne by set_solver.
      apply Hnull. set_solver. }
    exists table'. split; [|split; [|split]].
    + rewrite Hrun. cbn [length]. do 2 f_equal. lia.
    + intros k [-> | Hk]%elem_of_cons; [|by apply Hset].
      rewrite Hrest by done. rewrite lookup_insert_eq. by eexists.
    + intros k [Hk1 Hk2]%not_elem_of_cons.
      rewrite Hrest by done. by rewrite lookup_insert_ne.
    + rewrite (rows_without_uuid_insert dev_id (generate_uuid done))
        by (apply Hnull; set_solver).
      rewrite Hcount. cbn [length]. lia.
Qed.

Lemma get_devs_no_uuid_spec (max_count : nat) (table : pci_devices_table) :
  NoDup (get_devs_no_uuid max_count table)
  ∧ (∀ dev_id, dev_id ∈ get_devs_no_uuid max_count table →
               table !! dev_id = Some None)
  ∧ length (get_devs_no_uuid max_count table)
    = min max_count (rows_without_uuid table).
Proof.
  unfold get_devs_no_uuid, rows_without_uuid. split; [|split].
  - eapply sublist_NoDup; [|apply sublist_take].
    apply NoDup_fst_map_to_list.
  - intros k Hk. apply subseteq_take in Hk.
    apply list_elem_of_fmap in Hk as ([k' v] & -> & Hkv).
    apply elem_of_map_to_list, map_lookup_filter_Some in Hkv as [Hrow Hv].
    cbn in Hv. by subst v.
  - by rewrite length_take, length_fmap, length_map_to_list.
Qed.

(** X29.  One run of the batch migration.  [populate_dev_uuids] never fails
    and returns the same number twice: the number of rows it gave a uuid,
    which is [max_count] or, when fewer rows wait for one, the number of
    those.  That many fewer rows wait afterwards; a row that had a uuid keeps
    it, and no row appears or disappears. *)
Theorem populate_dev_uuids_contract (generate_uuid : nat → string)
    (max_count : nat) (table : pci_devices_table) :
  ∃ table' done,
    populate_dev_uuids generate_uuid max_count table
    = (table', Done (done, done))
    ∧ done = min max_count (rows_without_uuid table)
    ∧ rows_without_uuid table' = rows_without_uuid table - done
    ∧ (∀ dev_id s, table !! dev_id = Some (Some s) →
                   table' !! dev_id = Some (Some s))
    ∧ (∀ dev_id, is_Some (table' !! dev_id) ↔ is_Some (table !! dev_id)).
Proof.
  unfold populate_dev_uuids.
  destruct (get_devs_no_uuid_spec max_count table) as (Hnd & Hnull & Hlen).
  destruct (populate_loop_spec generate_uuid _ 0 table Hnd Hnull)
    as (table' & Hrun & Hset & Hrest & Hcount).
  exists table', (length (get_devs_no_uuid max_count table)).
  rewrite Hrun. cbn [Nat.add].
  split; [done|]. split; [done|]. split; [lia|]. split.
  - intros k s Hrow. rewrite Hrest; [done|].
    intros Hk. apply Hnull in Hk. congruence.
  - intros k.
    destruct (decide (k ∈ get_devs_no_uuid max_count table)) as [Hk|Hk].
    + destruct (Hset k Hk) as [s ->]. rewrite (Hnull k Hk).
      split; by eexists.
    + by rewrite Hrest.
Qed.

(** X30.  The migration comes to an end.  A run whose [max_count] covers the
    rows that wait leaves every row with a uuid, and a run on such a table
    finds nothing to do: it returns [(0, 0)] and leaves the table as it is. *)
Theorem populate_dev_uuids_completes (generate_uuid : nat → string)
    (max_count : nat) (table : pci_devices_table) :
  (rows_without_uuid table ≤ max_count →
   ∀ dev_id row,
     (populate_dev_uuids generate_uuid max_count table).1 !! dev_id
     = Some row → is_Some row)
  ∧ (rows_without_uuid table = 0 →
     populate_dev_uuids generate_uuid max_count table
     = (table, Done (0, 0))).
Proof.
  split.
  - intros Hle k row Hrow.
    unfold populate_dev_uuids in Hrow.
    destruct (get_devs_no_uuid_spec max_count table) as (Hnd & Hnull & Hlen).
    destruct (populate_loop_spec generate_uuid _ 0 table Hnd Hnull)
      as (table' & Hrun & _ & _ & Hcount).
    rewrite Hrun in Hrow. cbn [fst] in Hrow.
    destruct row as [s|]; [by eexists|]. exfalso.
    assert (Hz : rows_without_uuid table' = 0) by lia.
    apply map_size_empty_iff in Hz.
    assert (Hf : filter (λ row : Z * option string, row.2 = None) table'
                 !! k = Some None)
      by by apply map_lookup_filter_Some.
    rewrite Hz in Hf. by rewrite lookup_empty in Hf.
  - intros Hz. unfold populate_dev_uuids, get_devs_no_uuid.
    apply map_size_empty_iff in Hz. rewrite Hz.
    rewrite map_to_list_empty. cbn [fmap list_fmap]. by rewrite take_nil.
Qed.

Lemma create_uuid_first_writer_wins_witness :
  _create_uuid "uuid-b" 1%Z (<[1%Z := Some "uuid-a"]> legacy_table)
  = (<[1%Z := Some "uuid-a"]> legacy_table, Done (Some "uuid-a")).
Proof.
  destruct (proj2 (create_uuid_first_writer_wins "uuid-a" 1%Z legacy_table)
              (<[1%Z := Some "uuid-a"]> legacy_table) (Some "uuid-a") eq_refl)
    as (_ & _ & _ & _ & _ & Hagain).
  apply Hagain.
Defined.

Lemma populate_dev_uuids_completes_witness :
  populate_dev_uuids example_uuids 10
    (populate_dev_uuids example_uuids 10 legacy_table).1
  = ((populate_dev_uuids example_uuids 10 legacy_table).1, Done (0, 0)).
Proof.
  apply (proj2 (populate_dev_uuids_completes example_uuids 10
                  (populate_dev_uuids example_uuids 10 legacy_table).1)).
  by vm_compute.
Defined.

